(** * APES orchestration engine: a shallow embedding and its checked properties

    The development follows the JavaScript sources of the engine:
    the agent registry and spawner, the intent classifier, the task
    decomposer, the complexity scorer, the DAG scheduler, the worker pool,
    the memory and learning systems, the orchestrator, and the interface
    layer: the command parser, the session context, the permission handler
    and the command line.

    Conventions of the embedding.
    - JavaScript numbers are modelled by exact rationals ([Q]); [Math.round]
      is [floor (x + 1/2)].  Rounding of binary64 arithmetic, [NaN] and the
      infinities are outside the model.  Where a property depends on the
      rounding, the function is embedded on binary64 numbers as well
      ([Binary64]).
    - Strings are [string]s over 8-bit code units; [toLowerCase] folds the
      ASCII letters and white space is the Latin-1 part of the class [\s].
    - A JavaScript [Map] is an insertion-ordered association list ([OMap]);
      a [Set] whose iteration order is never observed is a [gset]; an object
      used as a dictionary is a [gmap].
    - Objects that are shared and mutated (the DAG nodes, the agents) live in
      a store and are referred to by their key.
    - [Date.now()], [randomUUID()], [Math.random()], the worker body and
      the lines typed at a prompt are inputs of the functions that use
      them. *)

From Stdlib Require Import String Ascii List ZArith QArith Qround Qminmax Lia Lqa Bool Sorted.
From Stdlib Require PrimFloat.
From stdpp Require Import base gmap strings list.
Import ListNotations.

Local Open Scope string_scope.
Local Open Scope list_scope.

(** ** Insertion-ordered maps keyed by strings (JavaScript [Map]) *)

Module OMap.
Section OMap.
Context {V : Type}.

Fixpoint get (k : string) (m : list (string * V)) : option V :=
  match m with
  | [] => None
  | (k', v) :: m' => if String.eqb k k' then Some v else get k m'
  end.

(** [Map.prototype.set]: an existing key keeps its position. *)
Fixpoint set (k : string) (v : V) (m : list (string * V)) : list (string * V) :=
  match m with
  | [] => [(k, v)]
  | (k', v') :: m' =>
      if String.eqb k k' then (k', v) :: m' else (k', v') :: set k v m'
  end.

Definition keys (m : list (string * V)) : list string := map fst m.
Definition values (m : list (string * V)) : list V := map snd m.
Definition size (m : list (string * V)) : nat := length m.
End OMap.
End OMap.

Abbreviation omap V := (list (string * V)).

(** ** JavaScript primitives used by the engine *)

Module JS.
(** A string is truthy when it is not empty. *)
Definition truthy (s : string) : bool :=
  match s with EmptyString => false | _ => true end.

Definition code (c : ascii) : nat := nat_of_ascii c.

Definition between (lo hi n : nat) : bool := (lo <=? n)%nat && (n <=? hi)%nat.

Definition is_upper (c : ascii) : bool :=
  between 65 90 (code c)
  || (between 192 222 (code c) && negb (code c =? 215)%nat).

Definition lower_char (c : ascii) : ascii :=
  if is_upper c then ascii_of_nat (code c + 32) else c.

Fixpoint toLowerCase (s : string) : string :=
  match s with
  | EmptyString => EmptyString
  | String c s' => String (lower_char c) (toLowerCase s')
  end.

(** The class [\s] restricted to 8-bit code units. *)
Definition is_space (c : ascii) : bool :=
  between 9 13 (code c) || (code c =? 32)%nat || (code c =? 160)%nat.

(** The class [\w]. *)
Definition is_word (c : ascii) : bool :=
  between 48 57 (code c) || between 65 90 (code c)
  || between 97 122 (code c) || (code c =? 95)%nat.

Fixpoint startsWith (p s : string) : bool :=
  match p, s with
  | EmptyString, _ => true
  | String a p', String b s' => Ascii.eqb a b && startsWith p' s'
  | String _ _, EmptyString => false
  end.

(** [s.includes(needle)] *)
Fixpoint includes (s needle : string) : bool :=
  startsWith needle s
  || match s with
     | EmptyString => false
     | String _ s' => includes s' needle
     end.

Fixpoint trimStart (s : string) : string :=
  match s with
  | String c s' => if is_space c then trimStart s' else s
  | EmptyString => EmptyString
  end.

Fixpoint rev_string (acc s : string) : string :=
  match s with
  | EmptyString => acc
  | String c s' => rev_string (String c acc) s'
  end.

Definition trimEnd (s : string) : string :=
  rev_string EmptyString (trimStart (rev_string EmptyString s)).

Definition trim (s : string) : string := trimEnd (trimStart s).

(** [s.split(/\s+/)]: the pieces between the maximal runs of white space;
    [cur] is the piece being read (reversed), [in_sep] tells that the
    previous character belonged to a separator. *)
Fixpoint split_ws_go (cur : string) (in_sep : bool) (s : string) : list string :=
  match s with
  | EmptyString => [rev_string EmptyString cur]
  | String c s' =>
      if is_space c then
        if in_sep then split_ws_go cur true s'
        else rev_string EmptyString cur :: split_ws_go EmptyString true s'
      else split_ws_go (String c cur) false s'
  end.

Definition split_ws (s : string) : list string := split_ws_go EmptyString false s.

(** Empty or made of white space only. *)
Fixpoint blank (s : string) : bool :=
  match s with
  | EmptyString => true
  | String c s' => is_space c && blank s'
  end.

(** [Array.prototype.includes] on strings. *)
Definition mem (x : string) (l : list string) : bool :=
  existsb (String.eqb x) l.

(** [Math.round]: the nearest integer, halves upwards. *)
Definition round (x : Q) : Z := Qfloor (x + (1 # 2)).

(** [Math.min] and [Math.max] on two numbers. *)
Definition min (x y : Q) : Q := if Qle_bool x y then x else y.
Definition max (x y : Q) : Q := if Qle_bool x y then y else x.

Definition lt (x y : Q) : bool := negb (Qle_bool y x).

(** [l.slice(0, n)] for an integer [n]; a negative end counts from the
    end of the array. *)
Definition slice0 {A} (n : Z) (l : list A) : list A :=
  if (n <? 0)%Z then firstn (length l - Z.to_nat (- n)) l
  else firstn (Z.to_nat n) l.

(** [l.slice(-n)] for a positive [n]: the last [n] elements. *)
Definition slice_last {A} (n : nat) (l : list A) : list A :=
  skipn (length l - n) l.

(** A stable sort by descending key, as [sort((a, b) => key b - key a)]. *)
Section Sort.
Context {A : Type} (key : A -> Q).
Fixpoint insert_desc (x : A) (l : list A) : list A :=
  match l with
  | [] => [x]
  | y :: l' =>
      if lt (key x) (key y) then y :: insert_desc x l' else x :: l
  end.
Definition sort_desc (l : list A) : list A := fold_right insert_desc [] l.
End Sort.

(** [l.join(sep)] on strings. *)
Definition join (sep : string) (l : list string) : string := String.concat sep l.

(** [s.split(c)] for a separator of one character: the first piece and
    the pieces after it. *)
Fixpoint split_char (sep : ascii) (s : string) : string * list string :=
  match s with
  | EmptyString => (EmptyString, [])
  | String c s' =>
      let '(piece, pieces) := split_char sep s' in
      if Ascii.eqb c sep then (EmptyString, piece :: pieces)
      else (String c piece, pieces)
  end.

(** [s.slice(n)] on a string, for a natural number [n]. *)
Fixpoint drop (n : nat) (s : string) : string :=
  match n, s with
  | O, _ => s
  | S n', String _ s' => drop n' s'
  | S _, EmptyString => EmptyString
  end.
End JS.

(** ** Data model *)

Inductive Status := pending | running | completed | failed | skipped | scheduled.

Definition Status_eqb (a b : Status) : bool :=
  match a, b with
  | pending, pending | running, running | completed, completed
  | failed, failed | skipped, skipped | scheduled, scheduled => true
  | _, _ => false
  end.

Inductive Level := simple | medium | complex.

Definition Level_eqb (a b : Level) : bool :=
  match a, b with
  | simple, simple | medium, medium | complex, complex => true
  | _, _ => false
  end.

Module Task.
Record t := mk {
  id : string;
  index : nat;
  description : string;
  type : string;
  cluster : string;
  dependsOn : list string;
  status : Status;
  priority : nat
}.
End Task.

Module Decomposition.
Record t := mk {
  tasks : list Task.t;
  totalTasks : nat;
  hasParallelizable : bool
}.
End Decomposition.

(** What the worker pool hands back for one job: the promise of
    [pool.execute] either resolves to [{output, metadata}] after [elapsed]
    milliseconds or rejects with an error carrying [message]. *)
Inductive WorkerOutcome :=
| Resolved (output : string) (elapsed : nat)
| Rejected (message : string).

Module Job.
Record t := mk { task : Task.t; agentIds : list string }.
End Job.

Inductive NodeResult :=
| NodeOutput (output : string)
| NodeError (message : string).

Module Node.
Record t := mk {
  task : Task.t;
  dependsOn : gset string;
  dependents : gset string;
  status : Status;
  result : option NodeResult
}.
Definition with_status (s : Status) (n : t) : t :=
  mk (task n) (dependsOn n) (dependents n) s (result n).
Definition with_result (r : option NodeResult) (n : t) : t :=
  mk (task n) (dependsOn n) (dependents n) (status n) r.
Definition add_dependent (d : string) (n : t) : t :=
  mk (task n) (dependsOn n) (dependents n ∪ {[d]}) (status n) (result n).
End Node.

Module TaskResult.
Record t := mk {
  taskId : string;
  description : string;
  status : Status;
  output : option string;
  error : option string;
  duration : nat;
  agentId : option string;
  wave : nat
}.
End TaskResult.

Module ExecutionResult.
Record t := mk {
  results : list TaskResult.t;
  waves : nat;
  totalTasks : nat
}.
End ExecutionResult.


(** ** Agent registry *)

Module Agent.
Record t := mk {
  id : string;
  role : string;
  cluster : string;
  skills : list string;
  complexitySupported : list Level;
  confidenceScore : Q;
  avgExecutionTime : Q;
  totalExecutions : nat;
  failureRate : Q;
  createdAt : nat
}.
End Agent.

Module Cluster.
Record t := mk {
  id : string;
  name : string;
  description : string;
  agents : list string
}.
End Cluster.

Module Criteria.
Record t := mk {
  cluster : option string;
  skills : option (list string);
  complexity : option Level
}.
End Criteria.

Module Metrics.
Record t := mk { duration : Q; failed : bool }.
End Metrics.

Module RegistryStatus.
Record t := mk {
  totalAgents : nat;
  totalClusters : nat;
(** the [name] and the [agentCount] of every cluster *)
clusters : list (string * nat)
}.
End RegistryStatus.

Module AgentRegistry.
Record t := mk {
  agents : omap Agent.t;
  clusters : omap Cluster.t
}.

Definition empty : t := mk [] [].

Local Open Scope Q_scope.

Definition registerCluster (id name description : string) (r : t) : t :=
  mk (agents r) (OMap.set id (Cluster.mk id name description []) (clusters r)).

(** The caller supplies the seven fields of the literal; [now] is
    [Date.now()]. *)
Definition registerAgent (now : nat) (id role cluster : string)
    (skills : list string) (complexitySupported : list Level)
    (confidenceScore avgExecutionTime : Q) (r : t) : t :=
  let agentRecord :=
    Agent.mk id role cluster skills complexitySupported
             confidenceScore avgExecutionTime 0 0 now in
  let agents' := OMap.set id agentRecord (agents r) in
  match OMap.get cluster (clusters r) with
  | Some c =>
      mk agents'
         (OMap.set cluster
            (Cluster.mk (Cluster.id c) (Cluster.name c) (Cluster.description c)
                        (Cluster.agents c ++ [id]))
            (clusters r))
  | None => mk agents' (clusters r)
  end.

Definition initializeDefaults (now : nat) (r : t) : t :=
  let r := registerCluster "research" "Research Cluster"
             "Information gathering, documentation, and analysis" r in
  let r := registerAgent now "researcher_v1" "research_analyst" "research"
             ["web-search"; "documentation"; "summarization"; "comparison"]
             [simple; medium; complex] 0.85 2.0 r in
  let r := registerAgent now "planner_v1" "architect" "research"
             ["architecture"; "planning"; "decomposition"; "roadmap"]
             [medium; complex] 0.80 3.0 r in
  let r := registerCluster "coding" "Coding Cluster"
             "Code generation, debugging, refactoring, testing" r in
  let r := registerAgent now "code_agent_v2" "backend_engineer" "coding"
             ["nodejs"; "api"; "database"; "typescript"; "python"]
             [simple; medium; complex] 0.87 3.4 r in
  let r := registerAgent now "code_reviewer_v1" "code_reviewer" "coding"
             ["review"; "security-audit"; "best-practices"; "optimization"]
             [medium; complex] 0.82 2.1 r in
  let r := registerAgent now "debugger_v1" "debugger" "coding"
             ["debugging"; "error-trace"; "fix"; "testing"]
             [simple; medium; complex] 0.79 2.8 r in
  let r := registerCluster "devops" "DevOps Cluster"
             "Deployment, infrastructure, CI/CD, monitoring" r in
  let r := registerAgent now "devops_agent_v1" "devops_engineer" "devops"
             ["docker"; "kubernetes"; "ci-cd"; "cloud"; "monitoring"]
             [medium; complex] 0.81 4.2 r in
  let r := registerAgent now "infra_agent_v1" "infrastructure_engineer" "devops"
             ["aws"; "terraform"; "networking"; "security"; "scaling"]
             [complex] 0.76 5.0 r in
  let r := registerCluster "uiux" "UI/UX Cluster"
             "Design, frontend development, styling, animation" r in
  let r := registerAgent now "frontend_agent_v1" "frontend_engineer" "uiux"
             ["react"; "css"; "html"; "javascript"; "responsive-design"]
             [simple; medium; complex] 0.84 3.0 r in
  let r := registerAgent now "designer_agent_v1" "ux_designer" "uiux"
             ["wireframe"; "mockup"; "color-theory"; "accessibility"; "layout"]
             [simple; medium] 0.78 2.5 r in
  let r := registerCluster "analysis" "Analysis Cluster"
             "Performance analysis, testing, auditing, benchmarks" r in
  let r := registerAgent now "test_agent_v1" "test_engineer" "analysis"
             ["unit-testing"; "integration-testing"; "e2e"; "coverage"]
             [simple; medium; complex] 0.83 2.5 r in
  let r := registerAgent now "performance_agent_v1" "performance_analyst" "analysis"
             ["profiling"; "benchmark"; "optimization"; "bottleneck-analysis"]
             [medium; complex] 0.80 4.0 r in
  let r := registerCluster "evaluation" "Memory & Evaluation Cluster"
             "Meta-analysis, optimization tracking, pattern recognition" r in
  registerAgent now "evaluator_agent_v1" "meta_evaluator" "evaluation"
             ["quality-check"; "cross-validation"; "consistency-check"]
             [medium; complex] 0.85 1.5 r.

(** [new AgentRegistry()] *)
Definition new (now : nat) : t := initializeDefaults now empty.

Definition supports (lvl : Level) (a : Agent.t) : bool :=
  existsb (Level_eqb lvl) (Agent.complexitySupported a).

Definition findAgents (criteria : Criteria.t) (r : t) : list Agent.t :=
  let candidates := OMap.values (agents r) in
  let candidates :=
    match Criteria.cluster criteria with
    | Some c =>
        if JS.truthy c
        then List.filter (fun a => String.eqb (Agent.cluster a) c) candidates
        else candidates
    | None => candidates
    end in
  let candidates :=
    match Criteria.skills criteria with
    | Some ((_ :: _) as sk) =>
        List.filter
          (fun a => existsb (fun skill => JS.mem skill (Agent.skills a)) sk)
          candidates
    | _ => candidates
    end in
  let candidates :=
    match Criteria.complexity criteria with
    | Some lvl => List.filter (supports lvl) candidates
    | None => candidates
    end in
  JS.sort_desc Agent.confidenceScore candidates.

Definition getAgent (id : string) (r : t) : option Agent.t :=
  OMap.get id (agents r).

Definition alpha : Q := 0.3.

(** [updateAgentMetrics] on exact numbers; [Binary64.updateAgentMetrics]
    below is the same function on binary64 numbers. *)
Definition updateAgentMetrics (agentId : string) (metrics : Metrics.t) (r : t) : t :=
  match OMap.get agentId (agents r) with
  | None => r
  | Some agent =>
      let totalExecutions := S (Agent.totalExecutions agent) in
      let avgExecutionTime :=
        Agent.avgExecutionTime agent * (1 - alpha)
        + Metrics.duration metrics * alpha in
      let failureRate :=
        if Metrics.failed metrics
        then Agent.failureRate agent * (1 - alpha) + alpha
        else Agent.failureRate agent * (1 - alpha) in
      let confidenceScore :=
        if negb (Metrics.failed metrics)
           && JS.lt (Metrics.duration metrics) avgExecutionTime
        then JS.min 1.0 (Agent.confidenceScore agent + 0.02)
        else if Metrics.failed metrics
        then JS.max 0.1 (Agent.confidenceScore agent - 0.05)
        else Agent.confidenceScore agent in
      mk (OMap.set agentId
            (Agent.mk (Agent.id agent) (Agent.role agent) (Agent.cluster agent)
               (Agent.skills agent) (Agent.complexitySupported agent)
               confidenceScore avgExecutionTime totalExecutions failureRate
               (Agent.createdAt agent))
            (agents r))
         (clusters r)
  end.

Definition getStatus (r : t) : RegistryStatus.t :=
  RegistryStatus.mk (OMap.size (agents r)) (OMap.size (clusters r))
    (map (fun c => (Cluster.name c, List.length (Cluster.agents c)))
         (OMap.values (clusters r))).
End AgentRegistry.

(** ** The metrics update on binary64 numbers

    The test that decides the boost of [updateAgentMetrics] compares two
    numbers that rounding can make equal, so the function is embedded a
    second time, with the numbers of the agent record and of the metrics
    as the binary64 values that JavaScript computes with.  Of the registry
    only the map [agents] is kept: the function reads and writes nothing
    else. *)

Module Binary64.
Import PrimFloat.

(** [Math.min] and [Math.max] of two numbers: [NaN] when one of them is
    [NaN], and [-0] is smaller than [+0]. *)
Definition min (a b : float) : float :=
  if is_nan a || is_nan b then nan
  else if ltb a b then a
  else if ltb b a then b
  else if get_sign a then a else b.

Definition max (a b : float) : float :=
  if is_nan a || is_nan b then nan
  else if ltb a b then b
  else if ltb b a then a
  else if get_sign a then b else a.

Module Agent.
Record t := mk {
  id : string;
  role : string;
  cluster : string;
  skills : list string;
  complexitySupported : list Level;
  confidenceScore : float;
  avgExecutionTime : float;
  totalExecutions : float;
  failureRate : float;
  createdAt : nat
}.
End Agent.

Module Metrics.
Record t := mk { duration : float; failed : bool }.
End Metrics.

(** [this.agents.set(agent.id, agentRecord)] of [registerAgent]. *)
Definition registerAgent (now : nat) (id role cluster : string)
    (skills : list string) (complexitySupported : list Level)
    (confidenceScore avgExecutionTime : float) (agents : omap Agent.t)
  : omap Agent.t :=
  OMap.set id
    (Agent.mk id role cluster skills complexitySupported
       confidenceScore avgExecutionTime 0 0 now)
    agents.

Definition alpha : float := 0.3.

Definition updateAgentMetrics (agentId : string) (metrics : Metrics.t)
    (agents : omap Agent.t) : omap Agent.t :=
  match OMap.get agentId agents with
  | None => agents
  | Some agent =>
      let totalExecutions := (Agent.totalExecutions agent + 1)%float in
      let avgExecutionTime :=
        (Agent.avgExecutionTime agent * (1 - alpha)
         + Metrics.duration metrics * alpha)%float in
      let failureRate :=
        if Metrics.failed metrics
        then (Agent.failureRate agent * (1 - alpha) + alpha)%float
        else (Agent.failureRate agent * (1 - alpha))%float in
      let confidenceScore :=
        if negb (Metrics.failed metrics)
           && ltb (Metrics.duration metrics) avgExecutionTime
        then min 1.0 (Agent.confidenceScore agent + 0.02)%float
        else if Metrics.failed metrics
        then max 0.1 (Agent.confidenceScore agent - 0.05)%float
        else Agent.confidenceScore agent in
      OMap.set agentId
        (Agent.mk (Agent.id agent) (Agent.role agent) (Agent.cluster agent)
           (Agent.skills agent) (Agent.complexitySupported agent)
           confidenceScore avgExecutionTime totalExecutions failureRate
           (Agent.createdAt agent))
        agents
  end.

(** A sequence of calls for one agent. *)
Definition updateAll (agentId : string) (calls : list Metrics.t)
    (agents : omap Agent.t) : omap Agent.t :=
  fold_left (fun agents metrics => updateAgentMetrics agentId metrics agents)
            calls agents.

(** The first agent that [initializeDefaults] registers. *)
Definition researcher (now : nat) : omap Agent.t :=
  registerAgent now "researcher_v1" "research_analyst" "research"
    ["web-search"; "documentation"; "summarization"; "comparison"]
    [simple; medium; complex] 0.85 2.0 [].

(** The largest binary64 number below 2, printed 1.9999999999999998. *)
Definition below_two : float := 0x1.fffffffffffffp+0.

(** Ninety-eight successful executions of one millisecond and a failed
    one. *)
Definition warm_up : list Metrics.t :=
  repeat (Metrics.mk 1 false) 98 ++ [Metrics.mk 1 true].
End Binary64.

(** ** Stage 1: parsed input *)

Module Parsed.
Record t := mk {
  raw : string;
  tokens : list string;
  length : nat;
  wordCount : nat
}.
End Parsed.

(** ** Stage 2: intent classifier *)

Module SecondaryIntent.
Record t := mk { type : string; confidence : Q }.
End SecondaryIntent.

Module Intent.
Record t := mk {
  type : string;
  cluster : string;
  priority : option string;
  confidence : Q;
  matched : list string;
  secondary : list SecondaryIntent.t
}.
End Intent.

Module IntentClassifier.
Module Pattern.
Record t := mk { keywords : list string; cluster : string; priority : string }.
End Pattern.

Module Score.
Record t := mk {
  type : string;
  cluster : string;
  priority : string;
  confidence : Q;
  matched : list string
}.
End Score.

Definition patterns : omap Pattern.t :=
  [ ("code",
     Pattern.mk ["build"; "create"; "implement"; "code"; "write"; "develop";
                 "function"; "class"; "api"; "endpoint"; "component"; "module";
                 "refactor"; "fix"; "bug"; "debug"]
                "coding" "high");
    ("research",
     Pattern.mk ["research"; "find"; "search"; "look up"; "investigate";
                 "analyze"; "compare"; "what is"; "how does"; "explain";
                 "understand"]
                "research" "medium");
    ("devops",
     Pattern.mk ["deploy"; "docker"; "kubernetes"; "ci/cd"; "pipeline"; "server";
                 "cloud"; "aws"; "infrastructure"; "monitor"; "scale"; "container"]
                "devops" "high");
    ("design",
     Pattern.mk ["design"; "ui"; "ux"; "layout"; "style"; "theme"; "color";
                 "responsive"; "animation"; "interface"; "mockup"; "wireframe"]
                "uiux" "medium");
    ("analysis",
     Pattern.mk ["analyze"; "evaluate"; "report"; "metrics"; "performance";
                 "benchmark"; "test"; "audit"; "review"; "optimize"; "profile"]
                "analysis" "medium");
    ("planning",
     Pattern.mk ["plan"; "architecture"; "design system"; "roadmap"; "strategy";
                 "structure"; "organize"; "breakdown"; "decompose"]
                "research" "low") ].

Local Open Scope Q_scope.

Definition scoreOf (inputLower : string) (entry : string * Pattern.t)
  : option Score.t :=
  let '(intentType, pattern) := entry in
  let matched :=
    List.filter (fun kw => JS.includes inputLower kw) (Pattern.keywords pattern) in
  match matched with
  | [] => None
  | _ =>
      Some (Score.mk intentType (Pattern.cluster pattern) (Pattern.priority pattern)
              (JS.min (inject_Z (Z.of_nat (List.length matched)) / 3) 1.0)
              matched)
  end.

Fixpoint collectScores (inputLower : string) (ps : omap Pattern.t) : list Score.t :=
  match ps with
  | [] => []
  | entry :: ps' =>
      match scoreOf inputLower entry with
      | Some s => s :: collectScores inputLower ps'
      | None => collectScores inputLower ps'
      end
  end.

Definition general : Intent.t :=
  Intent.mk "general" "research" None 0.3 [] [].

Definition classify (parsed : Parsed.t) : Intent.t :=
  let inputLower := JS.toLowerCase (Parsed.raw parsed) in
  let scores := collectScores inputLower patterns in
  let scores := JS.sort_desc Score.confidence scores in
  match scores with
  | [] => general
  | top :: rest =>
      Intent.mk (Score.type top) (Score.cluster top) (Some (Score.priority top))
        (Score.confidence top) (Score.matched top)
        (map (fun s => SecondaryIntent.mk (Score.type s) (Score.confidence s)) rest)
  end.
End IntentClassifier.

(** ** Stage 3: task decomposer *)

Module Subtask.
Record t := mk { text : string; connector : string }.
End Subtask.

Module TaskDecomposer.
Definition connectors : list string :=
  ["and"; "then"; "also"; "plus"; "with"; "after"].
Definition sequenceMarkers : list string :=
  ["then"; "after"; "once"; "when"; "finally"; "next"].

(** *** The split pattern [/\b(and|then|also|plus|with|after)\b|[.;]\s*/gi] *)

(** Case folding of the [i] flag: only the ASCII letters fold. *)
Definition fold_case (c : ascii) : ascii :=
  if JS.between 65 90 (JS.code c) then ascii_of_nat (JS.code c + 32) else c.

Definition is_word_opt (c : option ascii) : bool :=
  match c with Some c => JS.is_word c | None => false end.

Definition head (s : string) : option ascii :=
  match s with String c _ => Some c | EmptyString => None end.

(** The assertion [\b] between the character before and the one after. *)
Definition boundary (before after : option ascii) : bool :=
  xorb (is_word_opt before) (is_word_opt after).

(** [word] (lower case) read at the start of [s], ignoring case: the text
    read, its last character and what follows. *)
Fixpoint match_word (word s : string) (last : option ascii)
  : option (string * option ascii * string) :=
  match word, s with
  | EmptyString, _ => Some (EmptyString, last, s)
  | String a word', String b s' =>
      if Ascii.eqb a (fold_case b) then
        match match_word word' s' (Some b) with
        | Some (m, l, r) => Some (String b m, l, r)
        | None => None
        end
      else None
  | String _ _, EmptyString => None
  end.

(** The first connector, in the order of the alternation, that can be read
    at the start of [s] and ends on a word boundary. *)
Fixpoint match_connectors (ws : list string) (prev : option ascii) (s : string)
  : option string :=
  match ws with
  | [] => None
  | w :: ws' =>
      match match_word w s prev with
      | Some (m, l, r) =>
          if boundary l (head r) then Some m else match_connectors ws' prev s
      | None => match_connectors ws' prev s
      end
  end.

Fixpoint count_spaces (s : string) : nat :=
  match s with
  | String c s' => if JS.is_space c then S (count_spaces s') else 0
  | EmptyString => 0
  end.

(** One attempt of the pattern at the start of [s], [prev] being the
    character before it: the capture of group 1 ([None] when the group did
    not take part) and the length of the match. *)
Definition match_at (prev : option ascii) (s : string) : option (option string * nat) :=
  match
    (if boundary prev (head s) then match_connectors connectors prev s else None)
  with
  | Some m => Some (Some m, String.length m)
  | None =>
      match s with
      | String c s' =>
          if Ascii.eqb c "."%char || Ascii.eqb c ";"%char
          then Some (None, S (count_spaces s'))
          else None
      | EmptyString => None
      end
  end.

(** [input.split(pattern)]: the pieces between the matches, each match
    leaving its capture behind; [skip] counts the characters of the current
    match still to be passed, [cur] is the piece being read (reversed). *)
Fixpoint split_go (skip : nat) (prev : option ascii) (cur : string) (s : string)
  : list (option string) :=
  match s with
  | EmptyString => [Some (JS.rev_string EmptyString cur)]
  | String c s' =>
      match skip with
      | S k => split_go k (Some c) cur s'
      | O =>
          match match_at prev s with
          | Some (capture, len) =>
              Some (JS.rev_string EmptyString cur) :: capture
                :: split_go (len - 1) (Some c) EmptyString s'
          | None => split_go 0 (Some c) (String c cur) s'
          end
      end
  end.

Definition split (input : string) : list (option string) :=
  split_go 0 None EmptyString input.

(** [filter(p => p && p.trim().length > 2)] *)
Fixpoint keep_parts (ps : list (option string)) : list string :=
  match ps with
  | [] => []
  | Some p :: ps' =>
      if JS.truthy p && (2 <? String.length (JS.trim p))%nat
      then p :: keep_parts ps' else keep_parts ps'
  | None :: ps' => keep_parts ps'
  end.

(** The loop over [parts]; [before] is [parts[i - 1]]. *)
Fixpoint collect (before : option string) (parts : list string) : list Subtask.t :=
  match parts with
  | [] => []
  | p :: parts' =>
      let part := JS.trim p in
      if JS.mem (JS.toLowerCase part) connectors
      then collect (Some p) parts'
      else
        Subtask.mk part
          (match before with Some q => JS.toLowerCase q | None => "" end)
          :: collect (Some p) parts'
  end.

Definition splitIntoSubtasks (input : string) : list Subtask.t :=
  let parts := keep_parts (split input) in
  match collect None parts with
  | [] => [Subtask.mk input ""]
  | results => results
  end.

Definition isSequentialMarker (connector : string) : bool :=
  JS.mem (JS.toLowerCase connector) sequenceMarkers.

Definition calculatePriority (text : string) (intent : Intent.t) : nat :=
  let priority := 1 in
  let priority :=
    if String.eqb (Intent.type intent) "code" || String.eqb (Intent.type intent) "devops"
    then priority + 1 else priority in
  let priority :=
    if (10 <? List.length (JS.split_ws text))%nat then priority + 1 else priority in
  Nat.min priority 5.

(** The loop of [decompose]; [uuid k] is the identifier drawn by the
    [k]-th call of [randomUUID().slice(0, 8)]. *)
Fixpoint build (uuid : nat -> string) (intent : Intent.t) (i : nat)
    (prevId : option string) (subtasks : list Subtask.t) : list Task.t :=
  match subtasks with
  | [] => []
  | subtask :: rest =>
      let id := uuid i in
      let isSequential := isSequentialMarker (Subtask.connector subtask) in
      let dependsOn :=
        match prevId with
        | Some p => if isSequential && JS.truthy p then [p] else []
        | None => []
        end in
      Task.mk id i (JS.trim (Subtask.text subtask)) (Intent.type intent)
              (Intent.cluster intent) dependsOn pending
              (calculatePriority (Subtask.text subtask) intent)
        :: build uuid intent (S i) (Some id) rest
  end.

Definition decompose (uuid : nat -> string) (parsed : Parsed.t) (intent : Intent.t)
  : Decomposition.t :=
  let subtasks := splitIntoSubtasks (Parsed.raw parsed) in
  let tasks := build uuid intent 0 None subtasks in
  let tasks :=
    match tasks with
    | [] =>
        [Task.mk (uuid (List.length subtasks)) 0 (Parsed.raw parsed)
                 (Intent.type intent) (Intent.cluster intent) [] pending 1]
    | _ => tasks
    end in
  Decomposition.mk tasks (List.length tasks)
    (1 <? List.length
            (List.filter (fun t => match Task.dependsOn t with [] => true | _ => false end)
               tasks))%nat.
End TaskDecomposer.

(** ** Stage 4: complexity scorer *)

Module Details.
Record t := mk { subtaskCount : nat; dependencyWeight : Q; riskFactor : Q }.
End Details.

Module Complexity.
Record t := mk {
  score : Q;
  level : Level;
  agentCount : Z;
  waves : nat;
  details : Details.t
}.
End Complexity.

(** A task level of [calculateWaves]: a natural number or [-Infinity]
    (what [Math.max()] of no argument yields). *)
Inductive WaveLevel := NegInfinity | Lvl (n : nat).

Module ComplexityScorer.
Local Open Scope Q_scope.

Definition riskKeywords : list string :=
  ["deploy"; "delete"; "production"; "database"; "migration";
   "security"; "authentication"; "payment"; "critical"; "infrastructure"].

Definition agentRange (l : Level) : Z * Z :=
  match l with
  | simple => (1, 2)%Z
  | medium => (3, 5)%Z
  | complex => (5, 10)%Z
  end.

Definition calculateRiskFactor (tasks : list Task.t) : Q :=
  let risk :=
    fold_left
      (fun risk task =>
         let description := JS.toLowerCase (Task.description task) in
         fold_left
           (fun risk keyword =>
              if JS.includes description keyword then risk + 0.2 else risk)
           riskKeywords risk)
      tasks 1.0 in
  JS.min risk 3.0.

Definition level_max (a b : WaveLevel) : WaveLevel :=
  match a, b with
  | NegInfinity, x | x, NegInfinity => x
  | Lvl n, Lvl m => Lvl (Nat.max n m)
  end.

Definition level_succ (a : WaveLevel) : WaveLevel :=
  match a with NegInfinity => NegInfinity | Lvl n => Lvl (S n) end.

(** [getLevel]: the memo table [levels] is threaded through the calls.
    [fuel] bounds the depth of the recursion; [None] is the [RangeError] of
    an unbounded recursion. *)
Fixpoint getLevel (fuel : nat) (taskMap : omap Task.t) (levels : omap WaveLevel)
    (task : Task.t) : option (omap WaveLevel * WaveLevel) :=
  match fuel with
  | O => None
  | S fuel' =>
      match OMap.get (Task.id task) levels with
      | Some l => Some (levels, l)
      | None =>
          match Task.dependsOn task with
          | [] => Some (OMap.set (Task.id task) (Lvl 0) levels, Lvl 0)
          | deps =>
              let present :=
                flat_map
                  (fun depId =>
                     match OMap.get depId taskMap with
                     | Some dep => [dep]
                     | None => []
                     end)
                  deps in
              match
                fold_left
                  (fun acc dep =>
                     match acc with
                     | None => None
                     | Some (lv, mx) =>
                         match getLevel fuel' taskMap lv dep with
                         | Some (lv', l) => Some (lv', level_max mx l)
                         | None => None
                         end
                     end)
                  present (Some (levels, NegInfinity))
              with
              | None => None
              | Some (lv, maxDepLevel) =>
                  let level := level_succ maxDepLevel in
                  Some (OMap.set (Task.id task) level lv, level)
              end
          end
      end
  end.

Definition calculateWaves (tasks : list Task.t) : option nat :=
  let taskMap :=
    fold_left (fun m t => OMap.set (Task.id t) t m) tasks [] in
  match
    fold_left
      (fun acc t =>
         match acc with
         | None => None
         | Some levels =>
             match getLevel (S (List.length tasks)) taskMap levels t with
             | Some (levels', _) => Some levels'
             | None => None
             end
         end)
      tasks (Some [])
  with
  | None => None
  | Some levels =>
      let maxLevel :=
        fold_left
          (fun m l => match l with Lvl n => Nat.max m n | NegInfinity => m end)
          (OMap.values levels) 0%nat in
      Some (S maxLevel)
  end.

Definition round2 (x : Q) : Q := inject_Z (JS.round (x * 100)) / 100.

(** [score]; [None] when [calculateWaves] throws. *)
Definition score (decomposition : Decomposition.t) : option Complexity.t :=
  let tasks := Decomposition.tasks decomposition in
  let subtaskCount := List.length tasks in
  let totalDeps :=
    fold_left (fun sum t => (sum + List.length (Task.dependsOn t))%nat) tasks 0%nat in
  let dependencyWeight :=
    1 + inject_Z (Z.of_nat totalDeps)
        / inject_Z (Z.of_nat (Nat.max subtaskCount 1)) in
  let riskFactor := calculateRiskFactor tasks in
  let score :=
    inject_Z
      (JS.round (inject_Z (Z.of_nat subtaskCount) * dependencyWeight * riskFactor * 10))
    / 10 in
  let level :=
    if Qle_bool score 3 then simple
    else if Qle_bool score 7 then medium
    else complex in
  let '(lo, hi) := agentRange level in
  let normalizedScore := JS.min (score / 10) 1 in
  let agentCount :=
    JS.round (inject_Z lo + normalizedScore * (inject_Z hi - inject_Z lo)) in
  match calculateWaves tasks with
  | None => None
  | Some waves =>
      Some (Complexity.mk score level agentCount waves
              (Details.mk subtaskCount (round2 dependencyWeight) (round2 riskFactor)))
  end.
End ComplexityScorer.

(** ** Stage 5: agent spawner *)

Inductive Strategy := direct_execution | parallel_pool | dag_staged_waves.

Module Allocation.
Record t := mk {
  agents : list Agent.t;
  assignments : gmap string (list string);
  strategy : Strategy
}.
End Allocation.

Module AgentSpawner.
Definition selectAgents (pool : list Agent.t) (complexity : Complexity.t)
    (tasks : list Task.t) : list Agent.t :=
  let count :=
    Z.min (Complexity.agentCount complexity) (Z.of_nat (List.length pool)) in
  match Complexity.level complexity with
  | simple => JS.slice0 (Z.max 1 count) pool
  | medium => JS.slice0 count pool
  | complex => JS.slice0 (Z.min (Z.of_nat (List.length pool)) 10) pool
  end.

Definition assignToTask (task : Task.t) (selectedAgents : list Agent.t)
    (complexity : Complexity.t) : list Agent.t :=
  let matching :=
    List.filter (fun a => String.eqb (Agent.cluster a) (Task.cluster task))
      selectedAgents in
  match matching with
  | _ :: _ => matching
  | [] => JS.slice0 1 selectedAgents
  end.

Definition getStrategy (level : Level) : Strategy :=
  match level with
  | simple => direct_execution
  | medium => parallel_pool
  | complex => dag_staged_waves
  end.

(** The filter that removes the agents already [seen]. *)
Fixpoint dedupe (seen : gset string) (pool : list Agent.t) : list Agent.t :=
  match pool with
  | [] => []
  | a :: pool' =>
      if bool_decide (Agent.id a ∈ seen) then dedupe seen pool'
      else a :: dedupe (seen ∪ {[Agent.id a]}) pool'
  end.

Definition primaryAgents (registry : AgentRegistry.t) (complexity : Complexity.t)
    (intent : Intent.t) : list Agent.t :=
  AgentRegistry.findAgents
    (Criteria.mk (Some (Intent.cluster intent)) None
                 (Some (Complexity.level complexity)))
    registry.

(** The agents found for the secondary intents: the registry is asked for
    the cluster named [sec.type]. *)
Definition secondaryAgents (registry : AgentRegistry.t) (complexity : Complexity.t)
    (intent : Intent.t) : list Agent.t :=
  flat_map
    (fun sec =>
       AgentRegistry.findAgents
         (Criteria.mk (Some (SecondaryIntent.type sec)) None
                      (Some (Complexity.level complexity)))
         registry)
    (Intent.secondary intent).

Definition allocate (registry : AgentRegistry.t) (decomposition : Decomposition.t)
    (complexity : Complexity.t) (intent : Intent.t) : Allocation.t :=
  let tasks := Decomposition.tasks decomposition in
  let pool :=
    primaryAgents registry complexity intent
    ++ secondaryAgents registry complexity intent in
  let uniquePool := dedupe ∅ pool in
  let selected := selectAgents uniquePool complexity tasks in
  let assignments :=
    fold_left
      (fun (m : gmap string (list string)) task =>
         <[Task.id task := map Agent.id (assignToTask task selected complexity)]> m)
      tasks ∅ in
  Allocation.mk selected assignments (getStrategy (Complexity.level complexity)).
End AgentSpawner.

(** ** Stage 6: DAG scheduler

    The node objects are shared between the node map and the waves: a wave
    is a list of references (keys) into the node map, and every status
    update goes to the map. *)

Module DAG.
Record t := mk {
  nodes : omap Node.t;
  waves : list (list string)
}.
End DAG.

Module DAGScheduler.
Definition update (k : string) (f : Node.t -> Node.t) (nodes : omap Node.t)
  : omap Node.t :=
  match OMap.get k nodes with
  | Some n => OMap.set k (f n) nodes
  | None => nodes
  end.

Definition depsResolved (completed : gset string) (node : Node.t) : bool :=
  forallb (fun depId => bool_decide (depId ∈ completed))
          (elements (Node.dependsOn node)).

(** One pass of the [for] loop of [computeWaves] over the node map. *)
Definition frontier (nodes : omap Node.t) (completed : gset string) : list string :=
  map fst
    (List.filter
       (fun '(id, node) =>
          negb (bool_decide (id ∈ completed))
          && Status_eqb (Node.status node) pending
          && depsResolved completed node)
       nodes).

(** Marking the nodes of a wave: [completed.add(node.task.id)] and
    [node.status = 'scheduled']. *)
Definition markWave (wave : list string) (st : omap Node.t * gset string)
  : omap Node.t * gset string :=
  fold_left
    (fun '(nodes, done) ref =>
       match OMap.get ref nodes with
       | Some node =>
           (OMap.set ref (Node.with_status scheduled node) nodes,
            done ∪ {[Task.id (Node.task node)]})
       | None => (nodes, done)
       end)
    wave st.

(** The [while] loop of [computeWaves]; [None] when [fuel] runs out. *)
Fixpoint computeWaves_loop (fuel : nat) (nodes : omap Node.t)
    (completed : gset string) (waves : list (list string))
  : option (omap Node.t * list (list string)) :=
  match fuel with
  | O => None
  | S fuel' =>
      if (size completed <? OMap.size nodes)%nat then
        match frontier nodes completed with
        | [] => Some (nodes, waves)
        | wave =>
            let '(nodes', completed') := markWave wave (nodes, completed) in
            computeWaves_loop fuel' nodes' completed' (waves ++ [wave])
        end
      else Some (nodes, waves)
  end.

Definition computeWaves (nodes : omap Node.t)
  : option (omap Node.t * list (list string)) :=
  computeWaves_loop (S (OMap.size nodes)) nodes ∅ [].

Definition makeNodes (tasks : list Task.t) : omap Node.t :=
  fold_left
    (fun nodes task =>
       OMap.set (Task.id task)
         (Node.mk task (list_to_set (Task.dependsOn task)) ∅ pending None)
         nodes)
    tasks [].

Definition linkDependents (tasks : list Task.t) (nodes : omap Node.t)
  : omap Node.t :=
  fold_left
    (fun nodes task =>
       fold_left
         (fun nodes depId => update depId (Node.add_dependent (Task.id task)) nodes)
         (Task.dependsOn task) nodes)
    tasks nodes.

Definition buildDAG (decomposition : Decomposition.t) : option DAG.t :=
  let tasks := Decomposition.tasks decomposition in
  let nodes := linkDependents tasks (makeNodes tasks) in
  match computeWaves nodes with
  | Some (nodes', waves) => Some (DAG.mk nodes' waves)
  | None => None
  end.

Definition skipDependents (nodes : omap Node.t) (failedIds : list string)
  : omap Node.t :=
  fold_left
    (fun nodes failedId =>
       match OMap.get failedId nodes with
       | None => nodes
       | Some failedNode =>
           fold_left
             (fun nodes depId =>
                match OMap.get depId nodes with
                | Some depNode =>
                    if Status_eqb (Node.status depNode) pending
                    then OMap.set depId (Node.with_status skipped depNode) nodes
                    else nodes
                | None => nodes
                end)
             (elements (Node.dependents failedNode)) nodes
       end)
    failedIds nodes.

(** The state of an execution: the node map and the jobs handed to the
    worker pool so far, in the order of the calls of [pool.execute]. *)
Record Exec := mkExec {
  store : omap Node.t;
  dispatched : list Job.t
}.

(** The asynchronous callback run for one node of wave [i].  The callbacks
    of a wave are started in wave order and each one writes to its own
    node only, so the settled state of the wave is the one reached by
    running them one after the other. *)
Definition runNode (assignments : gmap string (list string))
    (pool : Job.t -> WorkerOutcome) (i : nat) (ref : string) (st : Exec)
  : Exec * option TaskResult.t :=
  match OMap.get ref (store st) with
  | None => (st, None)
  | Some node =>
      let task := Node.task node in
      let assignedAgentIds := default [] (assignments !! Task.id task) in
      let job := Job.mk task assignedAgentIds in
      let store1 := OMap.set ref (Node.with_status running node) (store st) in
      match pool job with
      | Resolved output elapsed =>
          (mkExec
             (update ref
                (fun n => Node.with_result (Some (NodeOutput output))
                            (Node.with_status completed n))
                store1)
             (dispatched st ++ [job]),
           Some (TaskResult.mk (Task.id task) (Task.description task) completed
                   (Some (if JS.truthy output then output else "Task completed"))
                   None elapsed (List.head assignedAgentIds) i))
      | Rejected message =>
          (mkExec
             (update ref
                (fun n => Node.with_result (Some (NodeError message))
                            (Node.with_status failed n))
                store1)
             (dispatched st ++ [job]),
           Some (TaskResult.mk (Task.id task) (Task.description task) failed
                   None (Some message) 0 (List.head assignedAgentIds) i))
      end
  end.

Definition runWave (assignments : gmap string (list string))
    (pool : Job.t -> WorkerOutcome) (i : nat) (wave : list string) (st : Exec)
  : Exec * list TaskResult.t :=
  fold_left
    (fun '(st, results) ref =>
       match runNode assignments pool i ref st with
       | (st', Some r) => (st', results ++ [r])
       | (st', None) => (st', results)
       end)
    wave (st, []).

(** The [for] loop of [execute] from wave [i] on; [total] is
    [waves.length]. *)
Fixpoint runWaves (assignments : gmap string (list string))
    (pool : Job.t -> WorkerOutcome) (total i : nat) (waves : list (list string))
    (st : Exec) (allResults : list TaskResult.t) : Exec * list TaskResult.t :=
  match waves with
  | [] => (st, allResults)
  | wave :: waves' =>
      let '(st1, waveResults) := runWave assignments pool i wave st in
      let allResults := allResults ++ waveResults in
      let failures :=
        List.filter (fun r => Status_eqb (TaskResult.status r) failed) waveResults in
      let st2 :=
        match failures with
        | _ :: _ =>
            if (i <? total - 1)%nat
            then mkExec (skipDependents (store st1) (map TaskResult.taskId failures))
                        (dispatched st1)
            else st1
        | [] => st1
        end in
      runWaves assignments pool total (S i) waves' st2 allResults
  end.

Definition execute (dag : DAG.t) (allocation : Allocation.t)
    (pool : Job.t -> WorkerOutcome) : Exec * ExecutionResult.t :=
  let waves := DAG.waves dag in
  let '(st, allResults) :=
    runWaves (Allocation.assignments allocation) pool (List.length waves) 0 waves
      (mkExec (DAG.nodes dag) []) [] in
  (st, ExecutionResult.mk allResults (List.length waves) (List.length allResults)).
End DAGScheduler.

Module WorkerMetadata.
Record t := mk {
  agentId : option string;
  taskId : string;
  processingTime : Z;
  mode : string
}.
End WorkerMetadata.

Module WorkerResult.
Record t := mk { output : string; metadata : WorkerMetadata.t }.
End WorkerResult.

(** ** Worker pool

    [execute] is an asynchronous function: between two [await]s its code
    runs without interruption.  The pool is modelled by the three pieces of
    code that a call runs, each one an atomic step on the state of the pool:
    the part up to the first [await] ([Submit]), the continuation behind
    [await this.waitForSlot()] ([Resume]) and the continuation behind
    [await this.runWorker(job)] ([Settle]).  The order in which the event
    loop runs the steps of different calls is an input. *)

Module PoolStats.
Record t := mk { totalExecuted : nat; totalFailed : nat }.
End PoolStats.

Module WorkerPool.
Record t := mk {
  maxWorkers : nat;
  activeWorkers : nat;
(** the resolvers pushed by [waitForSlot], oldest first, each named by
    the job whose call is suspended on it *)
queue : list nat;
stats : PoolStats.t;
(** calls whose [waitForSlot] promise is resolved and whose continuation
    has not run yet, in the order of their resolution *)
woken : list nat;
(** calls suspended on [runWorker] *)
inFlight : list nat
}.

(** [new WorkerPool(maxWorkers)]; the default of [maxWorkers] is 8. *)
Definition new (maxWorkers : option nat) : t :=
  mk (default 8 maxWorkers) 0 [] (PoolStats.mk 0 0) [] [].

Inductive Event :=
| Submit (job : nat)
| Resume (job : nat)
| Settle (job : nat) (ok : bool).

(** [this.activeWorkers++] followed by the call of [runWorker]. *)
Definition start (job : nat) (p : t) : t :=
  mk (maxWorkers p) (S (activeWorkers p)) (queue p) (stats p) (woken p)
     (inFlight p ++ [job]).

Definition processQueue (p : t) : t :=
  match queue p with
  | next :: rest =>
      if (activeWorkers p <? maxWorkers p)%nat
      then mk (maxWorkers p) (activeWorkers p) rest (stats p)
              (woken p ++ [next]) (inFlight p)
      else p
  | [] => p
  end.

(** The first occurrence of [job] taken out of [l]. *)
Fixpoint remove (job : nat) (l : list nat) : list nat :=
  match l with
  | [] => []
  | j :: l' => if Nat.eqb j job then l' else j :: remove job l'
  end.

Definition mem (job : nat) (l : list nat) : bool := existsb (Nat.eqb job) l.

(** One step; [None] when the step cannot run in the state.  The
    continuations of the woken calls are jobs of the microtask queue, which
    runs them in the order of their resolution: only the oldest woken call
    can resume. *)
Definition step (e : Event) (p : t) : option t :=
  match e with
  | Submit job =>
      if (maxWorkers p <=? activeWorkers p)%nat
      then Some (mk (maxWorkers p) (activeWorkers p) (queue p ++ [job]) (stats p)
                    (woken p) (inFlight p))
      else Some (start job p)
  | Resume job =>
      match woken p with
      | next :: rest =>
          if Nat.eqb next job
          then Some (start job
                       (mk (maxWorkers p) (activeWorkers p) (queue p) (stats p)
                           rest (inFlight p)))
          else None
      | [] => None
      end
  | Settle job ok =>
      if mem job (inFlight p)
      then
        let stats' :=
          if ok
          then PoolStats.mk (S (PoolStats.totalExecuted (stats p)))
                            (PoolStats.totalFailed (stats p))
          else PoolStats.mk (PoolStats.totalExecuted (stats p))
                            (S (PoolStats.totalFailed (stats p))) in
        Some (processQueue
                (mk (maxWorkers p) (Nat.pred (activeWorkers p)) (queue p) stats'
                    (woken p) (remove job (inFlight p))))
      else None
  end.

(** A schedule run from a state, with every state it goes through. *)
Fixpoint run (es : list Event) (p : t) : option (list t) :=
  match es with
  | [] => Some [p]
  | e :: es' =>
      match step e p with
      | Some p' =>
          match run es' p' with
          | Some ps => Some (p :: ps)
          | None => None
          end
      | None => None
      end
  end.

(** The rule of the event loop for the callers: a call of [execute] starts
    in a task or in a microtask queued behind the continuations of the
    woken calls, so no [Submit] runs while a woken call waits to resume. *)
Fixpoint microtasks_first (es : list Event) (p : t) : bool :=
  match es with
  | [] => true
  | e :: es' =>
      match e, woken p with
      | Submit _, _ :: _ => false
      | _, _ =>
          match step e p with
          | Some p' => microtasks_first es' p'
          | None => true
          end
      end
  end.

(** The jobs whose call was suspended, in the order of their submission,
    and the jobs whose call was resumed, in the order of the resumptions. *)
Fixpoint suspended (es : list Event) (p : t) : list nat :=
  match es with
  | [] => []
  | e :: es' =>
      match step e p with
      | Some p' =>
          match e with
          | Submit job =>
              if (maxWorkers p <=? activeWorkers p)%nat
              then job :: suspended es' p' else suspended es' p'
          | _ => suspended es' p'
          end
      | None => []
      end
  end.

Definition resumed (es : list Event) : list nat :=
  flat_map (fun e => match e with Resume job => [job] | _ => [] end) es.

(** [runWorker], the simulated worker: [random] is the number drawn by
    [Math.random()]. *)
Definition quote : string := String (ascii_of_nat 34) EmptyString.

Definition runWorker (random : Q) (job : Job.t) : WorkerResult.t :=
  let task := Job.task job in
  let agentIds := Job.agentIds job in
  let processingTime := (50 + random * 200)%Q in
  WorkerResult.mk
    ("[" ++ (match agentIds with
             | a :: _ => if JS.truthy a then a else "default"
             | [] => "default"
             end)
         ++ "] Processed: " ++ quote ++ Task.description task ++ quote)
    (WorkerMetadata.mk (List.head agentIds) (Task.id task)
       (JS.round processingTime) "simulation").
End WorkerPool.

(** ** Memory system *)

Module PerformanceRecord.
Record t := mk {
  agentId : option string;
  taskId : string;
  duration : nat;
  success : bool;
  complexity : Level;
  cluster : option string;
  timestamp : nat
}.
End PerformanceRecord.

(** The text of an optimisation message is kept as its parameters. *)
Inductive Optimization :=
| HighQuality (quality : Q) (intentType : string) (level : Level)
| FastExecution (intentType : string).

Module Pattern.
Record t := mk {
  pattern : string;
  optimization : Optimization;
  quality : option Q;
  avgDuration : option Z;
  discoveredAt : nat;
  lastApplied : option nat;
  appliedCount : nat
}.
End Pattern.

(** The serialised summary of a request is kept as a record. *)
Module Solution.
Record t := mk {
  intent : string;
  complexity : Level;
  agents : list string;
  duration : nat;
  quality : Q
}.
End Solution.

Module TaskSolution.
Record t := mk {
  taskDescription : string;
  solution : Solution.t;
  storedAt : nat
}.
End TaskSolution.

Module ClusterPerformance.
Record t := mk { cluster : option string; avgDuration : Z; successRate : Q }.
End ClusterPerformance.

Inductive Trend := improving | degrading | stable.

Module AgentPerformance.
Record t := mk {
  agentId : string;
  totalExecutions : nat;
  avgDuration : Z;
  successRate : Q;
  recentTrend : Trend
}.
End AgentPerformance.

Module MemorySystem.
Record t := mk {
  performanceMemory : list PerformanceRecord.t;
  skillEvolution : list Pattern.t;
  vectorMemory : list TaskSolution.t
}.

Definition new : t := mk [] [] [].

(** [{...entry, timestamp: Date.now()}] *)
Definition stamp (now : nat) (entry : PerformanceRecord.t) : PerformanceRecord.t :=
  PerformanceRecord.mk (PerformanceRecord.agentId entry)
    (PerformanceRecord.taskId entry) (PerformanceRecord.duration entry)
    (PerformanceRecord.success entry) (PerformanceRecord.complexity entry)
    (PerformanceRecord.cluster entry) now.

(** The entry arrives without its [timestamp]; [now] is [Date.now()]. *)
Definition recordPerformance (now : nat) (entry : PerformanceRecord.t) (m : t) : t :=
  let log := performanceMemory m ++ [stamp now entry] in
  let log :=
    if (1000 <? List.length log)%nat then JS.slice_last 500 log else log in
  mk log (skillEvolution m) (vectorMemory m).

Definition option_string_eqb (a b : option string) : bool :=
  match a, b with
  | Some x, Some y => String.eqb x y
  | None, None => true
  | _, _ => false
  end.

Local Open Scope Q_scope.

Definition getClusterPerformance (cluster : option string) (m : t)
  : option ClusterPerformance.t :=
  let entries :=
    List.filter
      (fun e => option_string_eqb (PerformanceRecord.cluster e) cluster)
      (performanceMemory m) in
  match entries with
  | [] => None
  | _ =>
      let n := inject_Z (Z.of_nat (List.length entries)) in
      let total :=
        fold_left (fun sum e => (sum + PerformanceRecord.duration e)%nat) entries 0%nat in
      let successes :=
        List.length (List.filter PerformanceRecord.success entries) in
      Some (ClusterPerformance.mk cluster
              (JS.round (inject_Z (Z.of_nat total) / n))
              (inject_Z (JS.round (inject_Z (Z.of_nat successes) / n * 100)) / 100))
  end.

Fixpoint bump (now : nat) (key : string) (l : list Pattern.t) : option (list Pattern.t) :=
  match l with
  | [] => None
  | p :: l' =>
      if String.eqb (Pattern.pattern p) key
      then Some (Pattern.mk (Pattern.pattern p) (Pattern.optimization p)
                   (Pattern.quality p) (Pattern.avgDuration p)
                   (Pattern.discoveredAt p) (Some now) (S (Pattern.appliedCount p))
                 :: l')
      else match bump now key l' with
           | Some l'' => Some (p :: l'')
           | None => None
           end
  end.

(** The pattern arrives without [discoveredAt] and [appliedCount]. *)
Definition recordPattern (now : nat) (key : string) (optimization : Optimization)
    (quality : option Q) (avgDuration : option Z) (m : t) : t :=
  match bump now key (skillEvolution m) with
  | Some l => mk (performanceMemory m) l (vectorMemory m)
  | None =>
      mk (performanceMemory m)
         (skillEvolution m
          ++ [Pattern.mk key optimization quality avgDuration now None 1])
         (vectorMemory m)
  end.

Definition storeTaskSolution (now : nat) (taskDescription : string)
    (solution : Solution.t) (m : t) : t :=
  mk (performanceMemory m) (skillEvolution m)
     (vectorMemory m ++ [TaskSolution.mk taskDescription solution now]).

(** [entries.reduce((s, e) => s + e.duration, 0) / entries.length] *)
Definition averageDuration (entries : list PerformanceRecord.t) : Q :=
  inject_Z
    (Z.of_nat
       (fold_left (fun sum e => (sum + PerformanceRecord.duration e)%nat) entries 0%nat))
  / inject_Z (Z.of_nat (List.length entries)).

Definition calculateTrend (recentEntries : list PerformanceRecord.t) : Trend :=
  if (List.length recentEntries <? 3)%nat then stable
  else
    let half := (List.length recentEntries / 2)%nat in
    let firstHalf := firstn half recentEntries in
    let secondHalf := skipn half recentEntries in
    let firstAvg := averageDuration firstHalf in
    let secondAvg := averageDuration secondHalf in
    if JS.lt secondAvg (firstAvg * 0.8) then improving
    else if JS.lt (firstAvg * 1.2) secondAvg then degrading
    else stable.

Definition getAgentPerformance (agentId : string) (m : t)
  : option AgentPerformance.t :=
  let entries :=
    List.filter
      (fun e => option_string_eqb (PerformanceRecord.agentId e) (Some agentId))
      (performanceMemory m) in
  match entries with
  | [] => None
  | _ =>
      let n := inject_Z (Z.of_nat (List.length entries)) in
      let successes :=
        List.length (List.filter PerformanceRecord.success entries) in
      Some (AgentPerformance.mk agentId (List.length entries)
              (JS.round (averageDuration entries))
              (inject_Z (JS.round (inject_Z (Z.of_nat successes) / n * 100)) / 100)
              (calculateTrend (JS.slice_last 10 entries)))
  end.

(** A sorted copy of the ledger; the ledger itself is left as it is. *)
Definition getLearnedPatterns (m : t) : list Pattern.t :=
  JS.sort_desc (fun p => inject_Z (Z.of_nat (Pattern.appliedCount p)))
    (skillEvolution m).

Definition findSimilarTasks (taskDescription : string) (m : t)
  : list TaskSolution.t :=
  let keywords := JS.split_ws (JS.toLowerCase taskDescription) in
  JS.slice0 5
    (List.filter
       (fun entry =>
          let entryWords :=
            JS.split_ws (JS.toLowerCase (TaskSolution.taskDescription entry)) in
          let overlap :=
            List.length (List.filter (fun kw => JS.mem kw entryWords) keywords) in
          (2 <=? overlap)%nat)
       (vectorMemory m)).
End MemorySystem.

(** The first layer of the memory system, the session memory: a [Map] from
    keys to [{value, updatedAt}].  The three functions below touch nothing
    else of the memory system. *)
Module SessionMemory.
Section SessionMemory.
Context {V : Type}.

Definition t := omap (V * nat).

Definition setSession (now : nat) (key : string) (value : V) (m : t) : t :=
  OMap.set key (value, now) m.

Definition getSession (key : string) (m : t) : option V :=
  match OMap.get key m with
  | Some entry => Some entry.1
  | None => None
  end.

Definition clearSession (m : t) : t := [].
End SessionMemory.
End SessionMemory.

(** ** Stage 7: result evaluator *)

Module ErrorInfo.
Record t := mk { taskId : string; error : string; recoverable : bool }.
End ErrorInfo.

Module Evaluation.
Record t := mk {
  completed : nat;
  failed : nat;
  skipped : nat;
  total : nat;
  successRate : Q;
  totalDuration : nat;
  avgDuration : Z;
  errors : list ErrorInfo.t;
  quality : Q
}.
End Evaluation.

Module ResultEvaluator.
Local Open Scope Q_scope.

Definition calculateQuality (successRate avgDuration : Q) (errorCount : nat) : Q :=
  let successWeight := 0.6 in
  let speedWeight := 0.2 in
  let errorWeight := 0.2 in
  let speedScore := JS.max 0 (1 - avgDuration / 10000) in
  let errorScore := JS.max 0 (1 - inject_Z (Z.of_nat errorCount) / 5) in
  inject_Z
    (JS.round
       ((successRate * successWeight + speedScore * speedWeight
         + errorScore * errorWeight) * 100))
  / 100.

Definition count (s : Status) (results : list TaskResult.t) : nat :=
  List.length (List.filter (fun r => Status_eqb (TaskResult.status r) s) results).

Definition evaluate (executionResult : ExecutionResult.t)
    (decomposition : Decomposition.t) : Evaluation.t :=
  let results := ExecutionResult.results executionResult in
  let completed := count completed results in
  let failed := count failed results in
  let skipped := count skipped results in
  let n := List.length results in
  let totalDuration :=
    fold_left (fun sum r => (sum + TaskResult.duration r)%nat) results 0%nat in
  let avgDuration :=
    if (0 <? n)%nat
    then inject_Z (Z.of_nat totalDuration) / inject_Z (Z.of_nat n) else 0 in
  let successRate :=
    if (0 <? n)%nat
    then inject_Z (Z.of_nat completed) / inject_Z (Z.of_nat n) else 0 in
  let errors :=
    flat_map
      (fun r =>
         match TaskResult.error r with
         | Some e =>
             if JS.truthy e
             then [ErrorInfo.mk (TaskResult.taskId r) e (negb (JS.includes e "fatal"))]
             else []
         | None => []
         end)
      results in
  Evaluation.mk completed failed skipped n
    (inject_Z (JS.round (successRate * 100)) / 100)
    totalDuration (JS.round avgDuration) errors
    (calculateQuality successRate avgDuration (List.length errors)).
End ResultEvaluator.

(** ** Stage 8: result aggregator *)

Module Detail.
Record t := mk {
  taskId : string;
  description : string;
  status : Status;
  output : option string;
  duration : nat;
  agentId : option string
}.
End Detail.

(** The summary text is kept as the parts it is joined from. *)
Module Summary.
Record t := mk {
  completedOf : option (nat * nat);
  failedCount : option nat;
  totalMs : option nat;
  qualityPercent : Z;
  outputs : list (string * string)
}.
End Summary.

Module ResultAggregator.
Local Open Scope Q_scope.

Definition generateSummary (evaluation : Evaluation.t) (details : list Detail.t)
  : Summary.t :=
  Summary.mk
    (if (0 <? Evaluation.completed evaluation)%nat
     then Some (Evaluation.completed evaluation, Evaluation.total evaluation)
     else None)
    (if (0 <? Evaluation.failed evaluation)%nat
     then Some (Evaluation.failed evaluation) else None)
    (if (0 <? Evaluation.totalDuration evaluation)%nat
     then Some (Evaluation.totalDuration evaluation) else None)
    (JS.round (Evaluation.quality evaluation * 100))
    (flat_map
       (fun d =>
          match Detail.output d with
          | Some o =>
              if JS.truthy o && Status_eqb (Detail.status d) completed
              then [(Detail.description d, o)] else []
          | None => []
          end)
       details).

Definition aggregate (executionResult : ExecutionResult.t)
    (evaluation : Evaluation.t) : Summary.t * list Detail.t :=
  let details :=
    map (fun r =>
           Detail.mk (TaskResult.taskId r) (TaskResult.description r)
             (TaskResult.status r) (TaskResult.output r)
             (TaskResult.duration r) (TaskResult.agentId r))
        (ExecutionResult.results executionResult) in
  (generateSummary evaluation details, details).
End ResultAggregator.

(** ** Stage 9: learning system *)

Inductive Reason :=
| FasterThanClusterAvg (duration : nat) (clusterAvg : Z)
| TaskFailed (error : string).

Module ConfidenceUpdate.
Record t := mk { agentId : string; delta : Q; reason : Reason }.
End ConfidenceUpdate.

Module LearningSystem.
Local Open Scope Q_scope.

Definition confidenceBoost : Q := 0.02.
Definition confidencePenalty : Q := 0.05.
Definition minConfidence : Q := 0.1.
Definition maxConfidence : Q := 1.0.

Definition clusterOf (allocation : Allocation.t) (agentId : option string)
  : option string :=
  match agentId with
  | Some id =>
      match List.find (fun a => String.eqb (Agent.id a) id) (Allocation.agents allocation) with
      | Some a => Some (Agent.cluster a)
      | None => None
      end
  | None => None
  end.

Definition recordPerformanceMetrics (now : nat) (allocation : Allocation.t)
    (execution : ExecutionResult.t) (complexity : Complexity.t)
    (memory : MemorySystem.t) : MemorySystem.t :=
  fold_left
    (fun memory result =>
       MemorySystem.recordPerformance now
         (PerformanceRecord.mk (TaskResult.agentId result) (TaskResult.taskId result)
            (TaskResult.duration result)
            (Status_eqb (TaskResult.status result) completed)
            (Complexity.level complexity)
            (clusterOf allocation (TaskResult.agentId result)) 0)
         memory)
    (ExecutionResult.results execution) memory.

Definition levelName (l : Level) : string :=
  match l with simple => "simple" | medium => "medium" | complex => "complex" end.

Definition analyzePatterns (now : nat) (intent : Intent.t) (complexity : Complexity.t)
    (evaluation : Evaluation.t) (memory : MemorySystem.t) : MemorySystem.t :=
  let patternKey :=
    (Intent.type intent ++ ":" ++ levelName (Complexity.level complexity))%string in
  let memory :=
    if JS.lt 0.8 (Evaluation.quality evaluation)
    then MemorySystem.recordPattern now patternKey
           (HighQuality (Evaluation.quality evaluation) (Intent.type intent)
                        (Complexity.level complexity))
           (Some (Evaluation.quality evaluation)) None memory
    else memory in
  if (0 <? Evaluation.avgDuration evaluation)%Z
     && (Evaluation.avgDuration evaluation <? 100)%Z
  then MemorySystem.recordPattern now
         ("fast_execution:" ++ Intent.type intent)%string
         (FastExecution (Intent.type intent))
         None (Some (Evaluation.avgDuration evaluation)) memory
  else memory.

Definition generateConfidenceUpdates (memory : MemorySystem.t)
    (allocation : Allocation.t) (execution : ExecutionResult.t)
    (complexity : Complexity.t) : list ConfidenceUpdate.t :=
  flat_map
    (fun result =>
       match TaskResult.agentId result with
       | None => []
       | Some agentId =>
           if negb (JS.truthy agentId) then []
           else
             let clusterPerf :=
               MemorySystem.getClusterPerformance
                 (clusterOf allocation (Some agentId)) memory in
             match TaskResult.status result with
             | completed =>
                 let duration := Z.of_nat (TaskResult.duration result) in
                 let clusterAvg :=
                   match clusterPerf with
                   | Some cp =>
                       if (ClusterPerformance.avgDuration cp =? 0)%Z
                       then duration else ClusterPerformance.avgDuration cp
                   | None => duration
                   end in
                 if (duration <? clusterAvg)%Z
                 then [ConfidenceUpdate.mk agentId confidenceBoost
                         (FasterThanClusterAvg (TaskResult.duration result) clusterAvg)]
                 else []
             | failed =>
                 [ConfidenceUpdate.mk agentId (- confidencePenalty)
                    (TaskFailed
                       (match TaskResult.error result with
                        | Some e => if JS.truthy e then e else "unknown"
                        | None => "unknown"
                        end))]
             | _ => []
             end
       end)
    (ExecutionResult.results execution).

(** [update]: the memory and the queue after the four steps. *)
Definition update (now : nat) (input : string) (intent : Intent.t)
    (complexity : Complexity.t) (allocation : Allocation.t)
    (execution : ExecutionResult.t) (evaluation : Evaluation.t) (duration : nat)
    (st : MemorySystem.t * list ConfidenceUpdate.t)
  : MemorySystem.t * list ConfidenceUpdate.t :=
  let '(memory, updateQueue) := st in
  let memory := recordPerformanceMetrics now allocation execution complexity memory in
  let memory := analyzePatterns now intent complexity evaluation memory in
  let updates := generateConfidenceUpdates memory allocation execution complexity in
  let updateQueue := updateQueue ++ updates in
  let memory :=
    if JS.lt 0.8 (Evaluation.successRate evaluation)
    then MemorySystem.storeTaskSolution now input
           (Solution.mk (Intent.type intent) (Complexity.level complexity)
              (map Agent.id (Allocation.agents allocation)) duration
              (Evaluation.quality evaluation))
           memory
    else memory in
  (memory, updateQueue).

Definition setConfidence (c : Q) (a : Agent.t) : Agent.t :=
  Agent.mk (Agent.id a) (Agent.role a) (Agent.cluster a) (Agent.skills a)
    (Agent.complexitySupported a) c (Agent.avgExecutionTime a)
    (Agent.totalExecutions a) (Agent.failureRate a) (Agent.createdAt a).

Definition applyUpdate (registry : AgentRegistry.t) (u : ConfidenceUpdate.t)
  : AgentRegistry.t :=
  match AgentRegistry.getAgent (ConfidenceUpdate.agentId u) registry with
  | None => registry
  | Some agent =>
      let newConfidence :=
        JS.max minConfidence
          (JS.min maxConfidence (Agent.confidenceScore agent + ConfidenceUpdate.delta u)) in
      AgentRegistry.mk
        (OMap.set (ConfidenceUpdate.agentId u)
           (setConfidence (inject_Z (JS.round (newConfidence * 1000)) / 1000) agent)
           (AgentRegistry.agents registry))
        (AgentRegistry.clusters registry)
  end.

(** [applyUpdates]: the registry after the queued updates, the emptied
    queue and the number of updates consumed. *)
Definition applyUpdates (registry : AgentRegistry.t)
    (updateQueue : list ConfidenceUpdate.t)
  : AgentRegistry.t * list ConfidenceUpdate.t * nat :=
  (fold_left applyUpdate updateQueue registry, [], List.length updateQueue).
End LearningSystem.

(** ** The orchestrator *)

Module Pipeline.
Record t := mk {
  intent : option Intent.t;
  decomposition : option Decomposition.t;
  complexity : option Complexity.t;
  agents : option Allocation.t;
  execution : option ExecutionResult.t;
  evaluation : option Evaluation.t
}.
End Pipeline.

Module RunMetrics.
Record t := mk {
  duration : nat;
  agentsUsed : nat;
  tasksCompleted : nat;
  tasksFailed : nat;
  complexityLevel : Level
}.
End RunMetrics.

(** The two forms returned by [execute]: [{output, pipeline, metrics}] and
    [{error, pipeline, metrics: {duration}}]. *)
Inductive Outcome :=
| Success (output : Summary.t) (pipeline : Pipeline.t) (metrics : RunMetrics.t)
| Failure (error : string) (pipeline : Pipeline.t) (duration : nat).

(** What a run of [execute] takes from outside: the identifiers drawn,
    the behaviour of the worker pool on each job, the clock reading used for
    the time stamps and the time the run takes. *)
Module Env.
Record t := mk {
  uuid : nat -> string;
  pool : Job.t -> WorkerOutcome;
  now : nat;
  elapsed : nat
}.
End Env.

Module Orchestrator.
Record t := mk {
  registry : AgentRegistry.t;
  memory : MemorySystem.t;
  updateQueue : list ConfidenceUpdate.t
}.

Definition new (now : nat) : t :=
  mk (AgentRegistry.new now) MemorySystem.new [].

Definition parseInput (input : string) : Parsed.t :=
  Parsed.mk input (JS.split_ws input) (String.length input)
            (List.length (JS.split_ws input)).

(** The message of the [RangeError] thrown by an unbounded recursion. *)
Definition stackOverflow : string := "Maximum call stack size exceeded".

Definition execute (env : Env.t) (input : string) (o : t) : Outcome * t :=
  (* Stage 1 *)
  let parsed := parseInput input in
  (* Stage 2 *)
  let intent := IntentClassifier.classify parsed in
  (* Stage 3 *)
  let tasks := TaskDecomposer.decompose (Env.uuid env) parsed intent in
  (* Stage 4 *)
  match ComplexityScorer.score tasks with
  | None =>
      (Failure stackOverflow
         (Pipeline.mk (Some intent) (Some tasks) None None None None)
         (Env.elapsed env), o)
  | Some complexity =>
      (* Stage 5 *)
      let allocation := AgentSpawner.allocate (registry o) tasks complexity intent in
      (* Stage 6 *)
      match DAGScheduler.buildDAG tasks with
      | None =>
          (Failure stackOverflow
             (Pipeline.mk (Some intent) (Some tasks) (Some complexity)
                (Some allocation) None None)
             (Env.elapsed env), o)
      | Some dag =>
          let '(_, executionResult) :=
            DAGScheduler.execute dag allocation (Env.pool env) in
          (* Stage 7 *)
          let evaluation := ResultEvaluator.evaluate executionResult tasks in
          (* Stage 8 *)
          let '(summary, _) := ResultAggregator.aggregate executionResult evaluation in
          (* Stage 9 *)
          let duration := Env.elapsed env in
          let '(memory', updateQueue') :=
            LearningSystem.update (Env.now env) input intent complexity allocation
              executionResult evaluation duration (memory o, updateQueue o) in
          (* Stage 10 *)
          (Success summary
             (Pipeline.mk (Some intent) (Some tasks) (Some complexity)
                (Some allocation) (Some executionResult) (Some evaluation))
             (RunMetrics.mk duration (List.length (Allocation.agents allocation))
                (Evaluation.completed evaluation) (Evaluation.failed evaluation)
                (Complexity.level complexity)),
           mk (registry o) memory' updateQueue')
      end
  end.
End Orchestrator.

(** ** Interface layer: command parser *)

(** The value of a flag: [true] or the text behind the [=]. *)
Inductive FlagValue := FlagTrue | FlagText (value : string).

Module Command.
Record t := mk {
  type : string;
  input : option string;
  flags : option (gmap string FlagValue)
}.
End Command.

Module CommandParser.
Definition commands : omap string :=
  [("--help", "help"); ("-h", "help"); ("--status", "status"); ("-s", "status");
   ("--interactive", "interactive"); ("-i", "interactive")].

(** [flags[key] = value ?? true] on the object literal [{}]: an assignment
    of a primitive to the key [__proto__] is dropped by the setter of
    [Object.prototype]; every other key becomes a property. *)
Definition extractFlags (argv : list string) : gmap string FlagValue :=
  fold_left
    (fun flags arg =>
       if JS.startsWith "--" arg then
         let '(key, rest) := JS.split_char "="%char (JS.drop 2 arg) in
         let value :=
           match rest with
           | v :: _ => FlagText v
           | [] => FlagTrue
           end in
         if String.eqb key "__proto__" then flags else <[key := value]> flags
       else flags)
    argv ∅.

Definition parse (argv : list string) : Command.t :=
  match argv with
  | [] => Command.mk "interactive" None None
  | first :: rest =>
      match OMap.get first commands with
      | Some type => Command.mk type None None
      | None =>
          if String.eqb first "run" || String.eqb first "exec" then
            Command.mk "task" (Some (JS.join " " rest)) (Some (extractFlags rest))
          else if String.eqb first "status" then Command.mk "status" None None
          else Command.mk "raw" (Some (JS.join " " argv)) (Some (extractFlags argv))
      end
  end.
End CommandParser.

(** ** Interface layer: session context

    The session keeps the task being run and the history of the tasks
    ended.  [Result] is the type of what [endTask] is given and [error] its
    field [error].  The [Map] behind [set] and [get] is left out: [startTask],
    [endTask] and [getStatus] do not touch it. *)

Module SessionContext.
Section SessionContext.
Context {Result : Type} (error : Result -> option string).

Record Entry := mkEntry {
  id : string;
  input : string;
  startedAt : nat;
  status : Status;
  endedAt : option nat;
  result : option Result;
  duration : option Z
}.

Record t := mk {
  sessionId : string;
  sessionStartedAt : nat;
  currentTask : option Entry;
  taskHistory : list Entry
}.

Record SessionStatus := mkStatus {
  statusSessionId : string;
  uptime : Z;
  statusCurrentTask : option Entry;
  tasksCompleted : nat;
  tasksFailed : nat;
  totalTasks : nat
}.

(** [new SessionContext()]: [uuid] is drawn by [randomUUID()]. *)
Definition new (uuid : string) (now : nat) : t := mk uuid now None [].

Definition startTask (uuid : string) (now : nat) (input : string) (s : t)
  : t * Entry :=
  let task := mkEntry uuid input now running None None None in
  (mk (sessionId s) (sessionStartedAt s) (Some task) (taskHistory s), task).

Definition endTask (now : nat) (result : Result) (s : t) : t :=
  match currentTask s with
  | Some task =>
      let failedRun :=
        match error result with
        | Some e => JS.truthy e
        | None => false
        end in
      mk (sessionId s) (sessionStartedAt s) None
         (taskHistory s
          ++ [mkEntry (id task) (input task) (startedAt task)
                (if failedRun then failed else completed)
                (Some now) (Some result)
                (Some (Z.of_nat now - Z.of_nat (startedAt task))%Z)])
  | None => s
  end.

Definition getStatus (now : nat) (s : t) : SessionStatus :=
  mkStatus (sessionId s) (Z.of_nat now - Z.of_nat (sessionStartedAt s))%Z
    (currentTask s)
    (List.length
       (List.filter (fun e => Status_eqb (status e) completed) (taskHistory s)))
    (List.length
       (List.filter (fun e => Status_eqb (status e) failed) (taskHistory s)))
    (List.length (taskHistory s)).
End SessionContext.
End SessionContext.

(** ** Interface layer: permission handler

    The answer typed at the prompt is an input of [requestPermission]; the
    reply tells whether the action is approved and whether the user was
    asked. *)

Inductive Decision := allow | deny | always.

Inductive AuditDecision := approved | denied.

Module ActionDetails.
Record t := mk { target : option string; description : option string }.
End ActionDetails.

Module AuditEntry.
Record t := mk {
  action : string;
  details : ActionDetails.t;
  decision : AuditDecision;
  timestamp : nat
}.
End AuditEntry.

Module Reply.
Record t := mk { granted : bool; asked : bool }.
End Reply.

Module PermissionHandler.
Record t := mk {
  decisions : omap Decision;
  auditLog : list AuditEntry.t
}.

Definition new : t := mk [] [].

Definition sideEffects : gset string :=
  list_to_set
    ["file:write"; "file:delete"; "file:rename"; "file:move"; "process:execute";
     "network:request"; "deploy:trigger"; "config:modify"; "system:install"].

Definition requiresPermission (action : string) : bool :=
  bool_decide (action ∈ sideEffects).

(** [`${action}:${details.target ?? ''}`] *)
Definition cacheKey (action : string) (details : ActionDetails.t) : string :=
  action ++ ":" ++ default "" (ActionDetails.target details).

(** The callback of [rl.question] on the line typed. *)
Definition promptUser (answer : string) (action : string)
    (details : ActionDetails.t) (h : t) : bool * t :=
  let choice := JS.toLowerCase (JS.trim answer) in
  if String.eqb choice "a" || String.eqb choice "always" then
    (true, mk (OMap.set (cacheKey action details) always (decisions h)) (auditLog h))
  else if String.eqb choice "y" || String.eqb choice "yes" || String.eqb choice ""
  then (true, h)
  else (false, h).

Definition requestPermission (now : nat) (answer : string) (action : string)
    (details : ActionDetails.t) (h : t) : Reply.t * t :=
  match OMap.get (cacheKey action details) (decisions h) with
  | Some always => (Reply.mk true false, h)
  | Some deny => (Reply.mk false false, h)
  | _ =>
      if negb (requiresPermission action) then (Reply.mk true false, h)
      else
        let '(ok, h1) := promptUser answer action details h in
        (Reply.mk ok true,
         mk (decisions h1)
            (auditLog h1
             ++ [AuditEntry.mk action details (if ok then approved else denied) now]))
  end.

Definition getAuditLog (h : t) : list AuditEntry.t := auditLog h.
End PermissionHandler.

(** ** Interface layer: the command line

    The renderer only prints; what it prints is left out.  The clock
    readings and the identifiers of a task run are inputs. *)

Definition Outcome_error (result : Outcome) : option string :=
  match result with
  | Failure e _ _ => Some e
  | Success _ _ _ => None
  end.

(** What one task run takes from outside. *)
Module Tick.
Record t := mk {
  env : Env.t;
  taskId : string;
  startedAt : nat;
  endedAt : nat
}.
End Tick.

Module CLI.
Record t := mk {
  session : @SessionContext.t Outcome;
  orchestrator : Orchestrator.t
}.

Definition new (sessionId : string) (now : nat) : t :=
  mk (SessionContext.new sessionId now) (Orchestrator.new now).

(** [executeTask]: the call of the orchestrator returns a result in every
    case, so the [catch] of [executeTask] has nothing to catch. *)
Definition executeTask (tick : Tick.t) (input : string) (cli : t) : t :=
  let session1 :=
    (SessionContext.startTask (Tick.taskId tick) (Tick.startedAt tick) input
       (session cli)).1 in
  let '(result, orchestrator') :=
    Orchestrator.execute (Tick.env tick) input (orchestrator cli) in
  mk (SessionContext.endTask Outcome_error (Tick.endedAt tick) result session1)
     orchestrator'.

(** What [run] does after the banner. *)
Inductive Action :=
| ShowHelp
| ShowStatus
| StartInteractive
| ExecuteTask (input : option string).

Definition run (argv : list string) : Action :=
  let command := CommandParser.parse argv in
  if String.eqb (Command.type command) "help" then ShowHelp
  else if String.eqb (Command.type command) "status" then ShowStatus
  else if String.eqb (Command.type command) "interactive" then StartInteractive
  else if String.eqb (Command.type command) "task" then ExecuteTask (Command.input command)
  else if String.eqb (Command.type command) "raw" then ExecuteTask (Command.input command)
  else ShowHelp.

(** What the interactive mode does with one line typed at the prompt. *)
Inductive LineAction :=
| Goodbye
| LineStatus
| LineClear
| Again
| Execute (input : string).

Definition onLine (input : string) : LineAction :=
  let trimmed := JS.trim input in
  if String.eqb trimmed "exit" || String.eqb trimmed "quit" || String.eqb trimmed ".q"
  then Goodbye
  else if String.eqb trimmed "status" then LineStatus
  else if String.eqb trimmed "clear" then LineClear
  else if (String.length trimmed =? 0)%nat then Again
  else Execute trimmed.

(** The prompt loop on the lines typed, one line per prompt: what is done
    for each line and the state at the end. *)
Fixpoint startInteractiveMode (lines : list (string * Tick.t)) (cli : t)
  : list LineAction * t :=
  match lines with
  | [] => ([], cli)
  | (line, tick) :: lines' =>
      match onLine line with
      | Goodbye => ([Goodbye], cli)
      | Execute trimmed =>
          let '(actions, cli') :=
            startInteractiveMode lines' (executeTask tick trimmed cli) in
          (Execute trimmed :: actions, cli')
      | action =>
          let '(actions, cli') := startInteractiveMode lines' cli in
          (action :: actions, cli')
      end
  end.
End CLI.

(** ** Sequences of calls *)

(** A sequence of calls on the registry and on the update queue of the
    learning system, from the freshly constructed registry and the empty
    queue. *)
Module RegistryCalls.
Inductive Call :=
| UpdateAgentMetrics (agentId : string) (metrics : Metrics.t)
| Enqueue (updates : list ConfidenceUpdate.t)
| ApplyUpdates.

Definition call (st : AgentRegistry.t * list ConfidenceUpdate.t) (c : Call)
  : AgentRegistry.t * list ConfidenceUpdate.t :=
  match c with
  | UpdateAgentMetrics agentId metrics =>
      (AgentRegistry.updateAgentMetrics agentId metrics st.1, st.2)
  | Enqueue updates => (st.1, st.2 ++ updates)
  | ApplyUpdates =>
      let '(registry, queue, _) := LearningSystem.applyUpdates st.1 st.2 in
      (registry, queue)
  end.

Definition run (now : nat) (calls : list Call)
  : AgentRegistry.t * list ConfidenceUpdate.t :=
  fold_left call calls (AgentRegistry.new now, []).
End RegistryCalls.

(** A sequence of [recordPerformance] calls, each with the clock reading it
    sees, on a fresh memory. *)
Definition recordAll (calls : list (nat * PerformanceRecord.t)) : MemorySystem.t :=
  fold_left (fun m c => MemorySystem.recordPerformance c.1 c.2 m) calls MemorySystem.new.

(** ** The secondary pool in the words of the specification

    "Secondary pool = union over each secondary intent of
    [findAgents({cluster: sec.cluster, complexity: level})]", the cluster of
    a secondary intent being the cluster of its pattern in the classifier.
    This definition follows the specification, not the source; it is the
    term of comparison for [AgentSpawner.secondaryAgents]. *)
Module SpecifiedSpawner.
Definition clusterOf (intentType : string) : option string :=
  match OMap.get intentType IntentClassifier.patterns with
  | Some pattern => Some (IntentClassifier.Pattern.cluster pattern)
  | None => None
  end.

Definition secondaryPool (registry : AgentRegistry.t) (complexity : Complexity.t)
    (intent : Intent.t) : list Agent.t :=
  flat_map
    (fun sec =>
       AgentRegistry.findAgents
         (Criteria.mk (clusterOf (SecondaryIntent.type sec)) None
                      (Some (Complexity.level complexity)))
         registry)
    (Intent.secondary intent).
End SpecifiedSpawner.

(** ** Well-formed decompositions *)

(** Every identifier in a [dependsOn] list is the identifier of a task
    earlier in the list. *)
Definition deps_refer_to_earlier_tasks (tasks : list Task.t) : Prop :=
  ∀ i t d, tasks !! i = Some t → d ∈ Task.dependsOn t →
    ∃ j t', (j < i)%nat ∧ tasks !! j = Some t' ∧ Task.id t' = d.

(** ** Vocabulary of the proofs *)

(** A node map as [buildDAG] makes it: distinct keys, each node under the
    identifier of its task. *)
Definition wf_store (nodes : omap Node.t) : Prop :=
  NoDup (OMap.keys nodes) ∧ Forall (fun kn => Task.id (Node.task kn.2) = kn.1) nodes.

(** Marking a wave, as a map over the store. *)
Definition mark (wave : list string) (nodes : omap Node.t) : omap Node.t :=
  map (fun kn => if bool_decide (kn.1 ∈ wave)
                 then (kn.1, Node.with_status scheduled kn.2) else kn) nodes.

(** What the loop of [computeWaves] never changes in a node. *)
Definition frame (kn : string * Node.t) : string * Task.t * gset string :=
  (kn.1, Node.task kn.2, Node.dependsOn kn.2).

Definition frame_of_task (t : Task.t) : string * Task.t * gset string :=
  (Task.id t, t, list_to_set (Task.dependsOn t)).

(** The invariant of the loop of [computeWaves] on the node map of [tasks]. *)
Record waves_inv (tasks : list Task.t) (nodes : omap Node.t)
    (completed : gset string) (waves : list (list string)) : Prop := {
  inv_wf : wf_store nodes;
  inv_frame : map frame nodes = map frame_of_task tasks;
  inv_pending : ∀ k n, (k, n) ∈ nodes → k ∉ completed → Node.status n = pending;
  inv_completed : completed = list_to_set (concat waves);
  inv_nodup : NoDup (concat waves);
  inv_keys : concat waves ⊆ OMap.keys nodes;
  inv_deps : ∀ i w k n, waves !! i = Some w → k ∈ w → (k, n) ∈ nodes →
               Node.dependsOn n ⊆ list_to_set (concat (take i waves));
  inv_nonempty : Forall (fun w => w ≠ []) waves
}.

(** A result of a task that was handed to the worker pool. *)
Definition settled (r : TaskResult.t) : Prop :=
  TaskResult.status r = completed ∨ TaskResult.status r = failed.

Definition bounded (c : Q) : Prop := (0.1 <= c ∧ c <= 1.0)%Q.

Definition confidence_bounded (r : AgentRegistry.t) : Prop :=
  Forall (fun a => (0.1 <= Agent.confidenceScore a ∧ Agent.confidenceScore a <= 1.0)%Q)
         (OMap.values (AgentRegistry.agents r)).

(** The slots in use and the slots promised to woken calls fit in the pool. *)
Definition pool_inv (p : WorkerPool.t) : Prop :=
  WorkerPool.activeWorkers p = List.length (WorkerPool.inFlight p)
  ∧ (WorkerPool.activeWorkers p + List.length (WorkerPool.woken p)
     ≤ WorkerPool.maxWorkers p)%nat.

(** A keyword whose first character is not white space. *)
Definition starts_with_ink (kw : string) : bool :=
  match kw with
  | String c _ => negb (JS.is_space c)
  | EmptyString => false
  end.

(** The sum of the [agentCount]s that [getStatus] reports. *)
Definition listed (r : AgentRegistry.t) : nat :=
  list_sum (map snd (RegistryStatus.clusters (AgentRegistry.getStatus r))).

(** The part of an agent that no update changes. *)
Definition identity (a : Agent.t)
  : string * string * string * list string * list Level * nat :=
  (Agent.id a, Agent.role a, Agent.cluster a, Agent.skills a,
   Agent.complexitySupported a, Agent.createdAt a).

Definition rate_bounded (r : AgentRegistry.t) : Prop :=
  Forall (fun a => (0 <= Agent.failureRate a ∧ Agent.failureRate a <= 1)%Q)
         (OMap.values (AgentRegistry.agents r)).

(** A list of tasks as [decompose] makes it: the task at position [i] has
    the [i]-th identifier drawn, and depends on nothing or on the task just
    before it. *)
Definition chained (uuid : nat → string) (tasks : list Task.t) : Prop :=
  ∀ i t, tasks !! i = Some t →
    Task.id t = uuid i
    ∧ (Task.dependsOn t = [] ∨ ∃ j, i = S j ∧ Task.dependsOn t = [uuid j]).

(** The tasks of a node map, which no step of an execution changes. *)
Definition task_view (nodes : omap Node.t) : omap Task.t :=
  map (fun kn => (kn.1, Node.task kn.2)) nodes.

(** The job made for a task and the result made of what the worker pool
    hands back for it, as [execute] makes them in wave [i]. *)
Definition job_of (assignments : gmap string (list string)) (task : Task.t) : Job.t :=
  Job.mk task (default [] (assignments !! Task.id task)).

Definition result_of (assignments : gmap string (list string))
    (pool : Job.t → WorkerOutcome) (i : nat) (task : Task.t) : TaskResult.t :=
  let agentId := List.head (default [] (assignments !! Task.id task)) in
  match pool (job_of assignments task) with
  | Resolved output elapsed =>
      TaskResult.mk (Task.id task) (Task.description task) completed
        (Some (if JS.truthy output then output else "Task completed"))
        None elapsed agentId i
  | Rejected message =>
      TaskResult.mk (Task.id task) (Task.description task) failed
        None (Some message) 0 agentId i
  end.

(** The tasks that the references of a list of waves stand for. *)
Definition tasks_of (tasks : omap Task.t) (refs : list string) : list Task.t :=
  flat_map
    (fun ref => match OMap.get ref tasks with Some task => [task] | None => [] end)
    refs.

(** What holds of the node map and of the waves at every turn of the loop
    of [computeWaves], whatever the tasks are. *)
Definition waves_sound (nodes : omap Node.t) (completed : gset string)
    (waves : list (list string)) : Prop :=
  wf_store nodes ∧ completed = list_to_set (concat waves)
  ∧ NoDup (concat waves) ∧ concat waves ⊆ OMap.keys nodes.

(** While a call waits for a slot, every slot is in use or promised to a
    woken call. *)
Definition pool_busy (p : WorkerPool.t) : Prop :=
  WorkerPool.queue p ≠ [] →
  (WorkerPool.activeWorkers p + List.length (WorkerPool.woken p)
   = WorkerPool.maxWorkers p)%nat.

(** The jobs submitted by a schedule and its settlements by outcome. *)
Definition submitted (es : list WorkerPool.Event) : list nat :=
  flat_map (fun e => match e with WorkerPool.Submit job => [job] | _ => [] end) es.

Definition settlements (ok : bool) (es : list WorkerPool.Event) : nat :=
  List.length
    (List.filter
       (fun e => match e with WorkerPool.Settle _ ok' => Bool.eqb ok ok' | _ => false end)
       es).

(** A sequence of [recordPattern] calls on a fresh memory, each with the
    clock reading it sees and the pattern it is given. *)
Definition recordPatterns
    (calls : list (nat * string * Optimization * option Q * option Z))
  : MemorySystem.t :=
  fold_left
    (fun m c =>
       let '(now, key, optimization, quality, avgDuration) := c in
       MemorySystem.recordPattern now key optimization quality avgDuration m)
    calls MemorySystem.new.

(** The number of calls made with a key, and the count that the ledger
    holds for it. *)
Definition calls_with (key : string)
    (calls : list (nat * string * Optimization * option Q * option Z)) : nat :=
  List.length (List.filter (fun c => String.eqb c.1.1.1.2 key) calls).

Definition applied (key : string) (ledger : list Pattern.t) : nat :=
  match List.find (fun p => String.eqb (Pattern.pattern p) key) ledger with
  | Some p => Pattern.appliedCount p
  | None => 0
  end.

(** A word of a command line: not empty and free of white space. *)
Fixpoint spaceless (s : string) : bool :=
  match s with
  | EmptyString => true
  | String c s' => negb (JS.is_space c) && spaceless s'
  end.

Definition is_token (s : string) : bool := JS.truthy s && spaceless s.

(** The first words that [parse] knows. *)
Definition known_words : list string :=
  ["--help"; "-h"; "--status"; "-s"; "--interactive"; "-i"; "run"; "exec"; "status"].

(** A sequence of calls on a session. *)
Inductive SessionCall {Result : Type} :=
| StartTask (uuid : string) (now : nat) (input : string)
| EndTask (now : nat) (result : Result).
Arguments SessionCall : clear implicits.

Definition session_call {Result : Type} (error : Result → option string)
    (s : @SessionContext.t Result) (c : SessionCall Result) : @SessionContext.t Result :=
  match c with
  | StartTask uuid now input => (SessionContext.startTask uuid now input s).1
  | EndTask now result => SessionContext.endTask error now result s
  end.

Definition starts {Result : Type} (calls : list (SessionCall Result)) : nat :=
  List.length
    (List.filter (fun c => match c with StartTask _ _ _ => true | _ => false end) calls).

(** An entry of the history as [endTask] files it. *)
Definition ended {Result : Type} (e : @SessionContext.Entry Result) : Prop :=
  (SessionContext.status e = completed ∨ SessionContext.status e = failed)
  ∧ ∃ now, SessionContext.endedAt e = Some now
           ∧ SessionContext.duration e
             = Some (Z.of_nat now - Z.of_nat (SessionContext.startedAt e))%Z
  ∧ is_Some (SessionContext.result e).

(** A sequence of tasks run from the command line. *)
Definition executeTasks (runs : list (Tick.t * string)) (cli : CLI.t) : CLI.t :=
  fold_left (fun cli run => CLI.executeTask run.1 run.2 cli) runs cli.

(** A sequence of permission requests, each with the clock reading it sees
    and the answer given if the user is asked. *)
Definition requestAll
    (requests : list (nat * string * string * ActionDetails.t))
    (h : PermissionHandler.t) : PermissionHandler.t :=
  fold_left
    (fun h r =>
       let '(now, answer, action, details) := r in
       (PermissionHandler.requestPermission now answer action details h).2)
    requests h.

(** The answers that [promptUser] takes for a yes. *)
Definition yes_answers : list string := ["a"; "always"; "y"; "yes"; ""].

(** What holds of a line that the interactive mode hands to the
    orchestrator, and the lines handed over. *)
Definition handed_over (lines : list string) (a : CLI.LineAction) : Prop :=
  match a with
  | CLI.Execute input =>
      input ≠ "" ∧ (input ∉ ["exit"; "quit"; ".q"; "status"; "clear"])
      ∧ ∃ line, line ∈ lines ∧ input = JS.trim line
  | _ => True
  end.

Definition executed (actions : list CLI.LineAction) : list string :=
  flat_map (fun a => match a with CLI.Execute input => [input] | _ => [] end) actions.

(** The only decision that the handler ever stores. *)
Definition only_always (h : PermissionHandler.t) : Prop :=
  Forall (fun kv => kv.2 = always) (PermissionHandler.decisions h).

(** The worker pool as [execute] of the scheduler sees it when the pool
    runs the simulated worker: every job resolves to the result of
    [runWorker]; [random] is the number that [Math.random()] draws for a job
    and [elapsed] the time measured around the call. *)
Definition simulated_pool (random : Job.t → Q) (elapsed : Job.t → nat)
    (job : Job.t) : WorkerOutcome :=
  Resolved (WorkerResult.output (WorkerPool.runWorker (random job) job)) (elapsed job).

(** ** Sample inputs *)

Definition sample_uuid (n : nat) : string := String (ascii_of_nat (97 + n)) "0000000".

Definition sample_env : Env.t :=
  Env.mk sample_uuid (fun _ => Resolved "ok" 5) 0 0.

(** Two tasks, the second depending on the first. *)
Definition chain2 : Decomposition.t :=
  Decomposition.mk
    [Task.mk "t1" 0 "fetch data" "code" "coding" [] pending 2;
     Task.mk "t2" 1 "use data" "code" "coding" ["t1"] pending 2]
    2 false.

Definition chain2_allocation : Allocation.t :=
  Allocation.mk [] {[ "t1" := ["code_agent_v2"]; "t2" := ["code_agent_v2"] ]}
                parallel_pool.

(** Three tasks in a chain, and a DAG over them whose nodes still have the
    status [pending] they are created with: the node map before
    [computeWaves] marks it, with the three waves of the chain. *)
Definition chain3 : list Task.t :=
  [Task.mk "t1" 0 "fetch data" "code" "coding" [] pending 2;
   Task.mk "t2" 1 "use data" "code" "coding" ["t1"] pending 2;
   Task.mk "t3" 2 "publish" "code" "coding" ["t2"] pending 2].

Definition chain3_pending : DAG.t :=
  DAG.mk (DAGScheduler.linkDependents chain3 (DAGScheduler.makeNodes chain3))
         [["t1"]; ["t2"]; ["t3"]].

(** The worker fails on [t1] and succeeds on everything else. *)
Definition fails_on_t1 (job : Job.t) : WorkerOutcome :=
  if String.eqb (Task.id (Job.task job)) "t1"
  then Rejected "boom" else Resolved "done" 7.

(** The third end-to-end scenario and the tasks it decomposes into. *)
Definition scenario3 : string :=
  "research OAuth then build API then deploy to production".

Definition scenario3_tasks (a b c : string) : list Task.t :=
  [Task.mk a 0 "research OAuth" "code" "coding" [] pending 2;
   Task.mk b 1 "build API" "code" "coding" [a] pending 2;
   Task.mk c 2 "deploy to production" "code" "coding" [b] pending 2].

(** The single task a blank input decomposes into. *)
Definition blank_task (id : string) : Task.t :=
  Task.mk id 0 "" "general" "research" [] pending 1.

Definition sample_entry : PerformanceRecord.t :=
  PerformanceRecord.mk (Some "code_agent_v2") "t1" 120 true simple (Some "coding") 0.

(** Four jobs on a pool of two workers. *)
Definition sample_schedule : list WorkerPool.Event :=
  [WorkerPool.Submit 1; WorkerPool.Submit 2; WorkerPool.Submit 3; WorkerPool.Submit 4;
   WorkerPool.Settle 1 true; WorkerPool.Resume 3; WorkerPool.Settle 2 false;
   WorkerPool.Resume 4; WorkerPool.Settle 3 true; WorkerPool.Settle 4 true].

(** A call of [execute] placed between the release of a slot and the
    resumption of the call woken for it. *)
Definition late_submit : list WorkerPool.Event :=
  [WorkerPool.Submit 1; WorkerPool.Submit 2; WorkerPool.Settle 1 true;
   WorkerPool.Submit 3; WorkerPool.Resume 2].

(** * Properties *)

(** ** Insertion-ordered maps *)

Section OMapFacts.
Context {V : Type}.
Implicit Types (m : omap V) (k : string) (v : V).

Lemma omap_get_set_eq k v m : OMap.get k (OMap.set k v m) = Some v.
Proof.
  induction m as [|[k' v'] m IH]; simpl.
  - by rewrite String.eqb_refl.
  - destruct (String.eqb_spec k k') as [->|Hne]; simpl.
    + by rewrite String.eqb_refl.
    + destruct (String.eqb_spec k k'); [done|]. exact IH.
Qed.

Lemma omap_get_set_ne k k' v m :
  k ≠ k' → OMap.get k (OMap.set k' v m) = OMap.get k m.
Proof.
  intros Hne. induction m as [|[k2 v2] m IH]; simpl.
  - destruct (String.eqb_spec k k'); [done|done].
  - destruct (String.eqb_spec k' k2) as [->|Hne2]; simpl.
    + destruct (String.eqb_spec k k2); [done|done].
    + destruct (String.eqb_spec k k2); [done|]. exact IH.
Qed.

Lemma omap_keys_set_in k v m :
  k ∈ OMap.keys m → OMap.keys (OMap.set k v m) = OMap.keys m.
Proof.
  unfold OMap.keys. induction m as [|[k' v'] m IH]; simpl; intros Hin.
  - by apply elem_of_nil in Hin.
  - destruct (String.eqb_spec k k') as [->|Hne]; simpl; [done|].
    f_equal. apply IH. apply elem_of_cons in Hin as [?|?]; [done|done].
Qed.

Lemma omap_set_notin k v m :
  k ∉ OMap.keys m → OMap.set k v m = m ++ [(k, v)].
Proof.
  unfold OMap.keys. induction m as [|[k' v'] m IH]; simpl; intros Hin; [done|].
  destruct (String.eqb_spec k k') as [->|Hne].
  - exfalso. apply Hin. left.
  - f_equal. apply IH. intros ?. apply Hin. by right.
Qed.

Lemma omap_get_Some_keys k v m : OMap.get k m = Some v → k ∈ OMap.keys m.
Proof.
  unfold OMap.keys. induction m as [|[k' v'] m IH]; simpl; [done|].
  destruct (String.eqb_spec k k') as [->|Hne]; intros H.
  - left.
  - right. by apply IH.
Qed.

Lemma omap_get_Some_elem k v m : OMap.get k m = Some v → (k, v) ∈ m.
Proof.
  induction m as [|[k' v'] m IH]; simpl; [done|].
  destruct (String.eqb_spec k k') as [->|Hne]; intros H.
  - injection H as ->. left.
  - right. by apply IH.
Qed.

Lemma omap_keys_get k m : k ∈ OMap.keys m → ∃ v, OMap.get k m = Some v.
Proof.
  unfold OMap.keys. induction m as [|[k' v'] m IH]; simpl; intros Hin.
  - by apply elem_of_nil in Hin.
  - destruct (String.eqb_spec k k') as [->|Hne]; [eauto|].
    apply IH. apply elem_of_cons in Hin as [?|?]; [done|done].
Qed.

Lemma omap_elem_get k v m : NoDup (OMap.keys m) → (k, v) ∈ m → OMap.get k m = Some v.
Proof.
  unfold OMap.keys. induction m as [|[k' v'] m IH]; simpl; intros Hnd Hin.
  - by apply elem_of_nil in Hin.
  - apply NoDup_cons in Hnd as [Hk Hnd].
    apply elem_of_cons in Hin as [Heq|Hin].
    + injection Heq as -> ->. by rewrite String.eqb_refl.
    + destruct (String.eqb_spec k k') as [->|Hne]; [|by apply IH].
      exfalso. apply Hk. apply list_elem_of_fmap. by exists (k', v).
Qed.
End OMapFacts.


(** ** The DAG builder *)

Lemma Status_eqb_eq a b : Status_eqb a b = true ↔ a = b.
Proof. destruct a, b; simpl; split; intros H; try done. Qed.

Lemma depsResolved_spec completed node :
  DAGScheduler.depsResolved completed node = true ↔ Node.dependsOn node ⊆ completed.
Proof.
  unfold DAGScheduler.depsResolved. rewrite forallb_forall. split.
  - intros H d Hd. specialize (H d). rewrite bool_decide_eq_true in H.
    apply H, list_elem_of_In, elem_of_elements, Hd.
  - intros H d Hd. apply bool_decide_eq_true, H, elem_of_elements, list_elem_of_In, Hd.
Qed.

Lemma elem_of_frontier k nodes completed :
  k ∈ DAGScheduler.frontier nodes completed ↔
  ∃ n, (k, n) ∈ nodes ∧ (k ∉ completed) ∧ Node.status n = pending
       ∧ Node.dependsOn n ⊆ completed.
Proof.
  unfold DAGScheduler.frontier. rewrite list_elem_of_fmap. split.
  - intros [[k' n] [-> Hin]]. apply list_elem_of_In, filter_In in Hin as [Hin Hf].
    apply andb_true_iff in Hf as [Hf H3]. apply andb_true_iff in Hf as [H1 H2].
    exists n. split; [by apply list_elem_of_In|].
    apply negb_true_iff, bool_decide_eq_false in H1.
    apply Status_eqb_eq in H2. apply depsResolved_spec in H3. done.
  - intros (n & Hin & H1 & H2 & H3). exists (k, n). split; [done|].
    apply list_elem_of_In, filter_In. split; [by apply list_elem_of_In|].
    rewrite !andb_true_iff. split; [split|].
    + by apply negb_true_iff, bool_decide_eq_false.
    + by apply Status_eqb_eq.
    + by apply depsResolved_spec.
Qed.

Lemma NoDup_fmap_filter {A B} (g : A → B) (f : A → bool) (l : list A) :
  NoDup (map g l) → NoDup (map g (List.filter f l)).
Proof.
  induction l as [|a l IH]; simpl; [done|].
  intros Hnd. apply NoDup_cons in Hnd as [Ha Hnd].
  destruct (f a); simpl; [|by apply IH].
  apply NoDup_cons. split; [|by apply IH].
  intros Hin. apply Ha. apply list_elem_of_fmap in Hin as (x & -> & Hx).
  apply list_elem_of_fmap. exists x. split; [done|].
  apply list_elem_of_In. apply list_elem_of_In, filter_In in Hx. tauto.
Qed.

Lemma frontier_NoDup nodes completed :
  NoDup (OMap.keys nodes) → NoDup (DAGScheduler.frontier nodes completed).
Proof. apply NoDup_fmap_filter. Qed.

Lemma mark_keys wave nodes : OMap.keys (mark wave nodes) = OMap.keys nodes.
Proof.
  unfold OMap.keys, mark. rewrite map_map. apply map_ext.
  intros [k n]; simpl. by case_bool_decide.
Qed.

Lemma mark_wf wave nodes : wf_store nodes → wf_store (mark wave nodes).
Proof.
  intros [Hnd Hid]. split; [by rewrite mark_keys|].
  unfold mark. apply Forall_map. eapply Forall_impl; [exact Hid|].
  intros [k n]; simpl. by case_bool_decide.
Qed.

Lemma set_scheduled_mark ref node nodes :
  NoDup (OMap.keys nodes) → OMap.get ref nodes = Some node →
  OMap.set ref (Node.with_status scheduled node) nodes = mark [ref] nodes.
Proof.
  unfold OMap.keys, mark. induction nodes as [|[k n] nodes IH]; simpl; [done|].
  intros Hnd Hget. apply NoDup_cons in Hnd as [Hk Hnd].
  destruct (String.eqb_spec ref k) as [->|Hne].
  - injection Hget as ->. cbn [fst snd].
    rewrite bool_decide_eq_true_2 by set_solver.
    f_equal. clear IH. induction nodes as [|[k' n'] nodes IH]; simpl; [done|].
    simpl in Hk, Hnd. rewrite bool_decide_eq_false_2.
    + f_equal. apply IH; [|by apply NoDup_cons in Hnd as [? ?]].
      intros ?. apply Hk. by right.
    + intros Hin. apply Hk. apply list_elem_of_singleton in Hin as ->. left.
  - cbn [fst snd]. rewrite bool_decide_eq_false_2 by set_solver. f_equal. by apply IH.
Qed.

Lemma mark_mark ref wave nodes :
  mark wave (mark [ref] nodes) = mark (ref :: wave) nodes.
Proof.
  unfold mark. rewrite map_map. apply map_ext. intros [k n]; simpl.
  repeat case_bool_decide; simpl in *; try done; set_solver.
Qed.

Lemma markWave_mark wave nodes completed :
  wf_store nodes → wave ⊆ OMap.keys nodes →
  DAGScheduler.markWave wave (nodes, completed)
  = (mark wave nodes, completed ∪ list_to_set wave).
Proof.
  unfold DAGScheduler.markWave.
  revert nodes completed. induction wave as [|ref wave IH]; intros nodes completed Hwf Hsub.
  - simpl. f_equal.
    + unfold mark. rewrite <- (map_id nodes) at 1. apply map_ext. intros [k n]. simpl.
      done.
    + set_solver.
  - simpl. destruct (omap_keys_get ref nodes) as [node Hget]; [set_solver|].
    rewrite Hget. destruct Hwf as [Hnd Hid].
    rewrite set_scheduled_mark by done.
    assert (Task.id (Node.task node) = ref) as ->.
    { apply omap_get_Some_elem in Hget. rewrite Forall_forall in Hid.
      apply (Hid (ref, node)). done. }
    rewrite IH.
    + rewrite mark_mark. f_equal. set_solver.
    + by apply mark_wf.
    + rewrite mark_keys. set_solver.
Qed.

Lemma frontier_keys nodes completed :
  DAGScheduler.frontier nodes completed ⊆ OMap.keys nodes.
Proof.
  intros k Hk. apply elem_of_frontier in Hk as (n & Hin & _).
  unfold OMap.keys. apply list_elem_of_fmap. by exists (k, n).
Qed.

Lemma frontier_fresh nodes completed k :
  k ∈ DAGScheduler.frontier nodes completed → k ∉ completed.
Proof. intros Hk. by apply elem_of_frontier in Hk as (n & _ & ? & _). Qed.

Lemma mark_length wave nodes : List.length (mark wave nodes) = List.length nodes.
Proof. unfold mark. by rewrite length_map. Qed.

Lemma size_grows (completed : gset string) (wave : list string) :
  wave ≠ [] → (∀ k, k ∈ wave → k ∉ completed) →
  size completed < size (completed ∪ list_to_set wave).
Proof.
  intros Hne Hfresh. destruct wave as [|k wave]; [done|].
  assert (k ∉ completed) by (apply Hfresh; left).
  assert (completed ∪ {[k]} ⊆ completed ∪ list_to_set (k :: wave)) as Hsub by set_solver.
  apply subseteq_size in Hsub. rewrite size_union in Hsub by set_solver.
  rewrite size_singleton in Hsub. lia.
Qed.

Lemma computeWaves_loop_S fuel nodes completed waves :
  DAGScheduler.computeWaves_loop (S fuel) nodes completed waves
  = if (size completed <? OMap.size nodes)%nat then
      match DAGScheduler.frontier nodes completed with
      | [] => Some (nodes, waves)
      | wave =>
          let '(nodes', completed') := DAGScheduler.markWave wave (nodes, completed) in
          DAGScheduler.computeWaves_loop fuel nodes' completed' (waves ++ [wave])
      end
    else Some (nodes, waves).
Proof. reflexivity. Qed.

(** The loop of [computeWaves], by an invariant. *)
Lemma computeWaves_loop_inv (P : omap Node.t → gset string → list (list string) → Prop) :
  (∀ nodes completed waves, P nodes completed waves → wf_store nodes) →
  (∀ nodes completed waves,
     P nodes completed waves →
     DAGScheduler.frontier nodes completed ≠ [] →
     P (mark (DAGScheduler.frontier nodes completed) nodes)
       (completed ∪ list_to_set (DAGScheduler.frontier nodes completed))
       (waves ++ [DAGScheduler.frontier nodes completed])) →
  ∀ fuel nodes completed waves,
    P nodes completed waves →
    List.length nodes - size completed < fuel →
    ∃ nodes' completed' waves',
      DAGScheduler.computeWaves_loop fuel nodes completed waves = Some (nodes', waves')
      ∧ P nodes' completed' waves'
      ∧ ((List.length nodes' ≤ size completed')%nat
         ∨ DAGScheduler.frontier nodes' completed' = []).
Proof.
  intros Hwf Hstep. induction fuel as [|fuel IH]; intros nodes completed waves HP Hfuel; [lia|].
  rewrite computeWaves_loop_S. unfold OMap.size.
  destruct (Nat.ltb_spec (size completed) (List.length nodes)) as [Hlt|Hge].
  - destruct (DAGScheduler.frontier nodes completed) as [|k wave] eqn:Hfr.
    + exists nodes, completed, waves. split; [done|]. split; [done|]. by right.
    + rewrite <- Hfr. rewrite markWave_mark; [|by eapply Hwf|by apply frontier_keys].
      apply IH.
      * apply Hstep; [done|]. by rewrite Hfr.
      * rewrite mark_length.
        assert (size completed
                < size (completed ∪ list_to_set (DAGScheduler.frontier nodes completed))).
        { apply size_grows; [by rewrite Hfr|]. intros ?. apply frontier_fresh. }
        lia.
  - exists nodes, completed, waves. split; [done|]. split; [done|]. by left.
Qed.

Lemma wf_store_set k n nodes :
  wf_store nodes → Task.id (Node.task n) = k → wf_store (OMap.set k n nodes).
Proof.
  intros [Hnd Hid] Hk. destruct (decide (k ∈ OMap.keys nodes)) as [Hin|Hnin].
  - split; [by rewrite omap_keys_set_in|].
    clear Hnd Hin. induction nodes as [|[k' n'] nodes IH]; simpl; [by repeat constructor|].
    apply Forall_cons in Hid as [H1 H2].
    destruct (String.eqb_spec k k') as [->|Hne]; constructor; auto.
  - rewrite omap_set_notin by done. split.
    + unfold OMap.keys in *. rewrite map_app. simpl.
      apply NoDup_app. split; [done|]. split; [|apply NoDup_singleton].
      intros x Hx Hx'. apply list_elem_of_singleton in Hx' as ->. done.
    + apply Forall_app. split; [done|]. by repeat constructor.
Qed.

Lemma wf_store_update k f nodes :
  (∀ n, Node.task (f n) = Node.task n) →
  wf_store nodes → wf_store (DAGScheduler.update k f nodes).
Proof.
  intros Hf Hwf. unfold DAGScheduler.update.
  destruct (OMap.get k nodes) as [n|] eqn:Hget; [|done].
  apply wf_store_set; [done|]. rewrite Hf.
  destruct Hwf as [_ Hid]. rewrite Forall_forall in Hid.
  apply (Hid (k, n)), omap_get_Some_elem, Hget.
Qed.

Lemma makeNodes_wf tasks : wf_store (DAGScheduler.makeNodes tasks).
Proof.
  unfold DAGScheduler.makeNodes.
  assert (wf_store ([] : omap Node.t)) as Hwf by (split; constructor).
  revert Hwf. generalize ([] : omap Node.t).
  induction tasks as [|t tasks IH]; intros acc Hwf; simpl; [done|].
  apply IH. by apply wf_store_set.
Qed.

Lemma linkDependents_wf tasks nodes :
  wf_store nodes → wf_store (DAGScheduler.linkDependents tasks nodes).
Proof.
  unfold DAGScheduler.linkDependents. revert nodes.
  induction tasks as [|t tasks IH]; intros nodes Hwf; simpl; [done|].
  apply IH. generalize (Task.dependsOn t). intros deps. revert nodes Hwf.
  induction deps as [|d deps IHd]; intros nodes Hwf; simpl; [done|].
  apply IHd. by apply wf_store_update.
Qed.

(** [computeWaves] returns on every well-formed store, and [buildDAG] on
    every decomposition. *)
Lemma computeWaves_total nodes :
  wf_store nodes → is_Some (DAGScheduler.computeWaves nodes).
Proof.
  intros Hwf. unfold DAGScheduler.computeWaves.
  assert (List.length nodes - size (∅ : gset string) < S (OMap.size nodes))%nat as Hfuel
    by (unfold OMap.size; lia).
  destruct (computeWaves_loop_inv (fun nodes _ _ => wf_store nodes)
              (fun _ _ _ H => H) (fun nodes c _ H _ => mark_wf _ nodes H)
              (S (OMap.size nodes)) nodes ∅ [] Hwf Hfuel)
    as (n' & c' & w' & Heq & _).
  by rewrite Heq.
Qed.

Lemma buildDAG_total decomposition : is_Some (DAGScheduler.buildDAG decomposition).
Proof.
  unfold DAGScheduler.buildDAG.
  destruct (computeWaves_total
              (DAGScheduler.linkDependents (Decomposition.tasks decomposition)
                 (DAGScheduler.makeNodes (Decomposition.tasks decomposition))))
    as [[n w] Heq].
  - apply linkDependents_wf, makeNodes_wf.
  - by rewrite Heq.
Qed.

Lemma elem_of_mark k n' wave nodes :
  (k, n') ∈ mark wave nodes →
  ∃ n, (k, n) ∈ nodes ∧ Node.dependsOn n' = Node.dependsOn n
       ∧ (k ∉ wave → n' = n).
Proof.
  unfold mark. intros Hin. apply list_elem_of_fmap in Hin as ([k0 n0] & Heq & Hin).
  simpl in Heq. destruct (bool_decide_reflect (k0 ∈ wave)) as [Hw|Hw].
  - injection Heq as -> ->. exists n0. by repeat split.
  - injection Heq as -> ->. exists n0. by repeat split.
Qed.

Lemma mark_frame wave nodes : map frame (mark wave nodes) = map frame nodes.
Proof.
  unfold mark. rewrite map_map. apply map_ext. intros [k n]. simpl.
  by destruct (bool_decide (k ∈ wave)).
Qed.

Lemma waves_inv_step tasks nodes completed waves :
  waves_inv tasks nodes completed waves →
  DAGScheduler.frontier nodes completed ≠ [] →
  waves_inv tasks (mark (DAGScheduler.frontier nodes completed) nodes)
    (completed ∪ list_to_set (DAGScheduler.frontier nodes completed))
    (waves ++ [DAGScheduler.frontier nodes completed]).
Proof.
  intros [Hwf Hfr Hpend Hcomp Hnd Hkeys Hdeps Hne] Hwave.
  set (wave := DAGScheduler.frontier nodes completed).
  split.
  - by apply mark_wf.
  - by rewrite mark_frame.
  - intros k n' Hin Hk. apply elem_of_mark in Hin as (n & Hin & _ & Hsame).
    rewrite Hsame by set_solver. apply (Hpend k n Hin). set_solver.
  - rewrite concat_app. simpl. rewrite app_nil_r, list_to_set_app_L. by rewrite Hcomp.
  - rewrite concat_app. simpl. rewrite app_nil_r. apply NoDup_app.
    split; [done|]. split; [|apply frontier_NoDup, Hwf].
    intros k Hk Hk'. apply frontier_fresh in Hk'. apply Hk'. rewrite Hcomp. set_solver.
  - rewrite concat_app. simpl. rewrite app_nil_r, mark_keys.
    intros k Hk. apply elem_of_app in Hk as [Hk|Hk]; [by apply Hkeys|].
    by apply frontier_keys in Hk.
  - intros i w k n' Hw Hk Hin.
    apply elem_of_mark in Hin as (n & Hin & -> & _).
    destruct (decide (i < List.length waves)%nat) as [Hlt|Hge].
    + rewrite lookup_app_l in Hw by done.
      rewrite take_app_le by lia. by eapply Hdeps.
    + rewrite lookup_app_r in Hw by lia.
      destruct (i - List.length waves)%nat as [|?] eqn:Hi; [|done].
      injection Hw as <-. assert (i = List.length waves) as -> by lia.
      rewrite take_app_length. rewrite <- Hcomp.
      apply elem_of_frontier in Hk as (n0 & Hin0 & _ & _ & Hsub).
      destruct Hwf as [Hkn _].
      apply (omap_elem_get _ _ _ Hkn) in Hin. apply (omap_elem_get _ _ _ Hkn) in Hin0.
      by simplify_eq.
  - apply Forall_app. split; [done|]. by repeat constructor.
Qed.

Lemma first_missing (l : list string) (X : gset string) :
  (∃ k, k ∈ l ∧ k ∉ X) →
  ∃ i k, l !! i = Some k ∧ (k ∉ X) ∧ ∀ j k', (j < i)%nat → l !! j = Some k' → k' ∈ X.
Proof.
  induction l as [|a l IH]; intros (k & Hk & HX).
  - by apply elem_of_nil in Hk.
  - destruct (decide (a ∈ X)) as [Ha|Ha].
    + destruct IH as (i & k' & Hi & Hk' & Hbefore).
      { exists k. split; [|done]. apply elem_of_cons in Hk as [->|?]; done. }
      exists (S i), k'. split; [done|]. split; [done|].
      intros [|j] k2 Hj Hl; simpl in Hl.
      * by injection Hl as <-.
      * apply (Hbefore j); [lia|done].
    + exists 0%nat, a. split; [done|]. split; [done|]. intros; lia.
Qed.

Lemma waves_inv_progress tasks nodes completed waves :
  deps_refer_to_earlier_tasks tasks →
  waves_inv tasks nodes completed waves →
  (size completed < List.length nodes)%nat →
  DAGScheduler.frontier nodes completed ≠ [].
Proof.
  intros Hearlier [Hwf Hfr Hpend Hcomp Hnd Hkeys Hdeps _] Hlt.
  destruct (first_missing (OMap.keys nodes) completed) as (i & k & Hi & Hk & Hbefore).
  { destruct (decide (Forall (λ k, k ∈ completed) (OMap.keys nodes))) as [Hall|Hex].
    - exfalso. rewrite Forall_forall in Hall.
      assert ((list_to_set (OMap.keys nodes) : gset string) ⊆ completed) as Hsub.
      { intros k Hk. apply elem_of_list_to_set in Hk. by apply Hall. }
      apply subseteq_size in Hsub. rewrite size_list_to_set in Hsub by apply Hwf.
      unfold OMap.keys in Hsub. rewrite length_map in Hsub. lia.
    - apply not_Forall_Exists in Hex; [|intros ?; apply _].
      apply Exists_exists in Hex as (k & ? & ?). by exists k. }
  assert (map fst nodes = map Task.id tasks) as Hids.
  { transitivity (map (fun x : string * Task.t * gset string => x.1.1) (map frame nodes)).
    - rewrite map_map. by apply map_ext.
    - rewrite Hfr, map_map. by apply map_ext. }
  unfold OMap.keys in Hi, Hbefore.
  destruct (nodes !! i) as [[k0 n]|] eqn:Hn; [|by rewrite list_lookup_fmap, Hn in Hi].
  assert (k0 = k) as -> by (rewrite list_lookup_fmap, Hn in Hi; by injection Hi).
  assert (map frame nodes !! i = Some (frame (k, n))) as Hf
    by (by rewrite list_lookup_fmap, Hn).
  rewrite Hfr, list_lookup_fmap in Hf.
  destruct (tasks !! i) as [t|] eqn:Ht; [|done].
  injection Hf as Hid Htask Hdep.
  assert (k ∈ DAGScheduler.frontier nodes completed) as Hin.
  { apply elem_of_frontier. exists n. split; [by eapply list_elem_of_lookup_2|].
    split; [done|]. split; [eapply Hpend; [by eapply list_elem_of_lookup_2|done]|].
    rewrite <- Hdep. intros d Hd. apply elem_of_list_to_set in Hd.
    destruct (Hearlier i t d Ht Hd) as (j & t' & Hj & Ht' & Hidd).
    apply (Hbefore j); [done|]. rewrite Hids, list_lookup_fmap, Ht'. simpl. by rewrite Hidd. }
  intros Hnil. rewrite Hnil in Hin. by apply elem_of_nil in Hin.
Qed.

Lemma makeNodes_from acc tasks :
  NoDup (OMap.keys acc ++ map Task.id tasks) →
  fold_left
    (fun nodes task =>
       OMap.set (Task.id task)
         (Node.mk task (list_to_set (Task.dependsOn task)) ∅ pending None) nodes)
    tasks acc
  = acc ++ map (fun task =>
                  (Task.id task,
                   Node.mk task (list_to_set (Task.dependsOn task)) ∅ pending None))
               tasks.
Proof.
  revert acc. induction tasks as [|t tasks IH]; intros acc Hnd; simpl.
  - by rewrite app_nil_r.
  - rewrite omap_set_notin.
    + rewrite IH.
      * by rewrite <- app_assoc.
      * unfold OMap.keys in *. rewrite map_app. simpl. by rewrite <- app_assoc.
    + apply NoDup_app in Hnd as (_ & Hdis & _). intros Hin. apply (Hdis _ Hin). left.
Qed.

Lemma update_frame k f nodes :
  (∀ n, Node.task (f n) = Node.task n) →
  (∀ n, Node.dependsOn (f n) = Node.dependsOn n) →
  (∀ n, Node.status (f n) = Node.status n) →
  map (fun kn => (frame kn, Node.status kn.2)) (DAGScheduler.update k f nodes)
  = map (fun kn => (frame kn, Node.status kn.2)) nodes.
Proof.
  intros H1 H2 H3. unfold DAGScheduler.update.
  destruct (OMap.get k nodes) as [n|] eqn:Hget; [|done].
  induction nodes as [|[k' n'] nodes IH]; simpl in *; [done|].
  destruct (String.eqb_spec k k') as [->|Hne]; simpl.
  - injection Hget as ->. unfold frame. simpl. by rewrite H1, H2, H3.
  - f_equal. by apply IH.
Qed.

Lemma linkDependents_frame tasks nodes :
  map (fun kn => (frame kn, Node.status kn.2)) (DAGScheduler.linkDependents tasks nodes)
  = map (fun kn => (frame kn, Node.status kn.2)) nodes.
Proof.
  unfold DAGScheduler.linkDependents. revert nodes.
  induction tasks as [|t tasks IH]; intros nodes; simpl; [done|].
  rewrite IH. generalize (Task.dependsOn t). intros deps. revert nodes.
  induction deps as [|d deps IHd]; intros nodes; simpl; [done|].
  rewrite IHd. by apply update_frame.
Qed.

Lemma build_frame tasks :
  NoDup (map Task.id tasks) →
  map (fun kn => (frame kn, Node.status kn.2))
      (DAGScheduler.linkDependents tasks (DAGScheduler.makeNodes tasks))
  = map (fun t => (frame_of_task t, pending)) tasks.
Proof.
  intros Hnd. rewrite linkDependents_frame.
  unfold DAGScheduler.makeNodes. rewrite makeNodes_from by done.
  simpl. rewrite map_map. by apply map_ext.
Qed.

Lemma waves_inv_init tasks :
  NoDup (map Task.id tasks) →
  waves_inv tasks (DAGScheduler.linkDependents tasks (DAGScheduler.makeNodes tasks)) ∅ [].
Proof.
  intros Hnd. pose proof (build_frame tasks Hnd) as Hfr.
  split.
  - apply linkDependents_wf, makeNodes_wf.
  - apply (f_equal (map fst)) in Hfr. rewrite !map_map in Hfr. simpl in Hfr.
    etransitivity; [|etransitivity; [exact Hfr|]]; by apply map_ext.
  - intros k n Hin _.
    assert ((frame (k, n), Node.status n)
            ∈ map (fun kn => (frame kn, Node.status kn.2))
                  (DAGScheduler.linkDependents tasks (DAGScheduler.makeNodes tasks)))
      as Hin' by (apply list_elem_of_fmap; by exists (k, n)).
    rewrite Hfr in Hin'. apply list_elem_of_fmap in Hin' as (t & Heq & _).
    by injection Heq.
  - done.
  - constructor.
  - simpl. set_solver.
  - intros i w k n Hw. by rewrite lookup_nil in Hw.
  - constructor.
Qed.

Lemma elem_of_concat_take (l : list (list string)) i x :
  x ∈ concat (take i l) → ∃ j w, (j < i)%nat ∧ l !! j = Some w ∧ x ∈ w.
Proof.
  revert i. induction l as [|w l IH]; intros [|i]; simpl; intros Hx;
    try (by apply elem_of_nil in Hx).
  apply elem_of_app in Hx as [Hx|Hx].
  - exists 0%nat, w. split; [lia|done].
  - destruct (IH i Hx) as (j & w' & Hj & Hl & Hw). exists (S j), w'.
    split; [lia|done].
Qed.

(** What [buildDAG] yields on a decomposition with distinct identifiers
    whose dependencies refer to earlier tasks. *)
Lemma buildDAG_inv (decomposition : Decomposition.t) :
  NoDup (map Task.id (Decomposition.tasks decomposition)) →
  deps_refer_to_earlier_tasks (Decomposition.tasks decomposition) →
  ∃ dag completed,
    DAGScheduler.buildDAG decomposition = Some dag
    ∧ waves_inv (Decomposition.tasks decomposition) (DAG.nodes dag) completed (DAG.waves dag)
    ∧ concat (DAG.waves dag) ≡ₚ OMap.keys (DAG.nodes dag).
Proof.
  intros Hnd Hearlier. unfold DAGScheduler.buildDAG, DAGScheduler.computeWaves.
  set (tasks := Decomposition.tasks decomposition) in *.
  set (nodes := DAGScheduler.linkDependents tasks (DAGScheduler.makeNodes tasks)).
  assert (List.length nodes - size (∅ : gset string) < S (OMap.size nodes))%nat as Hfuel
    by (unfold OMap.size; lia).
  destruct (computeWaves_loop_inv (waves_inv tasks)
              (fun n c w H => inv_wf _ _ _ _ H) (waves_inv_step tasks)
              (S (OMap.size nodes)) nodes ∅ [] (waves_inv_init tasks Hnd) Hfuel)
    as (nodes' & completed' & waves' & -> & Hinv & Hexit).
  exists (DAG.mk nodes' waves'), completed'. simpl. split; [done|]. split; [done|].
  assert (List.length nodes' ≤ size completed')%nat as Hfull.
  { destruct Hexit as [?|Hnil]; [done|].
    destruct (decide (size completed' < List.length nodes')%nat) as [Hlt|?]; [|lia].
    by destruct (waves_inv_progress tasks nodes' completed' waves' Hearlier Hinv Hlt). }
  destruct Hinv as [Hwf Hfr Hpend Hcomp Hndw Hkeys Hdeps Hne].
  apply submseteq_length_Permutation.
  - by apply NoDup_submseteq.
  - rewrite Hcomp, size_list_to_set in Hfull by done.
    unfold OMap.keys. by rewrite length_map.
Qed.

Lemma frame_keys tasks nodes :
  map frame nodes = map frame_of_task tasks → OMap.keys nodes = map Task.id tasks.
Proof.
  intros Hfr. unfold OMap.keys.
  transitivity (map (fun x : string * Task.t * gset string => x.1.1) (map frame nodes)).
  - rewrite map_map. by apply map_ext.
  - rewrite Hfr, map_map. by apply map_ext.
Qed.

(** Claim C2.  For a decomposition whose task identifiers are distinct and
    whose [dependsOn] identifiers refer to earlier tasks, [buildDAG] returns
    a DAG with one node per task; the waves, flattened, have as many entries
    as there are nodes and list every node exactly once; and every
    dependency of a node of wave [i] lies in a wave of index less than [i]. *)
Theorem buildDAG_waves (decomposition : Decomposition.t) :
  NoDup (map Task.id (Decomposition.tasks decomposition)) →
  deps_refer_to_earlier_tasks (Decomposition.tasks decomposition) →
  ∃ dag,
    DAGScheduler.buildDAG decomposition = Some dag
    ∧ OMap.keys (DAG.nodes dag) = map Task.id (Decomposition.tasks decomposition)
    ∧ List.length (concat (DAG.waves dag)) = OMap.size (DAG.nodes dag)
    ∧ NoDup (OMap.keys (DAG.nodes dag))
    ∧ concat (DAG.waves dag) ≡ₚ OMap.keys (DAG.nodes dag)
    ∧ (∀ i w k node dep,
         DAG.waves dag !! i = Some w → k ∈ w →
         OMap.get k (DAG.nodes dag) = Some node → dep ∈ Node.dependsOn node →
         ∃ j w', (j < i)%nat ∧ DAG.waves dag !! j = Some w' ∧ dep ∈ w').
Proof.
  intros Hnd Hearlier.
  destruct (buildDAG_inv decomposition Hnd Hearlier) as (dag & completed & Hdag & Hinv & Hperm).
  exists dag. split; [done|].
  destruct Hinv as [Hwf Hfr Hpend Hcomp Hndw Hkeys Hdeps Hne].
  split; [by apply frame_keys|]. split; [|split; [apply Hwf|split; [done|]]].
  - rewrite Hperm. unfold OMap.keys, OMap.size. by rewrite length_map.
  - intros i w k node dep Hw Hk Hget Hdep.
    apply elem_of_concat_take.
    apply omap_get_Some_elem in Hget.
    specialize (Hdeps i w k node Hw Hk Hget dep Hdep).
    by apply elem_of_list_to_set in Hdeps.
Qed.

Lemma buildDAG_waves_witness :
  ∃ dag,
    DAGScheduler.buildDAG chain2 = Some dag
    ∧ concat (DAG.waves dag) ≡ₚ OMap.keys (DAG.nodes dag)
    ∧ OMap.keys (DAG.nodes dag) = ["t1"; "t2"].
Proof.
  assert (NoDup (map Task.id (Decomposition.tasks chain2))) as Hnd.
  { apply (bool_decide_unpack _). by vm_compute. }
  assert (deps_refer_to_earlier_tasks (Decomposition.tasks chain2)) as Hearlier.
  { intros [|[|i]] t d Ht Hd; simpl in Ht; try done; injection Ht as <-; simpl in Hd.
    - by apply elem_of_nil in Hd.
    - apply list_elem_of_singleton in Hd as ->.
      eexists 0%nat, _. split; [lia|]. split; reflexivity. }
  pose proof (buildDAG_waves chain2 Hnd Hearlier) as H.
  destruct H as (dag & H1 & H2 & _ & _ & H5 & _).
  exists dag. exact (conj H1 (conj H5 H2)).
Defined.


(** ** The wave scheduler *)

(** *** The scheduler never skips *)

Lemma runNode_settled assignments pool i ref st st' r :
  DAGScheduler.runNode assignments pool i ref st = (st', Some r) → settled r.
Proof.
  unfold DAGScheduler.runNode, settled.
  destruct (OMap.get ref (DAGScheduler.store st)) as [node|]; [|done].
  destruct (pool _); intros [= <- <-]; simpl; auto.
Qed.

Lemma runWave_settled assignments pool i wave : ∀ st results st' results',
  Forall settled results →
  fold_left
    (fun '(st, results) ref =>
       match DAGScheduler.runNode assignments pool i ref st with
       | (st', Some r) => (st', results ++ [r])
       | (st', None) => (st', results)
       end)
    wave (st, results) = (st', results') →
  Forall settled results'.
Proof.
  induction wave as [|ref wave IH]; intros st results st' results' Hres; simpl.
  - by intros [= <- <-].
  - destruct (DAGScheduler.runNode assignments pool i ref st) as [st1 [r|]] eqn:Hnode.
    + apply IH. apply Forall_app. split; [done|].
      constructor; [|constructor]. by eapply runNode_settled.
    + by apply IH.
Qed.

Lemma runWaves_settled assignments pool total waves : ∀ i st allResults st' results',
  Forall settled allResults →
  DAGScheduler.runWaves assignments pool total i waves st allResults = (st', results') →
  Forall settled results'.
Proof.
  induction waves as [|wave waves IH]; intros i st allResults st' results' Hall; simpl.
  - by intros [= <- <-].
  - destruct (DAGScheduler.runWave assignments pool i wave st) as [st1 waveResults] eqn:Hwave.
    apply IH. apply Forall_app. split; [done|].
    unfold DAGScheduler.runWave in Hwave. by eapply runWave_settled in Hwave.
Qed.

(** Whatever the graph and whatever the workers do, no result of [execute]
    has the status [skipped]. *)
Lemma execute_never_skips dag allocation pool :
  Forall (fun r => TaskResult.status r ≠ skipped)
         (ExecutionResult.results (DAGScheduler.execute dag allocation pool).2).
Proof.
  unfold DAGScheduler.execute.
  destruct (DAGScheduler.runWaves _ _ _ _ _ _ _) as [st results] eqn:Hrun. simpl.
  apply runWaves_settled in Hrun; [|constructor].
  eapply Forall_impl; [exact Hrun|]. intros r [H|H]; rewrite H; discriminate.
Qed.

Lemma execute_waves dag allocation pool :
  ExecutionResult.waves (DAGScheduler.execute dag allocation pool).2
  = List.length (DAG.waves dag).
Proof.
  unfold DAGScheduler.execute.
  by destruct (DAGScheduler.runWaves _ _ _ _ _ _ _).
Qed.

(** *** A failed dependency *)

(** Claim C1, evaluated where it fails, with a worker that fails on [t1].
    On the DAG that [buildDAG] makes of the chain [t1 -> t2] every node is
    [scheduled], none is [pending], and the dependent [t2] is handed to the
    worker pool and completes.  On a DAG of the chain [t1 -> t2 -> t3] whose
    nodes are still [pending], [skipDependents] marks the direct dependent
    [t2] and leaves [t3] pending; and [execute] hands the skipped [t2] to
    the worker pool all the same: its result is [completed], with the
    duration measured and the output of the worker. *)
Theorem failed_dependency_still_dispatched :
  (* the DAG of [buildDAG]: no node is [pending] any more *)
  (∃ dag,
     DAGScheduler.buildDAG chain2 = Some dag
     ∧ DAG.waves dag = [["t1"]; ["t2"]]
     ∧ map (fun kn => (kn.1, Node.status kn.2)) (DAG.nodes dag)
       = [("t1", scheduled); ("t2", scheduled)]
     ∧ let '(st, result) := DAGScheduler.execute dag chain2_allocation fails_on_t1 in
       map (fun r => (TaskResult.taskId r, TaskResult.status r,
                      TaskResult.duration r, TaskResult.output r))
           (ExecutionResult.results result)
       = [("t1", failed, 0%nat, None); ("t2", completed, 7%nat, Some "done")]
       ∧ map (fun job => Task.id (Job.task job)) (DAGScheduler.dispatched st)
         = ["t1"; "t2"])
  (* a DAG whose nodes are [pending]: only the direct dependent is marked *)
  ∧ map (fun kn => (kn.1, Node.status kn.2))
        (DAGScheduler.skipDependents (DAG.nodes chain3_pending) ["t1"])
    = [("t1", pending); ("t2", skipped); ("t3", pending)]
  (* and the node marked [skipped] is dispatched all the same *)
  ∧ let '(st, result) :=
      DAGScheduler.execute chain3_pending chain2_allocation fails_on_t1 in
    map (fun r => (TaskResult.taskId r, TaskResult.status r,
                   TaskResult.duration r, TaskResult.output r))
        (ExecutionResult.results result)
    = [("t1", failed, 0%nat, None); ("t2", completed, 7%nat, Some "done");
       ("t3", completed, 7%nat, Some "done")]
    ∧ map (fun job => Task.id (Job.task job)) (DAGScheduler.dispatched st)
      = ["t1"; "t2"; "t3"].
Proof.
  split; [|split; vm_compute; repeat split].
  eexists. split; [vm_compute; reflexivity|]. vm_compute. repeat split.
Qed.

(** *** Secondary pool *)

(** Claim C5, evaluated where it fails.  For the input "research the api"
    the secondary intent is [code], whose cluster is [coding]; the spawner
    asks the registry for the cluster named "code" and finds no agent, where
    the secondary pool of the specification holds the two agents of the
    coding cluster that support the level. *)
Theorem secondary_pool_misses_clusters :
  let parsed := Orchestrator.parseInput "research the api" in
  let intent := IntentClassifier.classify parsed in
  let tasks := TaskDecomposer.decompose (fun _ => "00000000") parsed intent in
  map SecondaryIntent.type (Intent.secondary intent) = ["code"]
  ∧ SpecifiedSpawner.clusterOf "code" = Some "coding"
  ∧ ∃ complexity,
      ComplexityScorer.score tasks = Some complexity
      ∧ Complexity.level complexity = simple
      ∧ AgentSpawner.secondaryAgents (AgentRegistry.new 0) complexity intent = []
      ∧ map Agent.id
          (SpecifiedSpawner.secondaryPool (AgentRegistry.new 0) complexity intent)
        = ["code_agent_v2"; "debugger_v1"].
Proof.
  cbv zeta. split; [vm_compute; reflexivity|]. split; [vm_compute; reflexivity|].
  eexists. split; [vm_compute; reflexivity|]. vm_compute. repeat split.
Qed.

(** *** The orchestrator *)

Lemma execute_success env input o complexity :
  let parsed := Orchestrator.parseInput input in
  let intent := IntentClassifier.classify parsed in
  let tasks := TaskDecomposer.decompose (Env.uuid env) parsed intent in
  let allocation := AgentSpawner.allocate (Orchestrator.registry o) tasks complexity intent in
  ComplexityScorer.score tasks = Some complexity →
  ∃ summary pipeline metrics o' dag,
    Orchestrator.execute env input o = (Success summary pipeline metrics, o')
    ∧ DAGScheduler.buildDAG tasks = Some dag
    ∧ Pipeline.intent pipeline = Some intent
    ∧ Pipeline.decomposition pipeline = Some tasks
    ∧ Pipeline.complexity pipeline = Some complexity
    ∧ Pipeline.agents pipeline = Some allocation
    ∧ Pipeline.execution pipeline
      = Some (DAGScheduler.execute dag allocation (Env.pool env)).2.
Proof.
  intros parsed intent tasks allocation Hscore.
  unfold Orchestrator.execute. fold parsed. fold intent. fold tasks. rewrite Hscore.
  fold allocation.
  destruct (buildDAG_total tasks) as [dag Hdag]. rewrite Hdag.
  destruct (DAGScheduler.execute dag allocation (Env.pool env))
    as [st executionResult] eqn:Hexec.
  destruct (ResultAggregator.aggregate _ _) as [summary details].
  destruct (LearningSystem.update _ _ _ _ _ _ _ _ _) as [memory' queue'].
  eexists _, _, _, _, dag. repeat split; try reflexivity.
  subst allocation. simpl. by rewrite Hexec.
Qed.


(** ** Confidence scores *)

Section Numbers.
Local Open Scope Q_scope.

Lemma JS_min_spec x y : JS.min x y <= x ∧ JS.min x y <= y
                        ∧ (JS.min x y = x ∨ JS.min x y = y).
Proof.
  unfold JS.min. destruct (Qle_bool x y) eqn:E.
  - apply Qle_bool_iff in E. split; [lra|]. split; [lra|]. by left.
  - assert (¬ x <= y) by (intros H; apply Qle_bool_iff in H; congruence).
    split; [lra|]. split; [lra|]. by right.
Qed.

Lemma JS_max_spec x y : x <= JS.max x y ∧ y <= JS.max x y
                        ∧ (JS.max x y = x ∨ JS.max x y = y).
Proof.
  unfold JS.max. destruct (Qle_bool x y) eqn:E.
  - apply Qle_bool_iff in E. split; [lra|]. split; [lra|]. by right.
  - assert (¬ x <= y) by (intros H; apply Qle_bool_iff in H; congruence).
    split; [lra|]. split; [lra|]. by left.
Qed.

Lemma JS_lt_spec x y : JS.lt x y = true ↔ x < y.
Proof.
  unfold JS.lt. rewrite negb_true_iff. split.
  - intros E. apply Qnot_le_lt. intros H. apply Qle_bool_iff in H. congruence.
  - intros H. destruct (Qle_bool y x) eqn:E; [|done].
    apply Qle_bool_iff in E. lra.
Qed.

Lemma boost_bounded c : bounded c → bounded (JS.min 1.0 (c + 0.02)).
Proof.
  intros [H1 H2]. destruct (JS_min_spec 1.0 (c + 0.02)) as (Ha & Hb & [E|E]);
    rewrite E in Ha, Hb |- *; unfold bounded; split; lra.
Qed.

Lemma penalty_bounded c : bounded c → bounded (JS.max 0.1 (c - 0.05)).
Proof.
  intros [H1 H2]. destruct (JS_max_spec 0.1 (c - 0.05)) as (Ha & Hb & [E|E]);
    rewrite E in Ha, Hb |- *; unfold bounded; split; lra.
Qed.

Lemma round3_bounded x :
  bounded x → bounded (inject_Z (JS.round (x * 1000)) / 1000).
Proof.
  intros [H1 H2]. unfold JS.round.
  assert (100 <= Qfloor (x * 1000 + (1 # 2)))%Z as Hlo.
  { assert (100 <= x * 1000 + (1 # 2)) as H by lra.
    apply Qfloor_resp_le in H. exact H. }
  assert (Qfloor (x * 1000 + (1 # 2)) <= 1000)%Z as Hhi.
  { assert (x * 1000 + (1 # 2) <= 1000 + (1 # 2)) as H by lra.
    apply Qfloor_resp_le in H. exact H. }
  set (k := Qfloor (x * 1000 + (1 # 2))) in *.
  assert (inject_Z 100 <= inject_Z k) as Hlo' by (by rewrite <- Zle_Qle).
  assert (inject_Z k <= inject_Z 1000) as Hhi' by (by rewrite <- Zle_Qle).
  change (inject_Z 100) with 100 in Hlo'. change (inject_Z 1000) with 1000 in Hhi'.
  unfold bounded. split.
  - apply Qle_shift_div_l; [reflexivity|]. lra.
  - apply Qle_shift_div_r; [reflexivity|]. lra.
Qed.

Lemma clamp_bounded c delta :
  bounded (JS.max LearningSystem.minConfidence
             (JS.min LearningSystem.maxConfidence (c + delta))).
Proof.
  unfold LearningSystem.minConfidence, LearningSystem.maxConfidence.
  set (y := c + delta).
  destruct (JS_min_spec 1.0 y) as (Ha & Hb & _).
  destruct (JS_max_spec 0.1 (JS.min 1.0 y)) as (Hc & Hd & [E|E]);
    rewrite E in Hc, Hd |- *; unfold bounded; split; lra.
Qed.
End Numbers.



Lemma Forall_values_set {V} (P : V → Prop) k v (m : omap V) :
  Forall P (OMap.values m) → P v → Forall P (OMap.values (OMap.set k v m)).
Proof.
  unfold OMap.values. intros Hm Hv. induction m as [|[k' v'] m IH]; simpl in *.
  - by repeat constructor.
  - apply Forall_cons in Hm as [H1 H2].
    destruct (String.eqb_spec k k'); simpl; constructor; auto.
Qed.

Lemma Forall_values_get {V} (P : V → Prop) k v (m : omap V) :
  Forall P (OMap.values m) → OMap.get k m = Some v → P v.
Proof.
  unfold OMap.values. intros Hm Hget. apply omap_get_Some_elem in Hget.
  rewrite Forall_forall in Hm. apply Hm. apply list_elem_of_fmap. by exists (k, v).
Qed.

Lemma new_bounded now : confidence_bounded (AgentRegistry.new now).
Proof.
  unfold confidence_bounded.
  repeat (apply Forall_cons; split; [split; discriminate|]). apply Forall_nil_2.
Qed.

Lemma updateAgentMetrics_bounded agentId metrics r :
  confidence_bounded r →
  confidence_bounded (AgentRegistry.updateAgentMetrics agentId metrics r).
Proof.
  intros Hr. unfold AgentRegistry.updateAgentMetrics.
  destruct (OMap.get agentId (AgentRegistry.agents r)) as [agent|] eqn:Hget; [|done].
  pose proof (Forall_values_get _ _ _ _ Hr Hget) as Hb.
  unfold confidence_bounded. simpl. apply Forall_values_set; [done|]. simpl.
  destruct (_ && _).
  - by apply boost_bounded.
  - destruct (Metrics.failed metrics); [by apply penalty_bounded|done].
Qed.

Lemma applyUpdate_bounded r u :
  confidence_bounded r → confidence_bounded (LearningSystem.applyUpdate r u).
Proof.
  intros Hr. unfold LearningSystem.applyUpdate, AgentRegistry.getAgent.
  destruct (OMap.get _ _) as [agent|] eqn:Hget; [|done].
  unfold confidence_bounded. simpl. apply Forall_values_set; [done|]. simpl.
  apply round3_bounded, clamp_bounded.
Qed.

Lemma applyUpdates_bounded r queue :
  confidence_bounded r → confidence_bounded (LearningSystem.applyUpdates r queue).1.1.
Proof.
  unfold LearningSystem.applyUpdates. simpl. revert r.
  induction queue as [|u queue IH]; intros r Hr; simpl; [done|].
  by apply IH, applyUpdate_bounded.
Qed.

Lemma run_bounded now calls : confidence_bounded (RegistryCalls.run now calls).1.
Proof.
  unfold RegistryCalls.run.
  assert (confidence_bounded (AgentRegistry.new now, [] : list ConfidenceUpdate.t).1) as H
    by apply new_bounded.
  revert H. generalize (AgentRegistry.new now, [] : list ConfidenceUpdate.t).
  induction calls as [|c calls IH]; intros st Hst; simpl; [done|].
  apply IH. destruct c as [agentId metrics|updates|]; simpl.
  - by apply updateAgentMetrics_bounded.
  - done.
  - exact (applyUpdates_bounded st.1 st.2 Hst).
Qed.

(** Claim C6, amended.  The freshly constructed registry holds twelve
    agents, all with a confidence score between 0.1 and 1.0; and after any
    sequence of [updateAgentMetrics] calls, of additions of arbitrary
    updates to the queue and of [applyUpdates] calls on it, the confidence
    score of every agent lies between 0.1 and 1.0. *)
Theorem confidence_always_bounded now calls :
  List.length (OMap.values (AgentRegistry.agents (AgentRegistry.new now))) = 12%nat
  ∧ Forall (fun a => (0.1 <= Agent.confidenceScore a ∧ Agent.confidenceScore a <= 1.0)%Q)
           (OMap.values (AgentRegistry.agents (AgentRegistry.new now)))
  ∧ Forall (fun a => (0.1 <= Agent.confidenceScore a ∧ Agent.confidenceScore a <= 1.0)%Q)
           (OMap.values (AgentRegistry.agents (RegistryCalls.run now calls).1)).
Proof.
  split; [reflexivity|]. split; [apply new_bounded|apply run_bounded].
Qed.

(** The fresh registry holds twelve agents, not eleven. *)
Lemma registry_not_eleven :
  map Agent.id (OMap.values (AgentRegistry.agents (AgentRegistry.new 0)))
  = ["researcher_v1"; "planner_v1"; "code_agent_v2"; "code_reviewer_v1";
     "debugger_v1"; "devops_agent_v1"; "infra_agent_v1"; "frontend_agent_v1";
     "designer_agent_v1"; "test_agent_v1"; "performance_agent_v1";
     "evaluator_agent_v1"]
  ∧ List.length (OMap.values (AgentRegistry.agents (AgentRegistry.new 0))) ≠ 11%nat.
Proof. split; [reflexivity|]. vm_compute. lia. Qed.

(** In exact arithmetic the test of the code, which compares the duration
    with the average already updated, agrees with the comparison with the
    average held before the call; in binary64 it does not, as the
    counterexample of this section shows. *)
Lemma compare_with_updated_average (d a : Q) :
  JS.lt d (a * (1 - AgentRegistry.alpha) + d * AgentRegistry.alpha) = JS.lt d a.
Proof.
  apply eq_true_iff_eq. rewrite !JS_lt_spec. unfold AgentRegistry.alpha. split; lra.
Qed.

Section MetricsBinary64.
Import PrimFloat.

(** Claim C7, as corrected.  [updateAgentMetrics] on an existing agent, on
    binary64 numbers: the average becomes
    [average * (1 - 0.3) + duration * 0.3], and the confidence becomes
    [min 1.0 (confidence + 0.02)] when the execution succeeded and its
    duration is less than that updated average,
    [max 0.1 (confidence - 0.05)] when it failed, and is unchanged
    otherwise; the other agents are left as they are. *)
Theorem updateAgentMetrics_confidence agents agentId metrics agent :
  OMap.get agentId agents = Some agent →
  let updated :=
    (Binary64.Agent.avgExecutionTime agent * (1 - 0.3)
     + Binary64.Metrics.duration metrics * 0.3)%float in
  (∃ agent',
     OMap.get agentId (Binary64.updateAgentMetrics agentId metrics agents)
     = Some agent'
     ∧ Binary64.Agent.avgExecutionTime agent' = updated
     ∧ Binary64.Agent.confidenceScore agent' =
       (if negb (Binary64.Metrics.failed metrics)
           && ltb (Binary64.Metrics.duration metrics) updated
        then Binary64.min 1.0 (Binary64.Agent.confidenceScore agent + 0.02)%float
        else if Binary64.Metrics.failed metrics
             then Binary64.max 0.1 (Binary64.Agent.confidenceScore agent - 0.05)%float
             else Binary64.Agent.confidenceScore agent))
  ∧ ∀ other, other ≠ agentId →
      OMap.get other (Binary64.updateAgentMetrics agentId metrics agents)
      = OMap.get other agents.
Proof.
  intros Hget updated. unfold Binary64.updateAgentMetrics. rewrite Hget. split.
  - eexists. split; [apply omap_get_set_eq|]. by split.
  - intros other Hne. by apply omap_get_set_ne.
Qed.

Lemma updateAgentMetrics_confidence_witness :
  ∃ agent',
    OMap.get "researcher_v1"
      (Binary64.updateAgentMetrics "researcher_v1" (Binary64.Metrics.mk 1.5 false)
         (Binary64.researcher 0))
    = Some agent'
    ∧ Binary64.Agent.confidenceScore agent' = 0.87%float.
Proof.
  destruct (updateAgentMetrics_confidence (Binary64.researcher 0) "researcher_v1"
              (Binary64.Metrics.mk 1.5 false)
              (Binary64.Agent.mk "researcher_v1" "research_analyst" "research"
                 ["web-search"; "documentation"; "summarization"; "comparison"]
                 [simple; medium; complex] 0.85 2.0 0 0 0) eq_refl)
    as [(agent' & H1 & _ & H2) _].
  exists agent'. split; [exact H1|]. rewrite H2. vm_compute. reflexivity.
Defined.

(** A successful execution whose duration is below the average that the
    agent holds when the call begins, and that earns no boost.  First the
    researcher as registered (average 2.0) and the duration
    1.9999999999999998: the updated average rounds to the duration itself.
    Then the researcher after ninety-eight successful executions of one
    millisecond and a failed one, and one more execution of one
    millisecond: the average held, 1.0000000000000002, is above the
    duration, the updated average is 1. *)
Lemma below_previous_average_unrewarded :
  (let agents := Binary64.researcher 0 in
   let metrics := Binary64.Metrics.mk Binary64.below_two false in
   ∃ agent agent',
     OMap.get "researcher_v1" agents = Some agent
     ∧ OMap.get "researcher_v1"
         (Binary64.updateAgentMetrics "researcher_v1" metrics agents) = Some agent'
     ∧ ltb (Binary64.Metrics.duration metrics)
           (Binary64.Agent.avgExecutionTime agent) = true
     ∧ Binary64.Agent.confidenceScore agent' = Binary64.Agent.confidenceScore agent
     ∧ Binary64.Agent.confidenceScore agent = 0.85%float
     ∧ Binary64.min 1.0 (Binary64.Agent.confidenceScore agent + 0.02)%float
       = 0.87%float)
  ∧ (let agents :=
       Binary64.updateAll "researcher_v1" Binary64.warm_up (Binary64.researcher 0) in
     let metrics := Binary64.Metrics.mk 1 false in
     ∃ agent agent',
       OMap.get "researcher_v1" agents = Some agent
       ∧ OMap.get "researcher_v1"
           (Binary64.updateAgentMetrics "researcher_v1" metrics agents) = Some agent'
       ∧ ltb (Binary64.Metrics.duration metrics)
             (Binary64.Agent.avgExecutionTime agent) = true
       ∧ Binary64.Agent.confidenceScore agent' = Binary64.Agent.confidenceScore agent
       ∧ Binary64.Agent.confidenceScore agent = 0.95%float
       ∧ Binary64.min 1.0 (Binary64.Agent.confidenceScore agent + 0.02)%float
         = 0.97%float).
Proof.
  split; vm_compute; eexists _, _; repeat split; reflexivity.
Qed.
End MetricsBinary64.


(** ** The performance log *)

Lemma recordPerformance_log now entry m :
  MemorySystem.performanceMemory (MemorySystem.recordPerformance now entry m)
  = let log := MemorySystem.performanceMemory m ++ [MemorySystem.stamp now entry] in
    if (1000 <? List.length log)%nat then JS.slice_last 500 log else log.
Proof. reflexivity. Qed.

Lemma recordPerformance_length now entry m :
  (List.length (MemorySystem.performanceMemory m) ≤ 1000)%nat →
  (List.length (MemorySystem.performanceMemory (MemorySystem.recordPerformance now entry m))
   ≤ 1000)%nat.
Proof.
  intros Hm. rewrite recordPerformance_log. cbv zeta.
  destruct (Nat.ltb_spec 1000 (List.length (MemorySystem.performanceMemory m ++ [MemorySystem.stamp now entry])))
    as [Hlt|Hge]; [|done].
  unfold JS.slice_last. rewrite length_skipn. lia.
Qed.

Lemma recordAll_length calls :
  (List.length (MemorySystem.performanceMemory (recordAll calls)) ≤ 1000)%nat.
Proof.
  unfold recordAll.
  assert (List.length (MemorySystem.performanceMemory MemorySystem.new) ≤ 1000)%nat as H
    by (simpl; lia).
  revert H. generalize MemorySystem.new.
  induction calls as [|[now entry] calls IH]; intros m Hm; simpl; [done|].
  by apply IH, recordPerformance_length.
Qed.

(** Claim C8.  After any sequence of [recordPerformance] calls the log has
    at most 1000 entries, and so it has after one more call; when that call
    pushes the log past 1000 entries, what is kept is the last 500 entries
    of the log with the new entry at its end. *)
Theorem performance_log_capped (calls : list (nat * PerformanceRecord.t))
    (now : nat) (entry : PerformanceRecord.t) :
  let before := MemorySystem.performanceMemory (recordAll calls) in
  let after :=
    MemorySystem.performanceMemory
      (MemorySystem.recordPerformance now entry (recordAll calls)) in
  (List.length before ≤ 1000)%nat
  ∧ (List.length after ≤ 1000)%nat
  ∧ ((1000 < List.length (before ++ [MemorySystem.stamp now entry]))%nat →
     List.length after = 500%nat
     ∧ ∃ oldest, before ++ [MemorySystem.stamp now entry] = oldest ++ after).
Proof.
  intros before after. split; [apply recordAll_length|].
  split; [apply recordPerformance_length, recordAll_length|].
  intros Hover. subst after. rewrite recordPerformance_log. cbv zeta.
  fold before. destruct (Nat.ltb_spec 1000 (List.length (before ++ [MemorySystem.stamp now entry])))
    as [Hlt|Hge]; [|lia].
  unfold JS.slice_last. split.
  - rewrite length_skipn. lia.
  - exists (take (List.length (before ++ [MemorySystem.stamp now entry]) - 500)
                 (before ++ [MemorySystem.stamp now entry])).
    by rewrite take_drop.
Qed.

Lemma performance_log_capped_witness :
  List.length
    (MemorySystem.performanceMemory
       (MemorySystem.recordPerformance 7 sample_entry
          (recordAll (repeat (3, sample_entry) 1000)))) = 500%nat.
Proof.
  apply (performance_log_capped (repeat (3, sample_entry) 1000) 7 sample_entry).
  vm_compute. lia.
Defined.


(** ** The agent spawner *)

Lemma assignToTask_nil task selected complexity :
  AgentSpawner.assignToTask task selected complexity = [] ↔ selected = [].
Proof.
  unfold AgentSpawner.assignToTask. split.
  - destruct (List.filter _ selected) as [|a l] eqn:Hf; [|done].
    destruct selected; [done|]. discriminate.
  - by intros ->.
Qed.

Lemma assignments_lookup (f : Task.t → list string) tasks :
  ∀ (m : gmap string (list string)) task,
    task ∈ tasks →
    ∃ task', task' ∈ tasks ∧ Task.id task' = Task.id task
             ∧ fold_left (fun m t => <[Task.id t := f t]> m) tasks m !! Task.id task
               = Some (f task').
Proof.
  induction tasks as [|t tasks IH] using rev_ind; intros m task Hin.
  - by apply elem_of_nil in Hin.
  - rewrite fold_left_app. simpl.
    destruct (decide (Task.id t = Task.id task)) as [Heq|Hne].
    + exists t. split; [set_solver|]. split; [done|]. rewrite Heq. apply lookup_insert_eq.
    + rewrite lookup_insert_ne by done.
      apply elem_of_app in Hin as [Hin|Hin].
      * destruct (IH m task Hin) as (task' & ? & ? & ?). exists task'. set_solver.
      * apply list_elem_of_singleton in Hin. congruence.
Qed.

(** Claim C3, amended.  Every task identifier of the decomposition is a key
    of [assignments]; the list it is mapped to is empty exactly when the
    selected agent set is empty.  ([allocate] always returns an allocation:
    with no agent selected, every task is mapped to the empty list.) *)
Theorem allocate_assignments registry decomposition complexity intent :
  let allocation := AgentSpawner.allocate registry decomposition complexity intent in
  Forall
    (fun task =>
       ∃ agentIds,
         Allocation.assignments allocation !! Task.id task = Some agentIds
         ∧ (agentIds = [] ↔ Allocation.agents allocation = []))
    (Decomposition.tasks decomposition).
Proof.
  intros allocation. apply Forall_forall. intros task Hin.
  unfold allocation, AgentSpawner.allocate. simpl.
  set (selected := AgentSpawner.selectAgents _ _ _).
  destruct (assignments_lookup
              (fun t => map Agent.id (AgentSpawner.assignToTask t selected complexity))
              (Decomposition.tasks decomposition) ∅ task Hin)
    as (task' & _ & _ & Hlook).
  eexists. split; [exact Hlook|].
  rewrite <- (assignToTask_nil task' selected complexity).
  split; [apply map_eq_nil|by intros ->].
Qed.

(** For the input "deploy" (intent [devops], level [simple]) no agent of the
    fresh registry is eligible; [allocate] returns an allocation all the
    same, and the task is not mapped to a non-empty list. *)
Lemma allocate_empty_counterexample :
  let parsed := Orchestrator.parseInput "deploy" in
  let intent := IntentClassifier.classify parsed in
  let tasks := TaskDecomposer.decompose sample_uuid parsed intent in
  ∃ complexity,
    ComplexityScorer.score tasks = Some complexity
    ∧ map Task.id (Decomposition.tasks tasks) = ["a0000000"]
    ∧ let allocation :=
        AgentSpawner.allocate (AgentRegistry.new 0) tasks complexity intent in
      Allocation.agents allocation = []
      ∧ Allocation.assignments allocation !! "a0000000" = Some []
      ∧ ¬ (∃ agentIds,
             Allocation.assignments allocation !! "a0000000" = Some agentIds
             ∧ agentIds ≠ []).
Proof.
  cbv zeta. eexists. split; [vm_compute; reflexivity|]. vm_compute.
  split; [reflexivity|]. split; [reflexivity|]. split; [reflexivity|].
  intros (agentIds & Heq & Hne). injection Heq as <-. by apply Hne.
Qed.


(** ** Blank inputs *)

Lemma space_cases c :
  JS.is_space c = true →
  c = "009"%char ∨ c = "010"%char ∨ c = "011"%char ∨ c = "012"%char
  ∨ c = "013"%char ∨ c = " "%char ∨ c = "160"%char.
Proof.
  destruct c as [[] [] [] [] [] [] [] []]; intros H; try discriminate H; tauto.
Qed.

Lemma lower_char_space c : JS.is_space c = true → JS.lower_char c = c.
Proof.
  intros H. destruct (space_cases c H) as [->|[->|[->|[->|[->|[->| ->]]]]]]; reflexivity.
Qed.

Lemma toLowerCase_blank s : JS.blank s = true → JS.toLowerCase s = s.
Proof.
  induction s as [|c s IH]; simpl; [done|].
  intros [Hc Hs]%andb_true_iff. by rewrite lower_char_space, IH.
Qed.

Lemma includes_blank s kw :
  JS.blank s = true → starts_with_ink kw = true → JS.includes s kw = false.
Proof.
  destruct kw as [|k kw]; [done|]. simpl. intros Hs Hk%negb_true_iff.
  induction s as [|c s IH]; simpl; [done|].
  apply andb_true_iff in Hs as [Hc Hs].
  destruct (Ascii.eqb_spec k c) as [->|_]; [congruence|]. simpl. by apply IH.
Qed.

Lemma scoreOf_blank s entry :
  JS.blank s = true →
  forallb starts_with_ink (IntentClassifier.Pattern.keywords entry.2) = true →
  IntentClassifier.scoreOf s entry = None.
Proof.
  intros Hs Hk. destruct entry as [type pattern]. unfold IntentClassifier.scoreOf.
  simpl in *.
  assert (List.filter (fun kw => JS.includes s kw)
            (IntentClassifier.Pattern.keywords pattern) = []) as ->; [|done].
  induction (IntentClassifier.Pattern.keywords pattern) as [|kw kws IH]; simpl; [done|].
  simpl in Hk. apply andb_true_iff in Hk as [H1 H2].
  rewrite includes_blank by done. by apply IH.
Qed.

Lemma collectScores_blank s ps :
  JS.blank s = true →
  forallb (fun entry => forallb starts_with_ink (IntentClassifier.Pattern.keywords entry.2)) ps
  = true →
  IntentClassifier.collectScores s ps = [].
Proof.
  intros Hs. induction ps as [|entry ps IH]; simpl; [done|].
  intros [H1 H2]%andb_true_iff. rewrite scoreOf_blank by done. by apply IH.
Qed.

Lemma classify_blank s :
  JS.blank s = true →
  IntentClassifier.classify (Orchestrator.parseInput s) = IntentClassifier.general.
Proof.
  intros Hs. unfold IntentClassifier.classify, Orchestrator.parseInput.
  cbn [Parsed.raw]. rewrite toLowerCase_blank by done.
  rewrite collectScores_blank; [done|done|reflexivity].
Qed.

Lemma trimStart_blank s : JS.blank s = true → JS.trimStart s = "".
Proof.
  induction s as [|c s IH]; simpl; [done|].
  intros [Hc Hs]%andb_true_iff. rewrite Hc. by apply IH.
Qed.

Lemma trim_blank s : JS.blank s = true → JS.trim s = "".
Proof. intros Hs. unfold JS.trim. by rewrite trimStart_blank. Qed.

Lemma match_at_space prev c s :
  JS.is_space c = true → TaskDecomposer.match_at prev (String c s) = None.
Proof.
  intros H. unfold TaskDecomposer.match_at.
  destruct (space_cases c H) as [->|[->|[->|[->|[->|[->| ->]]]]]];
    simpl; by destruct (TaskDecomposer.boundary _ _).
Qed.

Lemma split_go_blank s : ∀ prev cur,
  JS.blank s = true →
  TaskDecomposer.split_go 0 prev cur s
  = [Some (JS.rev_string EmptyString (JS.rev_string cur s))].
Proof.
  induction s as [|c s IH]; intros prev cur; [done|].
  intros [Hc Hs]%andb_true_iff.
  change (TaskDecomposer.split_go 0 prev cur (String c s))
    with (match TaskDecomposer.match_at prev (String c s) with
          | Some (capture, len) =>
              Some (JS.rev_string EmptyString cur) :: capture
                :: TaskDecomposer.split_go (len - 1) (Some c) EmptyString s
          | None => TaskDecomposer.split_go 0 (Some c) (String c cur) s
          end).
  rewrite match_at_space by done. by rewrite IH.
Qed.

Lemma append_empty s : String.append s "" = s.
Proof.
  induction s as [|c s IH]; [done|].
  change (String c (String.append s "") = String c s). by rewrite IH.
Qed.

Lemma rev_string_rev_string s : ∀ a b,
  JS.rev_string a (JS.rev_string b s) = JS.rev_string (String.append s a) b.
Proof.
  induction s as [|c s IH]; intros a b; [done|].
  change (JS.rev_string a (JS.rev_string (String c b) s)
          = JS.rev_string (String c (String.append s a)) b).
  by rewrite IH.
Qed.

Lemma rev_string_involutive s :
  JS.rev_string EmptyString (JS.rev_string EmptyString s) = s.
Proof. rewrite rev_string_rev_string. simpl. apply append_empty. Qed.

Lemma splitIntoSubtasks_blank s :
  JS.blank s = true → TaskDecomposer.splitIntoSubtasks s = [Subtask.mk s ""].
Proof.
  intros Hs. unfold TaskDecomposer.splitIntoSubtasks, TaskDecomposer.split.
  rewrite split_go_blank by done. simpl. rewrite rev_string_involutive.
  rewrite trim_blank by done. simpl. by rewrite andb_false_r.
Qed.

Lemma split_ws_go_blank s : ∀ cur in_sep,
  JS.blank s = true → (List.length (JS.split_ws_go cur in_sep s) ≤ 2)%nat.
Proof.
  induction s as [|c s IH]; intros cur in_sep; simpl; [lia|].
  intros [Hc Hs]%andb_true_iff. rewrite Hc. destruct in_sep.
  - by apply IH.
  - simpl. clear IH. assert (∀ cur, List.length (JS.split_ws_go cur true s) = 1%nat) as ->; [|lia].
    induction s as [|d s IH]; intros cur'; simpl; [done|].
    simpl in Hs. apply andb_true_iff in Hs as [Hd Hs]. rewrite Hd. by apply IH.
Qed.

Lemma decompose_blank uuid s :
  JS.blank s = true →
  TaskDecomposer.decompose uuid (Orchestrator.parseInput s) IntentClassifier.general
  = Decomposition.mk
      [Task.mk (uuid 0%nat) 0 "" "general" "research" [] pending 1] 1 false.
Proof.
  intros Hs. unfold TaskDecomposer.decompose. simpl.
  rewrite splitIntoSubtasks_blank by done. simpl.
  rewrite trim_blank by done.
  unfold TaskDecomposer.calculatePriority. simpl.
  pose proof (split_ws_go_blank s EmptyString false Hs) as Hlen.
  unfold JS.split_ws.
  destruct (Nat.ltb_spec 10 (List.length (JS.split_ws_go "" false s))); [lia|done].
Qed.


(** ** The third scenario *)

Lemma scenario3_subtasks :
  TaskDecomposer.splitIntoSubtasks scenario3
  = [Subtask.mk "research OAuth" ""; Subtask.mk "build API" "then";
     Subtask.mk "deploy to production" "then"].
Proof. vm_compute. reflexivity. Qed.

Lemma scenario3_intent :
  IntentClassifier.classify (Orchestrator.parseInput scenario3)
  = Intent.mk "code" "coding" (Some "high") (2 # 3) ["build"; "api"]
      [SecondaryIntent.mk "research" (2 # 3); SecondaryIntent.mk "devops" (1 # 3);
       SecondaryIntent.mk "design" (1 # 3)].
Proof. vm_compute. reflexivity. Qed.

Lemma scenario3_decomposition uuid :
  JS.truthy (uuid 0%nat) = true → JS.truthy (uuid 1%nat) = true →
  TaskDecomposer.decompose uuid (Orchestrator.parseInput scenario3)
    (IntentClassifier.classify (Orchestrator.parseInput scenario3))
  = Decomposition.mk (scenario3_tasks (uuid 0%nat) (uuid 1%nat) (uuid 2%nat)) 3 false.
Proof.
  intros H0 H1. rewrite scenario3_intent. unfold TaskDecomposer.decompose.
  cbn [Parsed.raw Orchestrator.parseInput]. rewrite scenario3_subtasks.
  cbn [TaskDecomposer.build Subtask.connector Subtask.text].
  rewrite H0, H1. reflexivity.
Qed.

Section Chain.
Variables a b c : string.
Hypothesis Hab : a ≠ b.
Hypothesis Hac : a ≠ c.
Hypothesis Hbc : b ≠ c.

Lemma eqb_ab : String.eqb a b = false. Proof. by apply String.eqb_neq. Qed.
Lemma eqb_ba : String.eqb b a = false. Proof. by apply String.eqb_neq. Qed.
Lemma eqb_ac : String.eqb a c = false. Proof. by apply String.eqb_neq. Qed.
Lemma eqb_ca : String.eqb c a = false. Proof. by apply String.eqb_neq. Qed.
Lemma eqb_bc : String.eqb b c = false. Proof. by apply String.eqb_neq. Qed.
Lemma eqb_cb : String.eqb c b = false. Proof. by apply String.eqb_neq. Qed.

Lemma scenario3_calculateWaves :
  ComplexityScorer.calculateWaves (scenario3_tasks a b c) = Some 3%nat.
Proof.
  unfold ComplexityScorer.calculateWaves, scenario3_tasks.
  repeat (cbn [fold_left OMap.set OMap.get OMap.values ComplexityScorer.getLevel
               Task.id Task.dependsOn flat_map app List.length map snd
               ComplexityScorer.level_max ComplexityScorer.level_succ Nat.max];
          rewrite ?String.eqb_refl, ?eqb_ab, ?eqb_ba, ?eqb_ac, ?eqb_ca, ?eqb_bc, ?eqb_cb).
  reflexivity.
Qed.

Lemma scenario3_score :
  ∃ complexity,
    ComplexityScorer.score (Decomposition.mk (scenario3_tasks a b c) 3 false)
    = Some complexity
    ∧ (Complexity.score complexity == 7)%Q
    ∧ Complexity.level complexity = medium
    ∧ Complexity.agentCount complexity = 4%Z
    ∧ Complexity.waves complexity = 3%nat.
Proof.
  unfold ComplexityScorer.score. cbn [Decomposition.tasks].
  rewrite scenario3_calculateWaves. vm_compute. eexists. repeat split.
Qed.
End Chain.

Lemma length_concat_nonempty {A} (l : list (list A)) :
  Forall (fun w => w ≠ []) l → (List.length l ≤ List.length (concat l))%nat.
Proof.
  induction 1 as [|w l Hw Hl IH]; simpl; [done|].
  rewrite length_app. destruct w; [done|]. simpl. lia.
Qed.

Lemma elem_of_concat_lookup {A} (l : list (list A)) x :
  x ∈ concat l → ∃ i w, l !! i = Some w ∧ x ∈ w.
Proof.
  induction l as [|w l IH]; simpl; intros Hx; [by apply elem_of_nil in Hx|].
  apply elem_of_app in Hx as [Hx|Hx].
  - by exists 0%nat, w.
  - destruct (IH Hx) as (i & w' & Hi & Hw). by exists (S i), w'.
Qed.

Lemma scenario3_dag a b c :
  NoDup [a; b; c] →
  ∃ dag,
    DAGScheduler.buildDAG (Decomposition.mk (scenario3_tasks a b c) 3 false) = Some dag
    ∧ List.length (DAG.waves dag) = 3%nat.
Proof.
  intros Hnd.
  assert (deps_refer_to_earlier_tasks (scenario3_tasks a b c)) as Hearlier.
  { intros [|[|[|i]]] t d Ht Hd; simpl in Ht; try done; injection Ht as <-; simpl in Hd.
    - by apply elem_of_nil in Hd.
    - apply list_elem_of_singleton in Hd as ->. eexists 0%nat, _. split; [lia|]. split; reflexivity.
    - apply list_elem_of_singleton in Hd as ->. eexists 1%nat, _. split; [lia|]. split; reflexivity. }
  destruct (buildDAG_inv (Decomposition.mk (scenario3_tasks a b c) 3 false) Hnd Hearlier)
    as (dag & completed & Hdag & Hinv & Hperm).
  exists dag. split; [done|].
  destruct Hinv as [Hwf Hfr Hpend Hcomp Hndw Hkeys Hdeps Hne].
  pose proof (frame_keys _ _ Hfr) as Hk. simpl in *.
  destruct (DAG.nodes dag) as [|[ka na] [|[kb nb] [|[kc nc] [|? ?]]]]; try done.
  injection Hfr as -> _ Hda -> _ Hdb -> _ Hdc.
  assert (List.length (concat (DAG.waves dag)) = 3%nat) as Hlen by (by rewrite Hperm).
  apply length_concat_nonempty in Hne.
  assert (c ∈ concat (DAG.waves dag)) as Hc by (rewrite Hperm; set_solver).
  apply elem_of_concat_lookup in Hc as (i & w & Hi & Hw).
  assert (b ∈ (list_to_set (concat (take i (DAG.waves dag))) : gset string)) as Hb.
  { apply (Hdeps i w c nc Hi Hw); [set_solver|]. rewrite Hdc. set_solver. }
  apply elem_of_list_to_set, elem_of_concat_take in Hb as (j & w' & Hj & Hj' & Hw').
  assert (a ∈ (list_to_set (concat (take j (DAG.waves dag))) : gset string)) as Ha.
  { apply (Hdeps j w' b nb Hj' Hw'); [set_solver|]. rewrite Hdb. set_solver. }
  apply elem_of_list_to_set, elem_of_concat_take in Ha as (k & w'' & Hk' & _ & _).
  apply lookup_lt_Some in Hi. lia.
Qed.

(** Claim C4, amended.  For the input of the third scenario, whatever
    distinct non-empty identifiers are drawn for the tasks, [execute] returns
    the success form with three tasks in a chain (the second depends on the
    first, the third on the second), a wave count of 3 in the complexity
    record and in the execution result, a score of 7, hence the level
    [medium], and the strategy [parallel_pool]. *)
Theorem scenario3_pipeline (env : Env.t) (o : Orchestrator.t) :
  JS.truthy (Env.uuid env 0%nat) = true →
  JS.truthy (Env.uuid env 1%nat) = true →
  NoDup [Env.uuid env 0%nat; Env.uuid env 1%nat; Env.uuid env 2%nat] →
  ∃ summary pipeline metrics o' complexity allocation execution,
    Orchestrator.execute env scenario3 o = (Success summary pipeline metrics, o')
    ∧ Pipeline.decomposition pipeline
      = Some (Decomposition.mk
                (scenario3_tasks (Env.uuid env 0%nat) (Env.uuid env 1%nat)
                                 (Env.uuid env 2%nat)) 3 false)
    ∧ Pipeline.complexity pipeline = Some complexity
    ∧ (Complexity.score complexity == 7)%Q
    ∧ Complexity.level complexity = medium
    ∧ Complexity.waves complexity = 3%nat
    ∧ Pipeline.agents pipeline = Some allocation
    ∧ Allocation.strategy allocation = parallel_pool
    ∧ Pipeline.execution pipeline = Some execution
    ∧ ExecutionResult.waves execution = 3%nat.
Proof.
  intros H0 H1 Hnd.
  assert (Env.uuid env 0%nat ≠ Env.uuid env 1%nat
          ∧ Env.uuid env 0%nat ≠ Env.uuid env 2%nat
          ∧ Env.uuid env 1%nat ≠ Env.uuid env 2%nat) as (Hab & Hac & Hbc).
  { apply NoDup_cons in Hnd as [Ha Hnd]. apply NoDup_cons in Hnd as [Hb _].
    set_solver. }
  destruct (scenario3_score _ _ _ Hab Hac Hbc)
    as (complexity & Hscore & Hs & Hlevel & _ & Hwaves).
  rewrite <- (scenario3_decomposition (Env.uuid env) H0 H1) in Hscore.
  destruct (execute_success env scenario3 o complexity Hscore)
    as (summary & pipeline & metrics & o' & dag & Hexec & Hdag & _ & Hdec & Hc & Hal & Hex).
  rewrite (scenario3_decomposition (Env.uuid env) H0 H1) in Hdec, Hdag.
  destruct (scenario3_dag _ _ _ Hnd) as (dag' & Hdag' & Hlen).
  rewrite Hdag in Hdag'. injection Hdag' as <-.
  eexists summary, pipeline, metrics, o', complexity, _, _.
  split; [exact Hexec|]. split; [exact Hdec|]. split; [exact Hc|].
  split; [exact Hs|]. split; [exact Hlevel|]. split; [exact Hwaves|].
  split; [exact Hal|]. split; [by simpl; rewrite Hlevel|].
  split; [exact Hex|]. by rewrite execute_waves.
Qed.

Lemma scenario3_pipeline_witness :
  ∃ summary pipeline metrics o' complexity,
    Orchestrator.execute sample_env scenario3 (Orchestrator.new 0)
    = (Success summary pipeline metrics, o')
    ∧ Pipeline.complexity pipeline = Some complexity
    ∧ Complexity.level complexity = medium.
Proof.
  assert (NoDup [sample_uuid 0; sample_uuid 1; sample_uuid 2]) as Hnd.
  { apply (bool_decide_unpack _). by vm_compute. }
  pose proof (scenario3_pipeline sample_env (Orchestrator.new 0) eq_refl eq_refl Hnd) as H.
  destruct H as (summary & pipeline & metrics & o' & complexity & allocation & execution
                 & H1 & _ & H3 & _ & H5 & _).
  exists summary, pipeline, metrics, o', complexity. exact (conj H1 (conj H3 H5)).
Defined.

(** The run of the third scenario is not classified [complex] and its
    strategy is not [dag_staged_waves]. *)
Lemma scenario3_not_complex :
  ∃ summary pipeline metrics o',
    Orchestrator.execute sample_env scenario3 (Orchestrator.new 0)
    = (Success summary pipeline metrics, o')
    ∧ option_map Complexity.level (Pipeline.complexity pipeline) = Some medium
    ∧ option_map Allocation.strategy (Pipeline.agents pipeline) = Some parallel_pool
    ∧ option_map Complexity.level (Pipeline.complexity pipeline) ≠ Some complex
    ∧ option_map Allocation.strategy (Pipeline.agents pipeline)
      ≠ Some dag_staged_waves.
Proof. vm_compute. by repeat eexists. Qed.


(** ** The orchestrator on blank inputs *)

(** Claim C10, amended.  For an input that is empty or made of white space
    only, [parseInput] returns the parsed record of the input and the
    pipeline goes on: stage 2 classifies it as the general intent, stage 3
    decomposes it into a single task with an empty description, and
    [execute] returns the success form. *)
Theorem blank_input_runs_pipeline (env : Env.t) (o : Orchestrator.t) (input : string) :
  JS.blank input = true →
  Parsed.raw (Orchestrator.parseInput input) = input
  ∧ ∃ summary pipeline metrics o',
      Orchestrator.execute env input o = (Success summary pipeline metrics, o')
      ∧ Pipeline.intent pipeline = Some IntentClassifier.general
      ∧ Pipeline.decomposition pipeline
        = Some (Decomposition.mk [blank_task (Env.uuid env 0%nat)] 1 false).
Proof.
  intros Hblank. split; [done|].
  pose proof (classify_blank input Hblank) as Hintent.
  pose proof (decompose_blank (Env.uuid env) input Hblank) as Hdec.
  rewrite <- Hintent in Hdec.
  assert (∃ complexity,
            ComplexityScorer.score
              (Decomposition.mk [blank_task (Env.uuid env 0%nat)] 1 false)
            = Some complexity) as [complexity Hscore].
  { vm_compute. by eexists. }
  unfold blank_task in Hscore |- *. rewrite <- Hdec in Hscore.
  pose proof (execute_success env input o complexity Hscore) as H.
  destruct H as (summary & pipeline & metrics & o' & dag & Hexec & _ & Hi & Hd & _).
  exists summary, pipeline, metrics, o'.
  split; [exact Hexec|]. split; [by rewrite Hi, Hintent|by rewrite Hd, Hdec].
Qed.

Lemma blank_input_runs_pipeline_witness :
  ∃ summary pipeline metrics o',
    Orchestrator.execute sample_env "   " (Orchestrator.new 0)
    = (Success summary pipeline metrics, o')
    ∧ Pipeline.intent pipeline = Some IntentClassifier.general.
Proof.
  pose proof (blank_input_runs_pipeline sample_env (Orchestrator.new 0) "   " eq_refl) as H.
  destruct H as (_ & summary & pipeline & metrics & o' & H1 & H2 & _).
  exists summary, pipeline, metrics, o'. exact (conj H1 H2).
Defined.

(** On the empty input [execute] returns the success form, with the intent
    of stage 2 in the pipeline record. *)
Lemma empty_input_is_no_error :
  (∃ summary pipeline metrics o',
     Orchestrator.execute sample_env "" (Orchestrator.new 0)
     = (Success summary pipeline metrics, o')
     ∧ Pipeline.intent pipeline = Some IntentClassifier.general)
  ∧ ¬ (∃ error pipeline duration,
         (Orchestrator.execute sample_env "" (Orchestrator.new 0)).1
         = Failure error pipeline duration).
Proof.
  vm_compute. split; [by repeat eexists|]. by intros (error & pipeline & duration & H).
Qed.


(** ** The worker pool *)

Import WorkerPool.

Lemma remove_length job l :
  mem job l = true → S (List.length (remove job l)) = List.length l.
Proof.
  unfold mem. induction l as [|j l IH]; simpl; [done|].
  rewrite (Nat.eqb_sym job j). destruct (Nat.eqb j job); simpl; [done|].
  intros H. by rewrite IH.
Qed.

Lemma step_inv e p p' :
  (match e, woken p with Submit _, _ :: _ => false | _, _ => true end) = true →
  step e p = Some p' → pool_inv p → pool_inv p' ∧ maxWorkers p' = maxWorkers p.
Proof.
  unfold pool_inv. intros Hrule Hstep [Hact Hsum].
  destruct e as [job|job|job ok]; simpl in Hstep.
  - destruct (woken p) as [|w ws] eqn:Hw; [|done]. simpl in Hsum.
    destruct (Nat.leb_spec (maxWorkers p) (activeWorkers p)) as [Hfull|Hfree];
      injection Hstep as <-; simpl; rewrite ?Hw, ?length_app; simpl; split; try done; lia.
  - destruct (woken p) as [|next rest] eqn:Hw; [done|].
    destruct (Nat.eqb next job); [|done]. injection Hstep as <-. simpl in *.
    rewrite length_app. simpl. split; [|done]. lia.
  - destruct (mem job (inFlight p)) eqn:Hmem; [|done]. injection Hstep as <-.
    pose proof (remove_length _ _ Hmem) as Hlen.
    unfold processQueue. simpl.
    destruct (queue p) as [|next rest]; simpl.
    + split; [|done]. lia.
    + destruct (Nat.ltb_spec (Nat.pred (activeWorkers p)) (maxWorkers p)); simpl.
      * rewrite length_app. simpl. split; [|done]. lia.
      * split; [|done]. lia.
Qed.

Lemma run_inv es : ∀ p states,
  microtasks_first es p = true → run es p = Some states → pool_inv p →
  Forall (fun q => pool_inv q ∧ maxWorkers q = maxWorkers p) states.
Proof.
  induction es as [|e es IH]; intros p states Hrule Hrun Hinv; simpl in *.
  - injection Hrun as <-. constructor; [by split|constructor].
  - destruct (step e p) as [p'|] eqn:Hstep; [|done].
    destruct (run es p') as [ps|] eqn:Hrun'; [|done]. injection Hrun as <-.
    assert ((match e, woken p with Submit _, _ :: _ => false | _, _ => true end) = true
            ∧ microtasks_first es p' = true) as [Hnow Hlater].
    { destruct e; destruct (woken p); try done. }
    destruct (step_inv e p p' Hnow Hstep Hinv) as [Hinv' Hmax].
    constructor; [done|].
    eapply Forall_impl; [apply (IH p' ps Hlater Hrun' Hinv')|].
    intros q [? ?]. split; [done|congruence].
Qed.

Lemma run_head es p states : run es p = Some states → ∃ rest, states = p :: rest.
Proof.
  destruct es as [|e es]; simpl.
  - intros [= <-]. by exists [].
  - destruct (step e p) as [p'|]; [|done].
    destruct (run es p') as [ps|]; [|done]. intros [= <-]. by exists ps.
Qed.

Lemma run_fifo es : ∀ p states final,
  run es p = Some states → last states = Some final →
  woken p ++ queue p ++ suspended es p = resumed es ++ woken final ++ queue final.
Proof.
  induction es as [|e es IH]; intros p states final Hrun Hlast; simpl in *.
  - injection Hrun as <-. simpl in Hlast. injection Hlast as <-. by rewrite app_nil_r.
  - destruct (step e p) as [p'|] eqn:Hstep; [|done].
    destruct (run es p') as [ps|] eqn:Hrun'; [|done]. injection Hrun as <-.
    assert (last ps = Some final) as Hlast'.
    { destruct (run_head _ _ _ Hrun') as [rest ->]. exact Hlast. }
    specialize (IH p' ps final Hrun' Hlast').
    destruct e as [job|job|job ok]; simpl in Hstep |- *.
    + destruct (Nat.leb_spec (maxWorkers p) (activeWorkers p));
        injection Hstep as <-; simpl in IH; [|done].
      rewrite <- IH. by rewrite <- !app_assoc.
    + destruct (woken p) as [|next rest]; [done|].
      destruct (Nat.eqb_spec next job) as [->|]; [|done]. injection Hstep as <-.
      simpl in IH. simpl. by rewrite IH.
    + destruct (mem job (inFlight p)); [|done]. injection Hstep as <-.
      rewrite <- IH. unfold processQueue. simpl.
      destruct (queue p) as [|next rest]; simpl; [done|].
      destruct (Nat.pred (activeWorkers p) <? maxWorkers p)%nat; simpl; [|done].
      by rewrite <- !app_assoc.
Qed.

Lemma step_busy e p p' :
  (match e, woken p with Submit _, _ :: _ => false | _, _ => true end) = true →
  step e p = Some p' → pool_inv p → pool_busy p → (0 < maxWorkers p)%nat →
  pool_busy p'.
Proof.
  unfold pool_inv, pool_busy. intros Hrule Hstep [Hact Hsum] Hbusy Hmax.
  destruct e as [job|job|job ok]; simpl in Hstep.
  - destruct (woken p) as [|w ws] eqn:Hw; [|done]. simpl in Hsum, Hbusy.
    destruct (Nat.leb_spec (maxWorkers p) (activeWorkers p)) as [Hfull|Hfree];
      injection Hstep as <-; simpl; rewrite ?Hw; simpl.
    + intros _. lia.
    + intros Hq. specialize (Hbusy Hq). lia.
  - destruct (woken p) as [|next rest] eqn:Hw; [done|].
    destruct (Nat.eqb next job); [|done]. injection Hstep as <-. simpl in *.
    intros Hq. specialize (Hbusy Hq). lia.
  - destruct (mem job (inFlight p)) eqn:Hmem; [|done]. injection Hstep as <-.
    pose proof (remove_length _ _ Hmem) as Hlen.
    unfold processQueue. simpl.
    destruct (queue p) as [|next rest] eqn:Hq; simpl; [done|].
    assert (activeWorkers p + List.length (woken p) = maxWorkers p)%nat as Hfull
      by (by apply Hbusy).
    destruct (Nat.ltb_spec (Nat.pred (activeWorkers p)) (maxWorkers p)); simpl.
    + rewrite length_app. simpl. intros _. lia.
    + lia.
Qed.

Lemma run_busy es : ∀ p states,
  microtasks_first es p = true → run es p = Some states →
  pool_inv p → pool_busy p → (0 < maxWorkers p)%nat →
  Forall pool_busy states.
Proof.
  induction es as [|e es IH]; intros p states Hrule Hrun Hinv Hbusy Hmax; simpl in *.
  - injection Hrun as <-. by repeat constructor.
  - destruct (step e p) as [p'|] eqn:Hstep; [|done].
    destruct (run es p') as [ps|] eqn:Hrun'; [|done]. injection Hrun as <-.
    assert ((match e, woken p with Submit _, _ :: _ => false | _, _ => true end) = true
            ∧ microtasks_first es p' = true) as [Hnow Hlater].
    { destruct e; destruct (woken p); try done. }
    destruct (step_inv e p p' Hnow Hstep Hinv) as [Hinv' Hmax'].
    constructor; [done|].
    apply (IH p' ps Hlater Hrun' Hinv'); [|lia].
    by eapply step_busy.
Qed.

Lemma run_lookup es : ∀ p states i e,
  run es p = Some states → es !! i = Some e →
  ∃ q q', states !! i = Some q ∧ states !! S i = Some q' ∧ step e q = Some q'.
Proof.
  induction es as [|e0 es IH]; intros p states i e Hrun Hi; [done|].
  simpl in Hrun.
  destruct (step e0 p) as [p'|] eqn:Hstep; [|done].
  destruct (run es p') as [ps|] eqn:Hrun'; [|done]. injection Hrun as <-.
  destruct i as [|i]; simpl in Hi.
  - injection Hi as <-. destruct (run_head _ _ _ Hrun') as [rest ->].
    by exists p, p'.
  - destruct (IH p' ps i e Hrun' Hi) as (q & q' & H1 & H2 & H3).
    by exists q, q'.
Qed.

(** Claim C9.  In every run of the pool that follows the rule of the event
    loop, the jobs in flight are the [activeWorkers] and never exceed
    [maxWorkers], which is 8 by default.  A call made while every slot is
    taken joins the back of the queue, any other call starts its job; when
    a job settles while calls wait, the call at the head of the queue is
    woken; and the woken calls resume in the order in which they were
    woken.  So the calls that were suspended, in the order of their
    submission, are the resumed ones followed by the woken and the queued
    ones; and when no job is running and no woken call is left, every
    suspended call of a pool with a worker has been resumed. *)
Theorem pool_bounded_fifo (maxWorkers : option nat) (es : list Event)
    (states : list WorkerPool.t) :
  microtasks_first es (WorkerPool.new maxWorkers) = true →
  run es (WorkerPool.new maxWorkers) = Some states →
  WorkerPool.maxWorkers (WorkerPool.new None) = 8%nat
  ∧ Forall (fun p =>
              activeWorkers p = List.length (inFlight p)
              ∧ (List.length (inFlight p) ≤ WorkerPool.maxWorkers (WorkerPool.new maxWorkers))%nat)
           states
  ∧ (∀ i e p p',
       es !! i = Some e → states !! i = Some p → states !! S i = Some p' →
       match e with
       | Submit job =>
           if (WorkerPool.maxWorkers (WorkerPool.new maxWorkers) <=? activeWorkers p)%nat
           then queue p' = queue p ++ [job] ∧ woken p' = woken p
                ∧ inFlight p' = inFlight p
           else queue p' = queue p ∧ woken p' = woken p
                ∧ inFlight p' = inFlight p ++ [job]
       | Settle job ok =>
           inFlight p' = remove job (inFlight p)
           ∧ match queue p with
             | next :: rest => queue p' = rest ∧ woken p' = woken p ++ [next]
             | [] => queue p' = [] ∧ woken p' = woken p
             end
       | Resume job =>
           queue p' = queue p ∧ woken p = job :: woken p'
           ∧ inFlight p' = inFlight p ++ [job]
       end)
  ∧ ∀ final, last states = Some final →
      suspended es (WorkerPool.new maxWorkers) = resumed es ++ woken final ++ queue final
      ∧ (inFlight final = [] → woken final = [] →
         WorkerPool.maxWorkers (WorkerPool.new maxWorkers) ≠ 0%nat →
         resumed es = suspended es (WorkerPool.new maxWorkers)).
Proof.
  intros Hrule Hrun. split; [done|].
  assert (pool_inv (WorkerPool.new maxWorkers)) as Hinv by (split; simpl; lia).
  pose proof (run_inv es _ _ Hrule Hrun Hinv) as Hinvs.
  split; [|split].
  - eapply Forall_impl; [exact Hinvs|].
    intros q [[Hact Hsum] Hmax]. split; [done|]. rewrite <- Hmax. lia.
  - intros i e p p' He Hp Hp'.
    destruct (run_lookup es _ _ i e Hrun He) as (q & q' & Hq & Hq' & Hstep).
    rewrite Hp in Hq. rewrite Hp' in Hq'. injection Hq as <-. injection Hq' as <-.
    rewrite Forall_forall in Hinvs.
    destruct (Hinvs p) as [[Hact Hsum] Hmax]; [by eapply list_elem_of_lookup_2|].
    rewrite <- Hmax.
    destruct e as [job|job|job ok]; simpl in Hstep.
    + destruct (WorkerPool.maxWorkers p <=? activeWorkers p)%nat;
        by injection Hstep as <-.
    + destruct (woken p) as [|next rest]; [done|].
      destruct (Nat.eqb_spec next job) as [->|]; [|done]. by injection Hstep as <-.
    + destruct (mem job (inFlight p)) eqn:Hmem; [|done]. injection Hstep as <-.
      pose proof (remove_length _ _ Hmem) as Hlen.
      unfold processQueue. cbn [queue activeWorkers WorkerPool.maxWorkers].
      destruct (queue p) as [|next rest]; [done|].
      destruct (Nat.ltb_spec (Nat.pred (activeWorkers p)) (WorkerPool.maxWorkers p));
        [done|lia].
  - intros final Hlast.
    pose proof (run_fifo es _ _ _ Hrun Hlast) as Hfifo. simpl in Hfifo.
    split; [done|]. intros Hfl Hw Hmax.
    assert (pool_busy (WorkerPool.new maxWorkers)) as Hbusy by (by intros H).
    pose proof (run_busy es _ _ Hrule Hrun Hinv Hbusy ltac:(lia)) as Hall.
    apply last_Some in Hlast as [l' ->].
    rewrite Forall_app, Forall_singleton in Hall, Hinvs.
    destruct Hall as [_ Hb]. destruct Hinvs as [_ [[Hact _] Hm]].
    destruct (queue final) as [|next rest] eqn:Hq.
    + by rewrite Hfifo, Hw, !app_nil_r.
    + exfalso. unfold pool_busy in Hb. rewrite Hq, Hw, Hact, Hfl in Hb. simpl in Hb.
      assert (0 = WorkerPool.maxWorkers final)%nat by (by apply Hb). lia.
Qed.

Lemma pool_bounded_fifo_witness :
  Forall (fun p =>
            activeWorkers p = List.length (inFlight p)
            ∧ (List.length (inFlight p) ≤ 2)%nat)
         (default [] (run sample_schedule (WorkerPool.new (Some 2))))
  ∧ suspended sample_schedule (WorkerPool.new (Some 2)) = [3; 4]
  ∧ resumed sample_schedule = [3; 4].
Proof.
  pose proof (pool_bounded_fifo (Some 2) sample_schedule
                (default [] (run sample_schedule (WorkerPool.new (Some 2))))
                eq_refl eq_refl) as H.
  destruct H as (_ & H1 & _). split; [exact H1|]. split; reflexivity.
Defined.

Lemma late_submit_exceeds :
  microtasks_first late_submit (WorkerPool.new (Some 1)) = false
  ∧ ∃ states final,
      run late_submit (WorkerPool.new (Some 1)) = Some states
      ∧ last states = Some final
      ∧ inFlight final = [3; 2] ∧ activeWorkers final = 2%nat
      ∧ maxWorkers final = 1%nat.
Proof. vm_compute. split; [done|]. by repeat eexists. Qed.

(** * Further properties *)

(** ** Sorting by descending key *)

Section SortFacts.
Context {A : Type} (key : A → Q).

Lemma insert_desc_perm x l : JS.insert_desc key x l ≡ₚ x :: l.
Proof.
  induction l as [|y l IH]; simpl; [done|].
  destruct (JS.lt (key x) (key y)); [|done].
  rewrite IH. apply Permutation_swap.
Qed.

Lemma sort_desc_perm l : JS.sort_desc key l ≡ₚ l.
Proof.
  induction l as [|x l IH]; simpl; [done|].
  unfold JS.sort_desc in *. simpl. rewrite insert_desc_perm. by rewrite IH.
Qed.

Lemma elem_of_sort_desc x l : x ∈ JS.sort_desc key l ↔ x ∈ l.
Proof. by rewrite sort_desc_perm. Qed.

Lemma insert_desc_sorted x l :
  StronglySorted (fun a b => (key b <= key a)%Q) l →
  StronglySorted (fun a b => (key b <= key a)%Q) (JS.insert_desc key x l).
Proof.
  induction 1 as [|y l Hs IH Hy]; simpl.
  - repeat constructor.
  - destruct (JS.lt (key x) (key y)) eqn:Hlt.
    + apply JS_lt_spec in Hlt. constructor; [exact IH|].
      rewrite Forall_forall. intros z Hz.
      rewrite insert_desc_perm in Hz. apply elem_of_cons in Hz as [->|Hz].
      * by apply Qlt_le_weak.
      * rewrite Forall_forall in Hy. by apply Hy.
    + assert (key y <= key x)%Q as Hle.
      { destruct (Qlt_le_dec (key x) (key y)) as [Hl|Hl]; [|done].
        apply JS_lt_spec in Hl. congruence. }
      constructor; [by constructor|].
      constructor; [done|].
      eapply Forall_impl; [exact Hy|]. simpl. intros z Hz.
      by apply Qle_trans with (key y).
Qed.

Lemma sort_desc_sorted l :
  StronglySorted (fun a b => (key b <= key a)%Q) (JS.sort_desc key l).
Proof.
  induction l as [|x l IH]; [constructor|].
  unfold JS.sort_desc in *. simpl. by apply insert_desc_sorted.
Qed.

(** The sort is stable: it leaves a list that is already in descending
    order as it is. *)
Lemma sort_desc_id l :
  StronglySorted (fun a b => (key b <= key a)%Q) l → JS.sort_desc key l = l.
Proof.
  induction 1 as [|x l Hs IH Hx]; [done|].
  unfold JS.sort_desc in *. simpl. rewrite IH.
  destruct l as [|y l]; [done|]. simpl.
  apply Forall_cons in Hx as [Hy _].
  destruct (JS.lt (key x) (key y)) eqn:Hlt; [|done].
  apply JS_lt_spec in Hlt. exfalso. by apply (Qlt_not_le _ _ Hlt).
Qed.
End SortFacts.

(** ** Agent registry *)

Lemma elem_of_filter_bool {A} (f : A → bool) (l : list A) x :
  x ∈ List.filter f l ↔ x ∈ l ∧ f x = true.
Proof.
  rewrite !list_elem_of_In, filter_In. done.
Qed.

Lemma supports_spec lvl a :
  AgentRegistry.supports lvl a = true ↔ lvl ∈ Agent.complexitySupported a.
Proof.
  unfold AgentRegistry.supports. rewrite existsb_exists. split.
  - intros (l & Hin & Heq). apply list_elem_of_In in Hin.
    by destruct lvl, l.
  - intros Hin. exists lvl. split; [by apply list_elem_of_In|by destruct lvl].
Qed.

Lemma JS_mem_spec x l : JS.mem x l = true ↔ x ∈ l.
Proof.
  unfold JS.mem. rewrite existsb_exists. split.
  - intros (y & Hin & Heq). apply String.eqb_eq in Heq as ->.
    by apply list_elem_of_In.
  - intros Hin. exists x. split; [by apply list_elem_of_In|apply String.eqb_refl].
Qed.

(* The statement of the theorem that follows, under the name that later proofs use. *)
Lemma findAgents_facts criteria r :
  (∀ a,
     a ∈ AgentRegistry.findAgents criteria r ↔
     a ∈ OMap.values (AgentRegistry.agents r)
     ∧ (∀ c, Criteria.cluster criteria = Some c → c ≠ "" → Agent.cluster a = c)
     ∧ (∀ sk, Criteria.skills criteria = Some sk → sk ≠ [] →
          ∃ skill, skill ∈ sk ∧ skill ∈ Agent.skills a)
     ∧ (∀ lvl, Criteria.complexity criteria = Some lvl →
          lvl ∈ Agent.complexitySupported a))
  ∧ StronglySorted
      (fun a b => (Agent.confidenceScore b <= Agent.confidenceScore a)%Q)
      (AgentRegistry.findAgents criteria r)
  ∧ (List.length (AgentRegistry.findAgents criteria r)
     ≤ OMap.size (AgentRegistry.agents r))%nat.
Proof.
  unfold AgentRegistry.findAgents.
  destruct criteria as [cl sk lv]. cbn [Criteria.cluster Criteria.skills Criteria.complexity].
  set (c1 := match cl with
             | Some c => if JS.truthy c then _ else _
             | None => _ end).
  set (c2 := match sk with Some ((_ :: _) as sk0) => _ | _ => c1 end).
  set (c3 := match lv with Some lvl => _ | None => c2 end).
  assert (H1 : ∀ a, a ∈ c1 ↔ a ∈ OMap.values (AgentRegistry.agents r)
                     ∧ (∀ c, cl = Some c → c ≠ "" → Agent.cluster a = c)).
  { intros a. subst c1. destruct cl as [c|].
    - destruct c as [|ch c]; simpl.
      + split; [intros H; split; [done|]; intros ? [= <-] Hne; by destruct Hne|by intros [? _]].
      + rewrite elem_of_filter_bool, String.eqb_eq. split.
        * intros [? ?]. split; [done|]. by intros ? [= <-] _.
        * intros [? H]. split; [done|]. by apply H.
    - split; [intros ?; split; [done|]; done|by intros [? _]]. }
  assert (H2 : ∀ a, a ∈ c2 ↔ a ∈ c1
                     ∧ (∀ s, sk = Some s → s ≠ [] →
                          ∃ skill, skill ∈ s ∧ skill ∈ Agent.skills a)).
  { intros a. subst c2. destruct sk as [[|s0 s]|].
    - split; [intros ?; split; [done|]; by intros ? [= <-]|by intros [? _]].
    - rewrite elem_of_filter_bool. split.
      + intros [? Hex]. split; [done|]. intros ? [= <-] _.
        apply existsb_exists in Hex as (x & Hin & Hm).
        exists x. split; [by apply list_elem_of_In|by apply JS_mem_spec].
      + intros [? Hex]. split; [done|].
        destruct (Hex _ eq_refl) as (x & Hin & Hm); [done|].
        apply existsb_exists. exists x.
        split; [by apply list_elem_of_In|by apply JS_mem_spec].
    - split; [intros ?; split; [done|]; done|by intros [? _]]. }
  assert (H3 : ∀ a, a ∈ c3 ↔ a ∈ c2
                     ∧ (∀ lvl, lv = Some lvl → lvl ∈ Agent.complexitySupported a)).
  { intros a. subst c3. destruct lv as [lvl|].
    - rewrite elem_of_filter_bool, supports_spec. split.
      + intros [? ?]. split; [done|]. by intros ? [= <-].
      + intros [? H]. split; [done|]. by apply H.
    - split; [intros ?; split; [done|]; done|by intros [? _]]. }
  split; [|split].
  - intros a. rewrite elem_of_sort_desc, H3, H2, H1. tauto.
  - apply sort_desc_sorted.
  - rewrite (Permutation_length (sort_desc_perm _ _)).
    assert (L1 : (List.length c1 ≤ OMap.size (AgentRegistry.agents r))%nat).
    { subst c1. unfold OMap.size, OMap.values.
      destruct cl as [c|]; [destruct (JS.truthy c)|];
        rewrite <- (length_map snd (AgentRegistry.agents r)); [apply List.filter_length_le|done|done]. }
    assert (L2 : (List.length c2 ≤ List.length c1)%nat).
    { subst c2. destruct sk as [[|??]|]; [done|apply List.filter_length_le|done]. }
    assert (L3 : (List.length c3 ≤ List.length c2)%nat).
    { subst c3. destruct lv; [apply List.filter_length_le|done]. }
    lia.
Qed.

(** [findAgents] returns exactly the registered agents that meet the
    criteria given (an empty cluster name and an empty list of skills are
    no criteria), and returns them by descending confidence. *)
Theorem findAgents_sound_complete_sorted criteria r :
  (∀ a,
     a ∈ AgentRegistry.findAgents criteria r ↔
     a ∈ OMap.values (AgentRegistry.agents r)
     ∧ (∀ c, Criteria.cluster criteria = Some c → c ≠ "" → Agent.cluster a = c)
     ∧ (∀ sk, Criteria.skills criteria = Some sk → sk ≠ [] →
          ∃ skill, skill ∈ sk ∧ skill ∈ Agent.skills a)
     ∧ (∀ lvl, Criteria.complexity criteria = Some lvl →
          lvl ∈ Agent.complexitySupported a))
  ∧ StronglySorted
      (fun a b => (Agent.confidenceScore b <= Agent.confidenceScore a)%Q)
      (AgentRegistry.findAgents criteria r)
  ∧ (List.length (AgentRegistry.findAgents criteria r)
     ≤ OMap.size (AgentRegistry.agents r))%nat.
Proof. exact (findAgents_facts criteria r). Qed.


Lemma omap_size_set {V} k (v : V) (m : omap V) :
  OMap.size (OMap.set k v m)
  = if bool_decide (k ∈ OMap.keys m) then OMap.size m else S (OMap.size m).
Proof.
  unfold OMap.size. case_bool_decide as Hk.
  - rewrite <- !(length_map fst). change (map fst ?m) with (OMap.keys m).
    by rewrite omap_keys_set_in.
  - rewrite omap_set_notin by done. rewrite length_app. simpl. lia.
Qed.

Lemma listed_set k c c' (m : omap Cluster.t) :
  OMap.get k m = Some c →
  list_sum (map (fun c => List.length (Cluster.agents c)) (OMap.values (OMap.set k c' m)))
  + List.length (Cluster.agents c)
  = list_sum (map (fun c => List.length (Cluster.agents c)) (OMap.values m))
    + List.length (Cluster.agents c').
Proof.
  unfold OMap.values. induction m as [|[k' v'] m IH]; simpl; [done|].
  destruct (String.eqb k k') eqn:E; simpl.
  - intros [= ->]. lia.
  - intros H. specialize (IH H). lia.
Qed.

Lemma omap_get_set_fmap {V} (f : V → V) k v (m : omap V) :
  OMap.get k m = Some v →
  ∀ k', OMap.get k' (OMap.set k (f v) m)
        = (fun w => if String.eqb k' k then f w else w) <$> OMap.get k' m.
Proof.
  intros Hget k'. destruct (String.eqb_spec k' k) as [->|Hne].
  - by rewrite omap_get_set_eq, Hget.
  - rewrite omap_get_set_ne by done. by destruct (OMap.get k' m).
Qed.

Lemma omap_set_NoDup {V} (f : V → V) k v (m : omap V) :
  NoDup (OMap.keys m) → OMap.get k m = Some v →
  OMap.set k (f v) m
  = map (fun kw => (kw.1, if String.eqb kw.1 k then f kw.2 else kw.2)) m.
Proof.
  unfold OMap.keys. induction m as [|[k' w] m IH]; simpl; [done|].
  intros Hnd Hget. apply NoDup_cons in Hnd as [Hnotin Hnd].
  rewrite (String.eqb_sym k' k).
  destruct (String.eqb_spec k k') as [->|Hne].
  - injection Hget as ->. f_equal.
    rewrite <- (map_id m) at 1. apply map_ext_in. intros [k2 w2] Hin. simpl.
    destruct (String.eqb_spec k2 k') as [->|]; [|done].
    exfalso. apply Hnotin. apply list_elem_of_fmap. exists (k', w2).
    split; [done|]. by apply list_elem_of_In.
  - f_equal. by apply IH.
Qed.

(** [registerAgent] followed by [getAgent] and [getStatus]: the agent
    registered is found under its identifier with fresh counters, the other
    agents are found as before; the number of agents grows only for a new
    identifier; the cluster named, when it is registered, has the identifier
    appended to its agents, also when the identifier was registered before,
    and every other cluster is as it was; so [getStatus] reports one agent
    more for the cluster named and the same number for every other
    cluster. *)
Theorem registerAgent_lookup_and_status now id role cluster skills levels
    confidenceScore avgExecutionTime r :
  let r' :=
    AgentRegistry.registerAgent now id role cluster skills levels
      confidenceScore avgExecutionTime r in
  AgentRegistry.getAgent id r'
  = Some (Agent.mk id role cluster skills levels confidenceScore avgExecutionTime
            0 0 now)
  ∧ (∀ id', id' ≠ id → AgentRegistry.getAgent id' r' = AgentRegistry.getAgent id' r)
  ∧ RegistryStatus.totalAgents (AgentRegistry.getStatus r')
    = (if bool_decide (id ∈ OMap.keys (AgentRegistry.agents r))
       then RegistryStatus.totalAgents (AgentRegistry.getStatus r)
       else S (RegistryStatus.totalAgents (AgentRegistry.getStatus r)))
  ∧ RegistryStatus.totalClusters (AgentRegistry.getStatus r')
    = RegistryStatus.totalClusters (AgentRegistry.getStatus r)
  ∧ listed r'
    = (if bool_decide (cluster ∈ OMap.keys (AgentRegistry.clusters r))
       then S (listed r) else listed r)
  ∧ (∀ k, OMap.get k (AgentRegistry.clusters r')
          = (fun c =>
               if String.eqb k cluster
               then Cluster.mk (Cluster.id c) (Cluster.name c) (Cluster.description c)
                               (Cluster.agents c ++ [id])
               else c) <$> OMap.get k (AgentRegistry.clusters r))
  ∧ (NoDup (OMap.keys (AgentRegistry.clusters r)) →
     RegistryStatus.clusters (AgentRegistry.getStatus r')
     = map (fun kc =>
              (Cluster.name kc.2,
               if String.eqb kc.1 cluster
               then S (List.length (Cluster.agents kc.2))
               else List.length (Cluster.agents kc.2)))
           (AgentRegistry.clusters r)).
Proof.
  intros r'. subst r'. unfold AgentRegistry.registerAgent, AgentRegistry.getAgent.
  set (add := fun c => Cluster.mk (Cluster.id c) (Cluster.name c) (Cluster.description c)
                                  (Cluster.agents c ++ [id])).
  destruct (OMap.get cluster (AgentRegistry.clusters r)) as [c|] eqn:Hc;
    cbn [AgentRegistry.agents AgentRegistry.clusters AgentRegistry.getStatus
         RegistryStatus.totalAgents RegistryStatus.totalClusters
         RegistryStatus.clusters].
  - split; [apply omap_get_set_eq|].
    split; [intros id' Hne; by apply omap_get_set_ne|].
    split; [apply omap_size_set|].
    split; [|split; [|split]].
    + rewrite omap_size_set. rewrite bool_decide_eq_true_2; [done|].
      by eapply omap_get_Some_keys.
    + rewrite bool_decide_eq_true_2 by (by eapply omap_get_Some_keys).
      unfold listed, AgentRegistry.getStatus.
      cbn [RegistryStatus.clusters AgentRegistry.clusters].
      rewrite !map_map. cbn [snd].
      pose proof (listed_set cluster c (add c) (AgentRegistry.clusters r) Hc) as H.
      subst add. cbn [Cluster.agents] in H. rewrite length_app in H. simpl in H. lia.
    + intros k. exact (omap_get_set_fmap add cluster c _ Hc k).
    + intros Hnd. change (Cluster.mk _ _ _ _) with (add c).
      rewrite (omap_set_NoDup add cluster c _ Hnd Hc).
      unfold OMap.values. rewrite !map_map. apply map_ext. intros [k c']. simpl.
      destruct (String.eqb k cluster); [|done].
      subst add. simpl. rewrite length_app. simpl. f_equal. lia.
  - split; [apply omap_get_set_eq|].
    split; [intros id' Hne; by apply omap_get_set_ne|].
    split; [apply omap_size_set|].
    split; [done|].
    split; [|split].
    + rewrite bool_decide_eq_false_2; [done|].
      intros Hin. apply omap_keys_get in Hin as [v Hv]. congruence.
    + intros k. destruct (String.eqb_spec k cluster) as [->|Hne].
      * by rewrite Hc.
      * by destruct (OMap.get k (AgentRegistry.clusters r)).
    + intros _. unfold OMap.values. rewrite map_map. apply map_ext_in.
      intros [k c'] Hin. simpl.
      destruct (String.eqb_spec k cluster) as [->|]; [|done].
      exfalso. apply list_elem_of_In in Hin.
      assert (cluster ∈ OMap.keys (AgentRegistry.clusters r)) as Hk.
      { apply list_elem_of_fmap. by exists (cluster, c'). }
      apply omap_keys_get in Hk as [v Hv]. congruence.
Qed.

(** A thirteenth agent for the research cluster of the fresh registry: the
    cluster goes from two agents to three, the others keep theirs. *)
Lemma registerAgent_lookup_and_status_witness :
  RegistryStatus.clusters
    (AgentRegistry.getStatus
       (AgentRegistry.registerAgent 1 "librarian_v1" "librarian" "research"
          ["documentation"] [simple] 0.5 1.0 (AgentRegistry.new 0)))
  = [("Research Cluster", 3%nat); ("Coding Cluster", 3%nat); ("DevOps Cluster", 2%nat);
     ("UI/UX Cluster", 2%nat); ("Analysis Cluster", 2%nat);
     ("Memory & Evaluation Cluster", 1%nat)].
Proof.
  assert (NoDup (OMap.keys (AgentRegistry.clusters (AgentRegistry.new 0)))) as Hnd.
  { apply (bool_decide_unpack _). by vm_compute. }
  rewrite (proj2 (proj2 (proj2 (proj2 (proj2 (proj2
             (registerAgent_lookup_and_status 1 "librarian_v1" "librarian" "research"
                ["documentation"] [simple] 0.5 1.0 (AgentRegistry.new 0)))))))  Hnd).
  reflexivity.
Defined.

(** *** What the updates leave alone *)

Lemma omap_set_map {V W} (f : V → W) k v v' (m : omap V) :
  OMap.get k m = Some v → f v' = f v →
  map (fun kv => (kv.1, f kv.2)) (OMap.set k v' m) = map (fun kv => (kv.1, f kv.2)) m.
Proof.
  intros Hget Hf. induction m as [|[k' w] m IH]; simpl in *; [done|].
  destruct (String.eqb k k') eqn:E; simpl.
  - injection Hget as ->. by rewrite Hf.
  - by rewrite IH.
Qed.

Lemma updateAgentMetrics_identity agentId metrics r :
  map (fun kv => (kv.1, identity kv.2))
      (AgentRegistry.agents (AgentRegistry.updateAgentMetrics agentId metrics r))
  = map (fun kv => (kv.1, identity kv.2)) (AgentRegistry.agents r).
Proof.
  unfold AgentRegistry.updateAgentMetrics.
  destruct (OMap.get agentId (AgentRegistry.agents r)) as [agent|] eqn:Hget; [|done].
  cbn [AgentRegistry.agents]. by eapply omap_set_map.
Qed.

Lemma applyUpdate_identity r u :
  map (fun kv => (kv.1, identity kv.2))
      (AgentRegistry.agents (LearningSystem.applyUpdate r u))
  = map (fun kv => (kv.1, identity kv.2)) (AgentRegistry.agents r).
Proof.
  unfold LearningSystem.applyUpdate, AgentRegistry.getAgent.
  destruct (OMap.get (ConfidenceUpdate.agentId u) (AgentRegistry.agents r))
    as [agent|] eqn:Hget; [|done].
  cbn [AgentRegistry.agents]. by eapply omap_set_map.
Qed.

Lemma updateAgentMetrics_rate agentId metrics r :
  rate_bounded r → rate_bounded (AgentRegistry.updateAgentMetrics agentId metrics r).
Proof.
  unfold rate_bounded, AgentRegistry.updateAgentMetrics. intros H.
  destruct (OMap.get agentId (AgentRegistry.agents r)) as [agent|] eqn:Hget; [|done].
  cbn [AgentRegistry.agents]. apply Forall_values_set; [done|].
  pose proof (Forall_values_get _ _ _ _ H Hget) as [Hlo Hhi].
  cbn [Agent.failureRate]. unfold AgentRegistry.alpha.
  destruct (Metrics.failed metrics); split; lra.
Qed.

Lemma applyUpdate_rate r u :
  rate_bounded r → rate_bounded (LearningSystem.applyUpdate r u).
Proof.
  unfold rate_bounded, LearningSystem.applyUpdate, AgentRegistry.getAgent. intros H.
  destruct (OMap.get (ConfidenceUpdate.agentId u) (AgentRegistry.agents r))
    as [agent|] eqn:Hget; [|done].
  cbn [AgentRegistry.agents]. apply Forall_values_set; [done|].
  exact (Forall_values_get _ _ _ _ H Hget).
Qed.

Lemma call_keeps st c :
  rate_bounded st.1 →
  map (fun kv => (kv.1, identity kv.2)) (AgentRegistry.agents (RegistryCalls.call st c).1)
  = map (fun kv => (kv.1, identity kv.2)) (AgentRegistry.agents st.1)
  ∧ rate_bounded (RegistryCalls.call st c).1.
Proof.
  destruct st as [r q]. destruct c as [agentId metrics|updates|]; simpl; intros H.
  - split; [apply updateAgentMetrics_identity|by apply updateAgentMetrics_rate].
  - done.
  - unfold LearningSystem.applyUpdates. simpl. revert r H.
    induction q as [|u queue IH]; intros r H; simpl; [done|].
    destruct (IH (LearningSystem.applyUpdate r u)) as [H1 H2];
      [by apply applyUpdate_rate|].
    split; [|done]. rewrite H1. apply applyUpdate_identity.
Qed.

Lemma calls_keep calls : ∀ st,
  rate_bounded st.1 →
  map (fun kv => (kv.1, identity kv.2))
      (AgentRegistry.agents (fold_left RegistryCalls.call calls st).1)
  = map (fun kv => (kv.1, identity kv.2)) (AgentRegistry.agents st.1)
  ∧ rate_bounded (fold_left RegistryCalls.call calls st).1.
Proof.
  induction calls as [|c calls IH]; intros st H; simpl; [done|].
  destruct (call_keeps st c H) as [H1 H2].
  destruct (IH _ H2) as [H3 H4]. split; [|done]. by rewrite H3.
Qed.

(** Whatever metrics are reported and whatever confidence updates are
    queued and applied, the registry keeps the agents it was seeded with, in
    the same order and each with its role, cluster, skills, supported levels
    and creation time; and the failure rate of every agent stays between 0
    and 1. *)
Theorem updates_keep_agents now calls :
  map (fun kv => (kv.1, identity kv.2))
      (AgentRegistry.agents (RegistryCalls.run now calls).1)
  = map (fun kv => (kv.1, identity kv.2)) (AgentRegistry.agents (AgentRegistry.new now))
  ∧ Forall (fun a => (0 <= Agent.failureRate a ∧ Agent.failureRate a <= 1)%Q)
           (OMap.values (AgentRegistry.agents (RegistryCalls.run now calls).1)).
Proof.
  apply (calls_keep calls (AgentRegistry.new now, [])).
  unfold rate_bounded. vm_compute. repeat constructor; discriminate.
Qed.


(** ** Intent classifier *)

Lemma lower_char_idempotent c : JS.lower_char (JS.lower_char c) = JS.lower_char c.
Proof. destruct c as [[] [] [] [] [] [] [] []]; vm_compute; reflexivity. Qed.

Lemma toLowerCase_idempotent s : JS.toLowerCase (JS.toLowerCase s) = JS.toLowerCase s.
Proof.
  induction s as [|c s IH]; simpl; [done|]. by rewrite lower_char_idempotent, IH.
Qed.

Lemma collectScores_spec inputLower ps :
  NoDup (OMap.keys ps) →
  map IntentClassifier.Score.type (IntentClassifier.collectScores inputLower ps)
    `sublist_of` OMap.keys ps
  ∧ Forall (fun s =>
              ∃ pattern,
                (IntentClassifier.Score.type s, pattern) ∈ ps
                ∧ IntentClassifier.Score.cluster s = IntentClassifier.Pattern.cluster pattern
                ∧ IntentClassifier.Score.priority s
                  = IntentClassifier.Pattern.priority pattern
                ∧ IntentClassifier.Score.matched s
                  = List.filter (fun kw => JS.includes inputLower kw)
                                (IntentClassifier.Pattern.keywords pattern)
                ∧ IntentClassifier.Score.matched s ≠ []
                ∧ (IntentClassifier.Score.confidence s
                   = JS.min (inject_Z (Z.of_nat (List.length
                                                   (IntentClassifier.Score.matched s))) / 3)
                            1.0)%Q)
           (IntentClassifier.collectScores inputLower ps).
Proof.
  induction ps as [|[ty p] ps IH]; intros Hnd; simpl.
  - split; [constructor|constructor].
  - apply NoDup_cons in Hnd as [Hty Hnd]. destruct (IH Hnd) as [Hsub Hall].
    assert (Hall' :
      Forall (fun s =>
                ∃ pattern,
                  (IntentClassifier.Score.type s, pattern) ∈ (ty, p) :: ps
                  ∧ IntentClassifier.Score.cluster s
                    = IntentClassifier.Pattern.cluster pattern
                  ∧ IntentClassifier.Score.priority s
                    = IntentClassifier.Pattern.priority pattern
                  ∧ IntentClassifier.Score.matched s
                    = List.filter (fun kw => JS.includes inputLower kw)
                                  (IntentClassifier.Pattern.keywords pattern)
                  ∧ IntentClassifier.Score.matched s ≠ []
                  ∧ (IntentClassifier.Score.confidence s
                     = JS.min (inject_Z (Z.of_nat (List.length
                                                     (IntentClassifier.Score.matched s))) / 3)
                              1.0)%Q)
             (IntentClassifier.collectScores inputLower ps)).
    { eapply Forall_impl; [exact Hall|]. simpl.
      intros s (pattern & Hin & Hrest). exists pattern. split; [by right|done]. }
    destruct (List.filter (fun kw => JS.includes inputLower kw)
                (IntentClassifier.Pattern.keywords p)) as [|kw kws] eqn:Hf.
    + split; [by apply sublist_cons|done].
    + split; [by apply sublist_skip|].
      constructor; [|done].
      exists p. cbn. rewrite Hf. split; [by left|]. done.
Qed.

Lemma patterns_NoDup : NoDup (OMap.keys IntentClassifier.patterns).
Proof. apply (bool_decide_unpack _). by vm_compute. Qed.

Lemma confidence_range (n : nat) :
  (0 < n)%nat →
  (0 < JS.min (inject_Z (Z.of_nat n) / 3) 1.0
   ∧ JS.min (inject_Z (Z.of_nat n) / 3) 1.0 <= 1)%Q.
Proof.
  intros Hn.
  assert (1 <= inject_Z (Z.of_nat n))%Q as H1.
  { change 1%Q with (inject_Z 1). rewrite <- Zle_Qle. lia. }
  destruct (JS_min_spec (inject_Z (Z.of_nat n) / 3) 1.0) as (Ha & Hb & [Hc|Hc]);
    rewrite Hc.
  - split; [|rewrite <- Hc; lra].
    apply Qlt_shift_div_l; lra.
  - split; lra.
Qed.

(** The intent returned by [classify] has a confidence above 0 and at most
    1; the secondary intents come by descending confidence, none above the
    confidence of the primary one; no intent type occurs twice; and the
    primary intent is either the fallback [general] or the entry of a
    pattern, with the cluster of that pattern and the keywords of that
    pattern found in the lower-cased input, at least one. *)
Theorem classify_shape (parsed : Parsed.t) :
  let intent := IntentClassifier.classify parsed in
  let inputLower := JS.toLowerCase (Parsed.raw parsed) in
  (0 < Intent.confidence intent ∧ Intent.confidence intent <= 1)%Q
  ∧ Forall (fun s => (0 < SecondaryIntent.confidence s
                      ∧ SecondaryIntent.confidence s <= Intent.confidence intent)%Q)
           (Intent.secondary intent)
  ∧ StronglySorted
      (fun a b => (SecondaryIntent.confidence b <= SecondaryIntent.confidence a)%Q)
      (Intent.secondary intent)
  ∧ NoDup (Intent.type intent :: map SecondaryIntent.type (Intent.secondary intent))
  ∧ Forall (fun s => SecondaryIntent.type s ∈ OMap.keys IntentClassifier.patterns)
           (Intent.secondary intent)
  ∧ (intent = IntentClassifier.general
     ∨ ∃ pattern,
         OMap.get (Intent.type intent) IntentClassifier.patterns = Some pattern
         ∧ Intent.cluster intent = IntentClassifier.Pattern.cluster pattern
         ∧ Intent.matched intent
           = List.filter (fun kw => JS.includes inputLower kw)
                         (IntentClassifier.Pattern.keywords pattern)
         ∧ Intent.matched intent ≠ []).
Proof.
  intros intent inputLower. subst intent. unfold IntentClassifier.classify.
  fold inputLower.
  destruct (collectScores_spec inputLower IntentClassifier.patterns patterns_NoDup)
    as [Hsub Hall].
  set (scores := IntentClassifier.collectScores inputLower IntentClassifier.patterns) in *.
  pose proof (sort_desc_perm IntentClassifier.Score.confidence scores) as Hperm.
  pose proof (sort_desc_sorted IntentClassifier.Score.confidence scores) as Hsorted.
  destruct (JS.sort_desc IntentClassifier.Score.confidence scores) as [|top rest].
  { cbn [IntentClassifier.general Intent.confidence Intent.secondary Intent.type map].
    split; [split; lra|]. split; [constructor|]. split; [constructor|].
    split; [repeat constructor; apply not_elem_of_nil|]. split; [constructor|]. by left. }
  assert (Hnd : NoDup (map IntentClassifier.Score.type (top :: rest))).
  { rewrite Hperm. eapply sublist_NoDup; [apply patterns_NoDup|exact Hsub]. }
  rewrite <- Hperm in Hall. apply Forall_cons in Hall as [Htop Hrest].
  apply StronglySorted_inv in Hsorted as [Hsorted Hle].
  assert (Hconf : ∀ s : IntentClassifier.Score.t,
            IntentClassifier.Score.matched s ≠ [] →
            (IntentClassifier.Score.confidence s
             = JS.min (inject_Z (Z.of_nat (List.length
                                             (IntentClassifier.Score.matched s))) / 3)
                      1.0)%Q →
            (0 < IntentClassifier.Score.confidence s
             ∧ IntentClassifier.Score.confidence s <= 1)%Q).
  { intros s Hne ->. apply confidence_range.
    destruct (IntentClassifier.Score.matched s); [done|simpl; lia]. }
  destruct Htop as (pattern & Hin & Hcl & Hpr & Hm & Hne & Hc).
  cbn [Intent.confidence Intent.secondary Intent.type Intent.cluster Intent.matched].
  split; [by apply Hconf|].
  split.
  { rewrite Forall_map. cbn [SecondaryIntent.confidence].
    rewrite Forall_forall in Hrest, Hle. apply Forall_forall. intros s Hs.
    destruct (Hrest s Hs) as (p & _ & _ & _ & _ & Hne' & Hc').
    split; [by apply Hconf|by apply Hle]. }
  split.
  { clear -Hsorted. induction Hsorted as [|s l Hs IH Hl]; simpl; constructor; [done|].
    rewrite Forall_map. done. }
  split.
  { rewrite map_map. cbn [SecondaryIntent.type]. exact Hnd. }
  split.
  { rewrite Forall_map. cbn [SecondaryIntent.type].
    eapply Forall_impl; [exact Hrest|]. simpl.
    intros s (p & Hp & _). apply (list_elem_of_fmap_2 fst) in Hp. exact Hp. }
  right. exists pattern. split; [|done].
  apply omap_elem_get; [apply patterns_NoDup|done].
Qed.

(** [classify] does not look at the case of the letters: the input and
    its lower-cased form are classified alike. *)
Theorem classify_ignores_case (s : string) :
  IntentClassifier.classify (Orchestrator.parseInput (JS.toLowerCase s))
  = IntentClassifier.classify (Orchestrator.parseInput s).
Proof.
  unfold IntentClassifier.classify, Orchestrator.parseInput. cbn [Parsed.raw].
  by rewrite toLowerCase_idempotent.
Qed.


(** ** Task decomposer *)

Lemma splitIntoSubtasks_nonempty input : TaskDecomposer.splitIntoSubtasks input ≠ [].
Proof.
  unfold TaskDecomposer.splitIntoSubtasks.
  by destruct (TaskDecomposer.collect None _).
Qed.

Lemma calculatePriority_range text intent :
  (1 ≤ TaskDecomposer.calculatePriority text intent ≤ 3)%nat.
Proof.
  unfold TaskDecomposer.calculatePriority.
  destruct (_ || _); destruct (_ <? _)%nat; simpl; lia.
Qed.

Lemma build_length uuid intent subtasks : ∀ i prevId,
  List.length (TaskDecomposer.build uuid intent i prevId subtasks)
  = List.length subtasks.
Proof.
  induction subtasks as [|s subtasks IH]; intros i prevId; simpl; [done|].
  by rewrite IH.
Qed.

Lemma build_shape uuid intent subtasks : ∀ i prevId k t,
  (prevId = None ∨ ∃ j, i = S j ∧ prevId = Some (uuid j)) →
  TaskDecomposer.build uuid intent i prevId subtasks !! k = Some t →
  Task.id t = uuid (i + k)%nat ∧ Task.index t = (i + k)%nat
  ∧ Task.type t = Intent.type intent ∧ Task.cluster t = Intent.cluster intent
  ∧ Task.status t = pending
  ∧ (1 ≤ Task.priority t ≤ 3)%nat
  ∧ (∃ s, subtasks !! k = Some s ∧ Task.description t = JS.trim (Subtask.text s))
  ∧ (Task.dependsOn t = [] ∨ ∃ j, (i + k)%nat = S j ∧ Task.dependsOn t = [uuid j]).
Proof.
  induction subtasks as [|s subtasks IH]; intros i prevId k t Hprev; simpl; [done|].
  destruct k as [|k]; simpl.
  - intros [= <-]. cbn. rewrite Nat.add_0_r.
    repeat split; try done; try apply calculatePriority_range.
    + by exists s.
    + destruct Hprev as [->|(j & -> & ->)]; [by left|].
      destruct (_ && _); [right; by exists j|by left].
  - intros Ht. replace (i + S k)%nat with (S i + k)%nat by lia.
    eapply IH; [|exact Ht]. right. by exists i.
Qed.

(* The statement of the theorem that follows, under the name that later proofs use. *)
Lemma decompose_facts uuid (parsed : Parsed.t) (intent : Intent.t) :
  let d := TaskDecomposer.decompose uuid parsed intent in
  Decomposition.tasks d ≠ []
  ∧ Decomposition.totalTasks d = List.length (Decomposition.tasks d)
  ∧ (∀ i t, Decomposition.tasks d !! i = Some t →
       Task.id t = uuid i ∧ Task.index t = i
       ∧ Task.type t = Intent.type intent ∧ Task.cluster t = Intent.cluster intent
       ∧ Task.status t = pending
       ∧ (1 ≤ Task.priority t ≤ 3)%nat
       ∧ (Task.dependsOn t = [] ∨ ∃ j, i = S j ∧ Task.dependsOn t = [uuid j]))
  ∧ deps_refer_to_earlier_tasks (Decomposition.tasks d).
Proof.
  intros d. subst d. unfold TaskDecomposer.decompose.
  set (subtasks := TaskDecomposer.splitIntoSubtasks (Parsed.raw parsed)).
  pose proof (build_length uuid intent subtasks 0 None) as Hlen.
  pose proof (splitIntoSubtasks_nonempty (Parsed.raw parsed)) as Hne.
  fold subtasks in Hne.
  pose proof (build_shape uuid intent subtasks 0 None) as Hshape.
  destruct (TaskDecomposer.build uuid intent 0 None subtasks) as [|t0 tasks] eqn:Hb.
  { destruct subtasks; [done|discriminate]. }
  cbn [Decomposition.tasks Decomposition.totalTasks].
  assert (Hall : ∀ i t, (t0 :: tasks) !! i = Some t →
            Task.id t = uuid i ∧ Task.index t = i
            ∧ Task.type t = Intent.type intent ∧ Task.cluster t = Intent.cluster intent
            ∧ Task.status t = pending
            ∧ (1 ≤ Task.priority t ≤ 3)%nat
            ∧ (Task.dependsOn t = [] ∨ ∃ j, i = S j ∧ Task.dependsOn t = [uuid j])).
  { intros i t Ht.
    destruct (Hshape i t (or_introl eq_refl) Ht) as (?&?&?&?&?&?&_&?).
    simpl in *. done. }
  split; [done|]. split; [done|]. split; [exact Hall|].
  intros i t dep Ht Hdep.
  destruct (Hall i t Ht) as (_&_&_&_&_&_&[Hd|(j & -> & Hd)]);
    rewrite Hd in Hdep; [by apply elem_of_nil in Hdep|].
  apply list_elem_of_singleton in Hdep as ->.
  destruct (lookup_lt_is_Some_2 (t0 :: tasks) j) as [t' Ht'].
  { apply lookup_lt_Some in Ht. lia. }
  exists j, t'. split; [lia|]. split; [done|].
  by destruct (Hall j t' Ht') as (-> & _).
Qed.

(** [decompose] returns at least one task; [totalTasks] is their number;
    the task at position [i] carries the [i]-th identifier drawn, the index
    [i], the type and the cluster of the intent, the status [pending] and a
    priority between 1 and 3; and it depends on nothing or on the task just
    before it, so that every dependency names an earlier task. *)
Theorem decompose_shape uuid (parsed : Parsed.t) (intent : Intent.t) :
  let d := TaskDecomposer.decompose uuid parsed intent in
  Decomposition.tasks d ≠ []
  ∧ Decomposition.totalTasks d = List.length (Decomposition.tasks d)
  ∧ (∀ i t, Decomposition.tasks d !! i = Some t →
       Task.id t = uuid i ∧ Task.index t = i
       ∧ Task.type t = Intent.type intent ∧ Task.cluster t = Intent.cluster intent
       ∧ Task.status t = pending
       ∧ (1 ≤ Task.priority t ≤ 3)%nat
       ∧ (Task.dependsOn t = [] ∨ ∃ j, i = S j ∧ Task.dependsOn t = [uuid j]))
  ∧ deps_refer_to_earlier_tasks (Decomposition.tasks d).
Proof. exact (decompose_facts uuid parsed intent). Qed.

Lemma decompose_chained uuid parsed intent :
  chained uuid (Decomposition.tasks (TaskDecomposer.decompose uuid parsed intent)).
Proof.
  intros i t Ht.
  destruct (decompose_facts uuid parsed intent) as (_ & _ & Hall & _).
  by destruct (Hall i t Ht) as (? & _ & _ & _ & _ & _ & ?).
Qed.

(** ** Complexity scorer *)

Lemma taskMap_ids tasks : ∀ acc,
  (∀ k v, OMap.get k acc = Some v → Task.id v = k) →
  ∀ k v,
    OMap.get k (fold_left (fun m t => OMap.set (Task.id t) t m) tasks acc) = Some v →
    Task.id v = k.
Proof.
  induction tasks as [|t tasks IH]; intros acc Hacc; simpl; [done|].
  apply IH. intros k v.
  destruct (String.eqb_spec k (Task.id t)) as [->|Hne].
  - rewrite omap_get_set_eq. by intros [= <-].
  - rewrite omap_get_set_ne by done. apply Hacc.
Qed.

Lemma omap_keys_set_subseteq {V} k (v : V) (m : omap V) :
  OMap.keys m ⊆ OMap.keys (OMap.set k v m) ∧ k ∈ OMap.keys (OMap.set k v m).
Proof.
  split.
  - intros k' Hk'. destruct (decide (k ∈ OMap.keys m)) as [Hin|Hnin].
    + by rewrite omap_keys_set_in.
    + rewrite omap_set_notin by done. unfold OMap.keys. rewrite map_app.
      apply elem_of_app. by left.
  - eapply omap_get_Some_keys. apply omap_get_set_eq.
Qed.

(** One call of [getLevel] on a task whose only possible dependency has its
    level recorded already: two levels of recursion are enough. *)
Lemma getLevel_recorded fuel taskMap levels t :
  (∀ k v, OMap.get k taskMap = Some v → Task.id v = k) →
  (Task.dependsOn t = [] ∨ ∃ p, Task.dependsOn t = [p] ∧ p ∈ OMap.keys levels) →
  ∃ levels' l,
    ComplexityScorer.getLevel (S (S fuel)) taskMap levels t = Some (levels', l)
    ∧ OMap.keys levels ⊆ OMap.keys levels'
    ∧ Task.id t ∈ OMap.keys levels'.
Proof.
  intros Hmap Hdeps. cbn [ComplexityScorer.getLevel].
  destruct (OMap.get (Task.id t) levels) as [l|] eqn:Hget.
  { exists levels, l. split; [done|]. split; [done|]. by eapply omap_get_Some_keys. }
  destruct Hdeps as [->|(p & -> & Hp)].
  { eexists _, _. split; [done|]. apply omap_keys_set_subseteq. }
  cbn [flat_map]. destruct (OMap.get p taskMap) as [dep|] eqn:Hdep; cbn [app fold_left].
  - rewrite (Hmap _ _ Hdep).
    apply omap_keys_get in Hp as [lp Hlp]. rewrite Hlp.
    eexists _, _. split; [done|]. apply omap_keys_set_subseteq.
  - eexists _, _. split; [done|]. apply omap_keys_set_subseteq.
Qed.

Lemma calculateWaves_fold uuid fuel taskMap tasks : ∀ before levels,
  (∀ k v, OMap.get k taskMap = Some v → Task.id v = k) →
  chained uuid (before ++ tasks) →
  (∀ j, (j < List.length before)%nat → uuid j ∈ OMap.keys levels) →
  is_Some
    (fold_left
       (fun acc t =>
          match acc with
          | None => None
          | Some levels =>
              match ComplexityScorer.getLevel (S (S fuel)) taskMap levels t with
              | Some (levels', _) => Some levels'
              | None => None
              end
          end)
       tasks (Some levels)).
Proof.
  induction tasks as [|t tasks IH]; intros before levels Hmap Hch Hdone; cbn [fold_left]; [done|].
  destruct (Hch (List.length before) t) as [Hid Hdeps].
  { by rewrite lookup_app_r, Nat.sub_diag by lia. }
  destruct (getLevel_recorded fuel taskMap levels t Hmap) as (levels' & l & -> & Hsub & Hin).
  { destruct Hdeps as [?|(j & Hj & Hd)]; [by left|]. right. exists (uuid j).
    split; [done|]. apply Hdone. lia. }
  apply (IH (before ++ [t]) levels' Hmap).
  - by rewrite <- app_assoc.
  - intros j Hj. rewrite length_app in Hj. simpl in Hj.
    destruct (decide (j = List.length before)) as [->|Hne].
    + by rewrite <- Hid.
    + apply Hsub, Hdone. lia.
Qed.

Lemma calculateWaves_total uuid tasks :
  chained uuid tasks → is_Some (ComplexityScorer.calculateWaves tasks).
Proof.
  intros Hch. unfold ComplexityScorer.calculateWaves.
  destruct tasks as [|t tasks]; [done|].
  set (taskMap := fold_left _ (t :: tasks) []).
  destruct (calculateWaves_fold uuid (List.length tasks) taskMap (t :: tasks) [] [])
    as [levels Hl].
  - subst taskMap. apply taskMap_ids. done.
  - done.
  - simpl. lia.
  - cbn [List.length]. rewrite Hl. done.
Qed.

Lemma score_total uuid decomposition :
  chained uuid (Decomposition.tasks decomposition) →
  is_Some (ComplexityScorer.score decomposition).
Proof.
  intros Hch. unfold ComplexityScorer.score.
  destruct (calculateWaves_total uuid _ Hch) as [w ->].
  by destruct (ComplexityScorer.agentRange _).
Qed.


Section ScoreFacts.
Local Open Scope Q_scope.

Lemma Qfloor_unique (x : Q) (k : Z) :
  inject_Z k <= x → x < inject_Z (k + 1) → Qfloor x = k.
Proof.
  intros Hlo Hhi.
  pose proof (Qfloor_le x) as H1. pose proof (Qlt_floor x) as H2.
  assert (inject_Z (Qfloor x) < inject_Z (k + 1)) as H3 by lra.
  assert (inject_Z k < inject_Z (Qfloor x + 1)) as H4 by lra.
  rewrite <- Zlt_Qlt in H3, H4. lia.
Qed.

Lemma round_unique (x : Q) (k : Z) :
  inject_Z k - (1 # 2) <= x → x < inject_Z k + (1 # 2) → JS.round x = k.
Proof.
  intros Hlo Hhi. unfold JS.round. apply Qfloor_unique; [lra|].
  rewrite inject_Z_plus. change (inject_Z 1) with 1. lra.
Qed.

Lemma round_nonneg (x : Q) : 0 <= x → (0 <= JS.round x)%Z.
Proof.
  intros Hx. unfold JS.round.
  change 0%Z with (Qfloor 0). apply Qfloor_resp_le. lra.
Qed.

Lemma agentCount_values (s : Q) :
  0 <= s →
  let level :=
    if Qle_bool s 3 then simple else if Qle_bool s 7 then medium else complex in
  let count :=
    JS.round (inject_Z (ComplexityScorer.agentRange level).1
              + JS.min (s / 10) 1
                * (inject_Z (ComplexityScorer.agentRange level).2
                   - inject_Z (ComplexityScorer.agentRange level).1)) in
  match level with
  | simple => count = 1%Z
  | medium => count = 4%Z
  | complex => count = 9%Z ∨ (9 <= s ∧ count = 10%Z)
  end.
Proof.
  intros Hs level count. subst level count.
  destruct (JS_min_spec (s / 10) 1) as (Ha & Hb & Hc).
  assert (Hdiv : s / 10 == s * (1 # 10)) by (unfold Qdiv; reflexivity).
  destruct (Qle_bool s 3) eqn:H3.
  { apply Qle_bool_iff in H3. cbn [ComplexityScorer.agentRange fst snd].
    apply round_unique; change (inject_Z 1) with 1; change (inject_Z 2) with 2;
      destruct Hc as [Hc|Hc]; rewrite Hc in *; lra. }
  assert (3 < s) as H3'.
  { apply Qnot_le_lt. intros H. apply Qle_bool_iff in H. congruence. }
  destruct (Qle_bool s 7) eqn:H7.
  { apply Qle_bool_iff in H7. cbn [ComplexityScorer.agentRange fst snd].
    apply round_unique; change (inject_Z 3) with 3; change (inject_Z 5) with 5;
      change (inject_Z 4) with 4;
      destruct Hc as [Hc|Hc]; rewrite Hc in *; lra. }
  assert (7 < s) as H7'.
  { apply Qnot_le_lt. intros H. apply Qle_bool_iff in H. congruence. }
  cbn [ComplexityScorer.agentRange fst snd].
  change (inject_Z 5) with 5; change (inject_Z 10) with 10.
  destruct (Qlt_le_dec s 9) as [H9|H9].
  - left. apply round_unique; change (inject_Z 9) with 9;
      destruct Hc as [Hc|Hc]; rewrite Hc in *; lra.
  - right. split; [done|]. apply round_unique; change (inject_Z 10) with 10;
      destruct Hc as [Hc|Hc]; rewrite Hc in *; lra.
Qed.

Lemma risk_fold_ge description keywords : ∀ risk,
  risk <= fold_left
            (fun risk keyword =>
               if JS.includes description keyword then risk + 0.2 else risk)
            keywords risk.
Proof.
  induction keywords as [|kw keywords IH]; intros risk; simpl; [lra|].
  destruct (JS.includes description kw).
  - eapply Qle_trans; [|apply IH]. lra.
  - apply IH.
Qed.

Lemma risk_tasks_ge tasks : ∀ r0,
  r0 <= fold_left
          (fun risk task =>
             fold_left
               (fun risk keyword =>
                  if JS.includes (JS.toLowerCase (Task.description task)) keyword
                  then risk + 0.2 else risk)
               ComplexityScorer.riskKeywords risk)
          tasks r0.
Proof.
  induction tasks as [|t tasks IH]; intros r0; cbn [fold_left]; [lra|].
  eapply Qle_trans; [|apply IH]. apply risk_fold_ge.
Qed.

Lemma calculateRiskFactor_range tasks :
  1 <= ComplexityScorer.calculateRiskFactor tasks
  ∧ ComplexityScorer.calculateRiskFactor tasks <= 3.
Proof.
  unfold ComplexityScorer.calculateRiskFactor.
  pose proof (risk_tasks_ge tasks 1.0) as Hrisk.
  set (risk := fold_left _ tasks 1.0) in *.
  destruct (JS_min_spec risk 3.0) as (Ha & Hb & [Hc|Hc]); rewrite Hc in Ha, Hb |- *; split; lra.
Qed.

Lemma score_value_nonneg (n deps : nat) (r : Q) :
  1 <= r →
  0 <= inject_Z
         (JS.round
            (inject_Z (Z.of_nat n)
             * (1 + inject_Z (Z.of_nat deps) / inject_Z (Z.of_nat (Nat.max n 1)))
             * r * 10))
       / 10.
Proof.
  intros Hr.
  assert (0 <= inject_Z (Z.of_nat n)) as Hn.
  { change 0 with (inject_Z 0). rewrite <- Zle_Qle. lia. }
  assert (0 <= inject_Z (Z.of_nat deps)) as Hd.
  { change 0 with (inject_Z 0). rewrite <- Zle_Qle. lia. }
  assert (0 < inject_Z (Z.of_nat (Nat.max n 1))) as Hm.
  { change 0 with (inject_Z 0). rewrite <- Zlt_Qlt. lia. }
  assert (0 <= inject_Z (Z.of_nat deps) / inject_Z (Z.of_nat (Nat.max n 1))) as Hq.
  { apply Qle_shift_div_l; [done|]. lra. }
  set (w := 1 + _) in *.
  assert (0 <= inject_Z (Z.of_nat n) * w) as H1.
  { apply Qmult_le_0_compat; [done|]. subst w. lra. }
  assert (0 <= inject_Z (Z.of_nat n) * w * r) as H2.
  { apply Qmult_le_0_compat; [done|]. lra. }
  assert (0 <= inject_Z (JS.round (inject_Z (Z.of_nat n) * w * r * 10))) as H3.
  { change 0 with (inject_Z 0). rewrite <- Zle_Qle. apply round_nonneg. lra. }
  apply Qle_shift_div_l; lra.
Qed.

(* The statement of the theorem that follows, under the name that later proofs use. *)
Lemma score_facts decomposition complexity :
  ComplexityScorer.score decomposition = Some complexity →
  0 <= Complexity.score complexity
  ∧ match Complexity.level complexity with
    | simple =>
        Complexity.score complexity <= 3 ∧ Complexity.agentCount complexity = 1%Z
    | medium =>
        3 < Complexity.score complexity ∧ Complexity.score complexity <= 7
        ∧ Complexity.agentCount complexity = 4%Z
    | complex =>
        7 < Complexity.score complexity
        ∧ (Complexity.agentCount complexity = 9%Z
           ∨ (9 <= Complexity.score complexity
              ∧ Complexity.agentCount complexity = 10%Z))
    end.
Proof.
  unfold ComplexityScorer.score.
  destruct (calculateRiskFactor_range (Decomposition.tasks decomposition)) as [Hr _].
  pose proof (score_value_nonneg
                (List.length (Decomposition.tasks decomposition))
                (fold_left (fun sum t => (sum + List.length (Task.dependsOn t))%nat)
                   (Decomposition.tasks decomposition) 0%nat)
                _ Hr) as Hs.
  set (s := inject_Z (JS.round _) / 10) in *.
  pose proof (agentCount_values s Hs) as Hv. cbv zeta in Hv.
  destruct (Qle_bool s 3) eqn:H3; [|destruct (Qle_bool s 7) eqn:H7];
    cbn [ComplexityScorer.agentRange fst snd] in *;
    destruct (ComplexityScorer.calculateWaves _); intros [= <-];
    cbn [Complexity.score Complexity.level Complexity.agentCount];
    (split; [exact Hs|]).
  - apply Qle_bool_iff in H3. done.
  - apply Qle_bool_iff in H7. split; [|done].
    apply Qnot_le_lt. intros H. apply Qle_bool_iff in H. congruence.
  - split; [|done].
    apply Qnot_le_lt. intros H. apply Qle_bool_iff in H. congruence.
Qed.

(** The result of [score]: the score is not negative; the level is
    [simple] up to 3, [medium] above 3 and up to 7, [complex] above 7; and
    the recommended number of agents is 1 for a simple task, 4 for a medium
    one and 9 or 10 for a complex one (10 from a score of 9 on): the other
    values of the ranges 1-2, 3-5 and 5-10 are never recommended. *)
Theorem score_level_and_agentCount decomposition complexity :
  ComplexityScorer.score decomposition = Some complexity →
  0 <= Complexity.score complexity
  ∧ match Complexity.level complexity with
    | simple =>
        Complexity.score complexity <= 3 ∧ Complexity.agentCount complexity = 1%Z
    | medium =>
        3 < Complexity.score complexity ∧ Complexity.score complexity <= 7
        ∧ Complexity.agentCount complexity = 4%Z
    | complex =>
        7 < Complexity.score complexity
        ∧ (Complexity.agentCount complexity = 9%Z
           ∨ (9 <= Complexity.score complexity
              ∧ Complexity.agentCount complexity = 10%Z))
    end.
Proof. exact (score_facts decomposition complexity). Qed.
End ScoreFacts.

Lemma score_level_and_agentCount_witness :
  ∃ complexity,
    ComplexityScorer.score chain2 = Some complexity
    ∧ Complexity.level complexity = simple
    ∧ Complexity.agentCount complexity = 1%Z.
Proof.
  eexists. split; [vm_compute; reflexivity|].
  match goal with
  | |- Complexity.level ?c = _ ∧ _ =>
      pose proof (score_level_and_agentCount chain2 c eq_refl) as [_ H]
  end.
  split; [reflexivity|]. exact (proj2 H).
Defined.


(** ** The wave scheduler: execution *)

Lemma omap_get_map {V W} (f : V → W) k (m : omap V) :
  OMap.get k (map (fun kv => (kv.1, f kv.2)) m) = f <$> OMap.get k m.
Proof.
  induction m as [|[k' v] m IH]; simpl; [done|].
  by destruct (String.eqb k k').
Qed.

Lemma task_view_get ref nodes :
  OMap.get ref (task_view nodes) = Node.task <$> OMap.get ref nodes.
Proof. apply omap_get_map. Qed.

Lemma task_view_set ref n n' nodes :
  OMap.get ref nodes = Some n → Node.task n' = Node.task n →
  task_view (OMap.set ref n' nodes) = task_view nodes.
Proof. intros. by eapply omap_set_map. Qed.

Lemma task_view_update ref f nodes :
  (∀ n, Node.task (f n) = Node.task n) →
  task_view (DAGScheduler.update ref f nodes) = task_view nodes.
Proof.
  intros Hf. unfold DAGScheduler.update.
  destruct (OMap.get ref nodes) as [n|] eqn:Hget; [|done].
  by eapply task_view_set.
Qed.

Lemma task_view_skipDependents failedIds : ∀ nodes,
  task_view (DAGScheduler.skipDependents nodes failedIds) = task_view nodes.
Proof.
  unfold DAGScheduler.skipDependents.
  induction failedIds as [|failedId failedIds IH]; intros nodes; simpl; [done|].
  rewrite IH. destruct (OMap.get failedId nodes) as [failedNode|]; [|done].
  generalize (elements (Node.dependents failedNode)). clear.
  intros deps. revert nodes. induction deps as [|depId deps IH]; intros nodes; simpl; [done|].
  rewrite IH. destruct (OMap.get depId nodes) as [depNode|] eqn:Hget; [|done].
  destruct (Status_eqb _ _); [|done]. by eapply task_view_set.
Qed.

Lemma runNode_spec assignments pool i ref st :
  let found := OMap.get ref (task_view (DAGScheduler.store st)) in
  let '(st', r) := DAGScheduler.runNode assignments pool i ref st in
  task_view (DAGScheduler.store st') = task_view (DAGScheduler.store st)
  ∧ r = result_of assignments pool i <$> found
  ∧ DAGScheduler.dispatched st'
    = DAGScheduler.dispatched st
      ++ match found with Some task => [job_of assignments task] | None => [] end.
Proof.
  intros found. subst found. rewrite task_view_get.
  unfold DAGScheduler.runNode, result_of, job_of.
  destruct (OMap.get ref (DAGScheduler.store st)) as [node|] eqn:Hget; simpl.
  2: { by rewrite app_nil_r. }
  destruct (pool _); simpl.
  - split; [|done]. rewrite task_view_update by done. by eapply task_view_set.
  - split; [|done]. rewrite task_view_update by done. by eapply task_view_set.
Qed.

Lemma runWave_spec assignments pool i wave : ∀ st results,
  let tasks := tasks_of (task_view (DAGScheduler.store st)) wave in
  let '(st', results') :=
    fold_left
      (fun '(st, results) ref =>
         match DAGScheduler.runNode assignments pool i ref st with
         | (st', Some r) => (st', results ++ [r])
         | (st', None) => (st', results)
         end)
      wave (st, results) in
  task_view (DAGScheduler.store st') = task_view (DAGScheduler.store st)
  ∧ results' = results ++ map (result_of assignments pool i) tasks
  ∧ DAGScheduler.dispatched st'
    = DAGScheduler.dispatched st ++ map (job_of assignments) tasks.
Proof.
  induction wave as [|ref wave IH]; intros st results; cbn [fold_left tasks_of flat_map].
  { by rewrite !app_nil_r. }
  pose proof (runNode_spec assignments pool i ref st) as Hnode. cbv zeta in Hnode.
  destruct (DAGScheduler.runNode assignments pool i ref st) as [st1 r].
  destruct Hnode as (Hview & Hr & Hd).
  destruct (OMap.get ref (task_view (DAGScheduler.store st))) as [task|]; simpl in Hr; subst r.
  - specialize (IH st1 (results ++ [result_of assignments pool i task])). cbv zeta in IH.
    destruct (fold_left _ wave _) as [st' results'].
    destruct IH as (Hview' & Hr' & Hd').
    unfold tasks_of in *. rewrite Hview in *.
    split; [done|]. split.
    + rewrite Hr'. rewrite <- app_assoc. done.
    + rewrite Hd', Hd. rewrite <- app_assoc. done.
  - specialize (IH st1 results). cbv zeta in IH.
    destruct (fold_left _ wave _) as [st' results'].
    destruct IH as (Hview' & Hr' & Hd').
    unfold tasks_of in *. rewrite Hview in *. rewrite app_nil_r in Hd.
    split; [done|]. split; [done|]. by rewrite Hd', Hd.
Qed.

Lemma runWaves_spec assignments pool total waves : ∀ i st allResults,
  let view := task_view (DAGScheduler.store st) in
  let '(st', results') :=
    DAGScheduler.runWaves assignments pool total i waves st allResults in
  results'
  = allResults
    ++ concat (imap (fun k wave =>
                       map (result_of assignments pool (i + k)) (tasks_of view wave))
                    waves)
  ∧ DAGScheduler.dispatched st'
    = DAGScheduler.dispatched st
      ++ map (job_of assignments) (tasks_of view (concat waves)).
Proof.
  induction waves as [|wave waves IH]; intros i st allResults;
    cbn [DAGScheduler.runWaves].
  { cbn. by rewrite !app_nil_r. }
  unfold DAGScheduler.runWave.
  pose proof (runWave_spec assignments pool i wave st []) as Hwave. cbv zeta in Hwave.
  destruct (fold_left _ wave _) as [st1 waveResults].
  destruct Hwave as (Hview & Hr & Hd). simpl in Hr.
  set (st2 := match List.filter _ waveResults with [] => st1 | _ => _ end).
  assert (task_view (DAGScheduler.store st2) = task_view (DAGScheduler.store st)
          ∧ DAGScheduler.dispatched st2 = DAGScheduler.dispatched st1) as [Hview2 Hd2].
  { subst st2. destruct (List.filter _ waveResults); [done|].
    destruct (_ <? _)%nat; [|done].
    cbn [DAGScheduler.store DAGScheduler.dispatched].
    by rewrite task_view_skipDependents. }
  specialize (IH (S i) st2 (allResults ++ waveResults)). cbv zeta in IH.
  destruct (DAGScheduler.runWaves _ _ _ _ waves st2 _) as [st' results'].
  destruct IH as (Hr' & Hd'). rewrite Hview2 in *.
  split.
  - rewrite Hr', Hr. cbn [imap concat]. rewrite Nat.add_0_r, <- app_assoc.
    do 3 f_equal. apply imap_ext. intros k w _. simpl. do 2 f_equal. lia.
  - rewrite Hd', Hd2, Hd. unfold tasks_of. cbn [concat]. rewrite flat_map_app, map_app.
    by rewrite <- app_assoc.
Qed.


Lemma tasks_of_keyed (view : omap Task.t) refs :
  (∀ k task, OMap.get k view = Some task → Task.id task = k) →
  refs ⊆ OMap.keys view →
  map Task.id (tasks_of view refs) = refs.
Proof.
  intros Hkeyed. induction refs as [|ref refs IH]; intros Hsub; [done|].
  unfold tasks_of in *. cbn [flat_map].
  destruct (omap_keys_get ref view) as [task Hget]; [set_solver|].
  rewrite Hget. simpl. rewrite (Hkeyed _ _ Hget), IH; [done|set_solver].
Qed.

Lemma length_by_wave {B} (view : omap Task.t) (waves : list (list string)) :
  ∀ g : nat → Task.t → B,
    List.length (concat (imap (fun i wave => map (g i) (tasks_of view wave)) waves))
    = List.length (tasks_of view (concat waves)).
Proof.
  induction waves as [|wave waves IH]; intros g; [done|].
  cbn [imap concat]. unfold tasks_of in *.
  rewrite flat_map_app, !length_app, length_map. f_equal.
  apply (IH (fun i => g (S i))).
Qed.

Lemma ids_by_wave {B} (view : omap Task.t) (proj : B → string)
    (waves : list (list string)) :
  (∀ k task, OMap.get k view = Some task → Task.id task = k) →
  (∀ wave, wave ∈ waves → wave ⊆ OMap.keys view) →
  ∀ g : nat → Task.t → B,
    (∀ i task, proj (g i task) = Task.id task) →
    map proj (concat (imap (fun i wave => map (g i) (tasks_of view wave)) waves))
    = concat waves.
Proof.
  intros Hkeyed. induction waves as [|wave waves IH]; intros Hwaves g Hg; [done|].
  cbn [imap concat]. rewrite map_app, map_map.
  rewrite (map_ext _ Task.id) by (intros t; apply Hg).
  rewrite tasks_of_keyed by (try done; apply Hwaves; left).
  f_equal. apply (IH (fun wave Hw => Hwaves wave (list_elem_of_further _ _ _ Hw))
                     (fun i => g (S i))).
  intros i task. apply Hg.
Qed.

(* The statement of the theorem that follows, under the name that later proofs use. *)
Lemma results_by_wave dag allocation pool :
  let view := task_view (DAG.nodes dag) in
  let assignments := Allocation.assignments allocation in
  ExecutionResult.results (DAGScheduler.execute dag allocation pool).2
  = concat (imap (fun i wave =>
                    map (result_of assignments pool i) (tasks_of view wave))
                 (DAG.waves dag))
  ∧ DAGScheduler.dispatched (DAGScheduler.execute dag allocation pool).1
    = map (job_of assignments) (tasks_of view (concat (DAG.waves dag)))
  ∧ ExecutionResult.totalTasks (DAGScheduler.execute dag allocation pool).2
    = List.length (tasks_of view (concat (DAG.waves dag))).
Proof.
  intros view assignments. unfold DAGScheduler.execute.
  pose proof (runWaves_spec assignments pool (List.length (DAG.waves dag))
                (DAG.waves dag) 0 (DAGScheduler.mkExec (DAG.nodes dag) []) []) as H.
  cbv zeta in H. fold assignments.
  destruct (DAGScheduler.runWaves _ _ _ _ _ _ _) as [st results].
  destruct H as [Hr Hd]. simpl in Hr, Hd. fold view in Hr, Hd.
  cbn [fst snd ExecutionResult.results ExecutionResult.totalTasks].
  split; [done|]. split; [done|].
  rewrite Hr. apply length_by_wave.
Qed.

(** The list of results of [execute] is made wave by wave and reference by
    reference: every reference of a wave that names a node yields one job
    handed to the worker pool and one result, made of the task of the node
    and of what the pool hands back for that job.  Nothing else enters: not
    the status of the node, not the outcome of any other task. *)
Theorem execute_results_by_wave dag allocation pool :
  let view := task_view (DAG.nodes dag) in
  let assignments := Allocation.assignments allocation in
  ExecutionResult.results (DAGScheduler.execute dag allocation pool).2
  = concat (imap (fun i wave =>
                    map (result_of assignments pool i) (tasks_of view wave))
                 (DAG.waves dag))
  ∧ DAGScheduler.dispatched (DAGScheduler.execute dag allocation pool).1
    = map (job_of assignments) (tasks_of view (concat (DAG.waves dag)))
  ∧ ExecutionResult.totalTasks (DAGScheduler.execute dag allocation pool).2
    = List.length (tasks_of view (concat (DAG.waves dag))).
Proof. exact (results_by_wave dag allocation pool). Qed.

Lemma result_of_fields assignments pool i task :
  let r := result_of assignments pool i task in
  TaskResult.taskId r = Task.id task
  ∧ TaskResult.description r = Task.description task
  ∧ TaskResult.wave r = i
  ∧ TaskResult.agentId r = List.head (default [] (assignments !! Task.id task))
  ∧ settled r.
Proof.
  unfold result_of, settled. destruct (pool _); cbn; auto 10.
Qed.

Lemma task_view_keys nodes : OMap.keys (task_view nodes) = OMap.keys nodes.
Proof. unfold OMap.keys, task_view. rewrite map_map. done. Qed.

Lemma task_view_keyed nodes :
  wf_store nodes →
  ∀ k task, OMap.get k (task_view nodes) = Some task → Task.id task = k.
Proof.
  intros [Hnd Hall] k task. rewrite task_view_get.
  destruct (OMap.get k nodes) as [n|] eqn:Hget; [|done]. intros [= <-].
  apply omap_get_Some_elem in Hget. rewrite Forall_forall in Hall.
  exact (Hall _ Hget).
Qed.

Lemma waves_sound_step nodes completed waves :
  waves_sound nodes completed waves →
  DAGScheduler.frontier nodes completed ≠ [] →
  waves_sound (mark (DAGScheduler.frontier nodes completed) nodes)
    (completed ∪ list_to_set (DAGScheduler.frontier nodes completed))
    (waves ++ [DAGScheduler.frontier nodes completed]).
Proof.
  intros (Hwf & -> & Hnd & Hsub) _. unfold waves_sound.
  split; [by apply mark_wf|]. rewrite concat_app. simpl. rewrite app_nil_r.
  split; [by rewrite list_to_set_app_L|]. split.
  - apply NoDup_app. split; [done|]. split; [|apply frontier_NoDup, Hwf].
    intros k Hk Hk'. apply frontier_fresh in Hk'. apply Hk'.
    by apply elem_of_list_to_set.
  - rewrite mark_keys. intros k Hk. apply elem_of_app in Hk as [Hk|Hk]; [by apply Hsub|].
    by apply (frontier_keys _ _ _ Hk).
Qed.

Lemma buildDAG_sound decomposition dag :
  DAGScheduler.buildDAG decomposition = Some dag →
  wf_store (DAG.nodes dag)
  ∧ NoDup (concat (DAG.waves dag))
  ∧ concat (DAG.waves dag) ⊆ OMap.keys (DAG.nodes dag).
Proof.
  unfold DAGScheduler.buildDAG, DAGScheduler.computeWaves.
  set (tasks := Decomposition.tasks decomposition).
  set (nodes := DAGScheduler.linkDependents tasks (DAGScheduler.makeNodes tasks)).
  assert (List.length nodes - size (∅ : gset string) < S (OMap.size nodes))%nat as Hfuel
    by (unfold OMap.size; lia).
  assert (waves_sound nodes ∅ []) as Hinit.
  { split; [apply linkDependents_wf, makeNodes_wf|].
    split; [done|]. split; [constructor|]. simpl. set_solver. }
  destruct (computeWaves_loop_inv waves_sound (fun n c w H => proj1 H)
              waves_sound_step (S (OMap.size nodes)) nodes ∅ [] Hinit Hfuel)
    as (nodes' & completed' & waves' & -> & (Hwf & _ & Hnd & Hsub) & _).
  intros [= <-]. done.
Qed.

(* The statement of the theorem that follows, under the name that later proofs use. *)
Lemma follows_waves decomposition allocation pool :
  ∃ dag,
    DAGScheduler.buildDAG decomposition = Some dag
    ∧ let run := DAGScheduler.execute dag allocation pool in
      map TaskResult.taskId (ExecutionResult.results run.2) = concat (DAG.waves dag)
      ∧ map (fun job => Task.id (Job.task job)) (DAGScheduler.dispatched run.1)
        = concat (DAG.waves dag)
      ∧ NoDup (concat (DAG.waves dag))
      ∧ ExecutionResult.totalTasks run.2 = List.length (concat (DAG.waves dag))
      ∧ Forall
          (fun r =>
             (∃ wave, DAG.waves dag !! TaskResult.wave r = Some wave
                      ∧ TaskResult.taskId r ∈ wave)
             ∧ TaskResult.agentId r
               = List.head (default [] (Allocation.assignments allocation
                                          !! TaskResult.taskId r))
             ∧ (TaskResult.status r = completed ∨ TaskResult.status r = failed))
          (ExecutionResult.results run.2).
Proof.
  destruct (buildDAG_total decomposition) as [dag Hdag]. exists dag. split; [done|].
  destruct (buildDAG_sound _ _ Hdag) as (Hwf & Hnd & Hsub).
  destruct (results_by_wave dag allocation pool) as (Hr & Hd & Ht).
  cbv zeta in *. rewrite Hr, Hd, Ht.
  set (view := task_view (DAG.nodes dag)).
  set (assignments := Allocation.assignments allocation).
  assert (Hkeyed : ∀ k task, OMap.get k view = Some task → Task.id task = k)
    by (by apply task_view_keyed).
  assert (Hsub' : concat (DAG.waves dag) ⊆ OMap.keys view)
    by (subst view; by rewrite task_view_keys).
  assert (Hwaves : ∀ wave, wave ∈ DAG.waves dag → wave ⊆ OMap.keys view).
  { intros wave Hw k Hk. apply Hsub'. apply list_elem_of_In, in_concat.
    exists wave. split; by apply list_elem_of_In. }
  split; [|split; [|split; [done|split]]].
  - apply ids_by_wave; [done|done|]. intros i task. apply result_of_fields.
  - rewrite map_map. cbn [job_of Job.task]. by apply tasks_of_keyed.
  - rewrite <- (tasks_of_keyed view (concat (DAG.waves dag))) at 2 by done.
    by rewrite length_map.
  - apply Forall_forall. intros r Hin.
    apply elem_of_concat_lookup in Hin as (i & rs & Hi & Hin).
    rewrite list_lookup_imap in Hi.
    destruct (DAG.waves dag !! i) as [wave|] eqn:Hwave; [|done].
    injection Hi as <-. apply list_elem_of_fmap in Hin as (task & -> & Htask).
    destruct (result_of_fields assignments pool i task) as (Hid & _ & Hw & Ha & Hs).
    cbv zeta in *. rewrite Hid, Hw, Ha. split; [|done].
    exists wave. split; [done|].
    unfold tasks_of in Htask. apply list_elem_of_In, in_flat_map in Htask
      as (ref & Href & Htask).
    destruct (OMap.get ref view) as [task'|] eqn:Hget; [|done].
    destruct Htask as [->|[]]. rewrite (Hkeyed _ _ Hget). by apply list_elem_of_In.
Qed.

(** [buildDAG] followed by [execute]: every task of the waves is handed to
    the worker pool once and yields one result, both in the order of the
    waves; a result carries the index of the wave of its task, the first of
    the agents assigned to the task, and the status [completed] or
    [failed]. *)
Theorem execute_follows_waves decomposition allocation pool :
  ∃ dag,
    DAGScheduler.buildDAG decomposition = Some dag
    ∧ let run := DAGScheduler.execute dag allocation pool in
      map TaskResult.taskId (ExecutionResult.results run.2) = concat (DAG.waves dag)
      ∧ map (fun job => Task.id (Job.task job)) (DAGScheduler.dispatched run.1)
        = concat (DAG.waves dag)
      ∧ NoDup (concat (DAG.waves dag))
      ∧ ExecutionResult.totalTasks run.2 = List.length (concat (DAG.waves dag))
      ∧ Forall
          (fun r =>
             (∃ wave, DAG.waves dag !! TaskResult.wave r = Some wave
                      ∧ TaskResult.taskId r ∈ wave)
             ∧ TaskResult.agentId r
               = List.head (default [] (Allocation.assignments allocation
                                          !! TaskResult.taskId r))
             ∧ (TaskResult.status r = completed ∨ TaskResult.status r = failed))
          (ExecutionResult.results run.2).
Proof. exact (follows_waves decomposition allocation pool). Qed.


(** ** The DAG builder on arbitrary dependencies *)

Lemma buildDAG_exit decomposition :
  NoDup (map Task.id (Decomposition.tasks decomposition)) →
  ∃ dag completed,
    DAGScheduler.buildDAG decomposition = Some dag
    ∧ waves_inv (Decomposition.tasks decomposition) (DAG.nodes dag) completed
                (DAG.waves dag)
    ∧ ((List.length (DAG.nodes dag) ≤ size completed)%nat
       ∨ DAGScheduler.frontier (DAG.nodes dag) completed = []).
Proof.
  intros Hnd. unfold DAGScheduler.buildDAG, DAGScheduler.computeWaves.
  set (tasks := Decomposition.tasks decomposition) in *.
  set (nodes := DAGScheduler.linkDependents tasks (DAGScheduler.makeNodes tasks)).
  assert (List.length nodes - size (∅ : gset string) < S (OMap.size nodes))%nat as Hfuel
    by (unfold OMap.size; lia).
  destruct (computeWaves_loop_inv (waves_inv tasks)
              (fun n c w H => inv_wf _ _ _ _ H) (waves_inv_step tasks)
              (S (OMap.size nodes)) nodes ∅ [] (waves_inv_init tasks Hnd) Hfuel)
    as (nodes' & completed' & waves' & -> & Hinv & Hexit).
  by exists (DAG.mk nodes' waves'), completed'.
Qed.

Lemma concat_take_subseteq {A} (l : list (list A)) i : concat (take i l) ⊆ concat l.
Proof.
  intros x Hx. rewrite <- (take_drop i l), concat_app. apply elem_of_app. by left.
Qed.

Lemma NoDup_concat_earlier {A} (l : list (list A)) i w x :
  NoDup (concat l) → l !! i = Some w → x ∈ w → x ∉ concat (take i l).
Proof.
  intros Hnd Hw Hx Hearlier.
  rewrite <- (take_drop i l), concat_app in Hnd.
  apply NoDup_app in Hnd as (_ & Hdisj & _). apply (Hdisj x Hearlier).
  rewrite (drop_S l w i Hw). simpl. apply elem_of_app. by left.
Qed.

Lemma node_of_task tasks nodes t :
  map frame nodes = map frame_of_task tasks → t ∈ tasks →
  ∃ n, (Task.id t, n) ∈ nodes ∧ Node.dependsOn n = list_to_set (Task.dependsOn t).
Proof.
  intros Hfr Ht.
  assert (frame_of_task t ∈ map frame nodes) as Hin.
  { rewrite Hfr. by apply (list_elem_of_fmap_2 frame_of_task). }
  apply list_elem_of_fmap in Hin as ([k n] & Heq & Hin).
  unfold frame, frame_of_task in Heq. simpl in Heq. injection Heq as <- _ Hd.
  by exists n.
Qed.

(** For tasks with distinct identifiers and any dependencies, cyclic or
    unknown ones included, [buildDAG] makes a node of every task and puts a
    task in the waves exactly when all its dependencies are in the waves;
    the dependencies of a task of the waves lie in earlier waves.  So a task
    that depends on an identifier of no task, or on itself, is left out of
    the waves. *)
Theorem scheduled_iff_dependencies_scheduled decomposition :
  NoDup (map Task.id (Decomposition.tasks decomposition)) →
  ∃ dag,
    DAGScheduler.buildDAG decomposition = Some dag
    ∧ OMap.keys (DAG.nodes dag) = map Task.id (Decomposition.tasks decomposition)
    ∧ (∀ t, t ∈ Decomposition.tasks decomposition →
         (Task.id t ∈ concat (DAG.waves dag)
          ↔ ∀ dep, dep ∈ Task.dependsOn t → dep ∈ concat (DAG.waves dag)))
    ∧ (∀ i wave t dep,
         DAG.waves dag !! i = Some wave → t ∈ Decomposition.tasks decomposition →
         Task.id t ∈ wave → dep ∈ Task.dependsOn t →
         ∃ j wave', (j < i)%nat ∧ DAG.waves dag !! j = Some wave' ∧ dep ∈ wave')
    ∧ (∀ t dep, t ∈ Decomposition.tasks decomposition → dep ∈ Task.dependsOn t →
         dep ∉ map Task.id (Decomposition.tasks decomposition) ∨ dep = Task.id t →
         Task.id t ∉ concat (DAG.waves dag)).
Proof.
  intros Hnd.
  destruct (buildDAG_exit decomposition Hnd) as (dag & completed & Hdag & Hinv & Hexit).
  exists dag. split; [done|].
  destruct Hinv as [Hwf Hfr Hpend Hcomp Hndw Hkeys Hdeps Hne].
  set (tasks := Decomposition.tasks decomposition) in *.
  pose proof (frame_keys _ _ Hfr) as Hids.
  assert (Hearlier : ∀ i wave t dep,
            DAG.waves dag !! i = Some wave → t ∈ tasks → Task.id t ∈ wave →
            dep ∈ Task.dependsOn t → dep ∈ concat (take i (DAG.waves dag))).
  { intros i wave t dep Hw Ht Hin Hdep.
    destruct (node_of_task _ _ t Hfr Ht) as (n & Hn & Hd).
    pose proof (Hdeps i wave _ n Hw Hin Hn dep) as H. rewrite Hd in H.
    rewrite !elem_of_list_to_set in H. by apply H. }
  assert (Hforward : ∀ t, t ∈ tasks → Task.id t ∈ concat (DAG.waves dag) →
            ∀ dep, dep ∈ Task.dependsOn t → dep ∈ concat (DAG.waves dag)).
  { intros t Ht Hin dep Hdep.
    apply elem_of_concat_lookup in Hin as (i & wave & Hw & Hin).
    eapply concat_take_subseteq, Hearlier; done. }
  split; [done|]. split; [|split].
  - intros t Ht. split; [by apply Hforward|]. intros Hall.
    destruct (decide (Task.id t ∈ concat (DAG.waves dag))) as [?|Hnot]; [done|].
    exfalso.
    destruct (node_of_task _ _ t Hfr Ht) as (n & Hn & Hd).
    assert (Task.id t ∉ completed) as Hfresh
      by (rewrite Hcomp; by rewrite elem_of_list_to_set).
    assert (Task.id t ∈ DAGScheduler.frontier (DAG.nodes dag) completed) as Hfront.
    { apply elem_of_frontier. exists n. split; [done|]. split; [done|].
      split; [by eapply Hpend|]. rewrite Hd, Hcomp. intros dep.
      rewrite !elem_of_list_to_set. apply Hall. }
    destruct Hexit as [Hfull|Hnil]; [|rewrite Hnil in Hfront; by apply elem_of_nil in Hfront].
    apply Hnot.
    assert (concat (DAG.waves dag) ≡ₚ OMap.keys (DAG.nodes dag)) as Hperm.
    { apply submseteq_length_Permutation; [by apply NoDup_submseteq|].
      rewrite Hcomp, size_list_to_set in Hfull by done.
      unfold OMap.keys. by rewrite length_map. }
    rewrite Hperm, Hids. by apply (list_elem_of_fmap_2 Task.id).
  - intros i wave t dep Hw Ht Hin Hdep.
    apply elem_of_concat_take. eapply Hearlier; done.
  - intros t dep Ht Hdep Hbad Hin.
    destruct Hbad as [Hunknown| ->].
    + apply Hunknown. rewrite <- Hids. apply Hkeys. by eapply Hforward.
    + apply elem_of_concat_lookup in Hin as (i & wave & Hw & Hin).
      eapply (NoDup_concat_earlier (DAG.waves dag)); [done|done|done|].
      eapply Hearlier; done.
Qed.

Lemma scheduled_iff_dependencies_scheduled_witness :
  ∃ dag,
    DAGScheduler.buildDAG chain2 = Some dag
    ∧ OMap.keys (DAG.nodes dag) = ["t1"; "t2"].
Proof.
  assert (NoDup (map Task.id (Decomposition.tasks chain2))) as Hnd.
  { apply (bool_decide_unpack _). by vm_compute. }
  destruct (scheduled_iff_dependencies_scheduled chain2 Hnd) as (dag & Hdag & Hkeys & _).
  exists dag. split; [exact Hdag|exact Hkeys].
Defined.


(** ** The orchestrator on every input *)

Lemma execute_run env input o :
  let parsed := Orchestrator.parseInput input in
  let intent := IntentClassifier.classify parsed in
  let tasks := TaskDecomposer.decompose (Env.uuid env) parsed intent in
  ∃ complexity dag,
    ComplexityScorer.score tasks = Some complexity
    ∧ DAGScheduler.buildDAG tasks = Some dag
    ∧ let allocation :=
        AgentSpawner.allocate (Orchestrator.registry o) tasks complexity intent in
      let execution := (DAGScheduler.execute dag allocation (Env.pool env)).2 in
      let evaluation := ResultEvaluator.evaluate execution tasks in
      let learned :=
        LearningSystem.update (Env.now env) input intent complexity allocation
          execution evaluation (Env.elapsed env)
          (Orchestrator.memory o, Orchestrator.updateQueue o) in
      Orchestrator.execute env input o
      = (Success (ResultAggregator.aggregate execution evaluation).1
           (Pipeline.mk (Some intent) (Some tasks) (Some complexity)
              (Some allocation) (Some execution) (Some evaluation))
           (RunMetrics.mk (Env.elapsed env)
              (List.length (Allocation.agents allocation))
              (Evaluation.completed evaluation) (Evaluation.failed evaluation)
              (Complexity.level complexity)),
         Orchestrator.mk (Orchestrator.registry o) learned.1 learned.2).
Proof.
  intros parsed intent tasks.
  destruct (score_total (Env.uuid env) tasks) as [complexity Hscore].
  { apply decompose_chained. }
  destruct (buildDAG_total tasks) as [dag Hdag].
  exists complexity, dag. split; [done|]. split; [done|].
  intros allocation execution evaluation learned.
  unfold Orchestrator.execute. fold parsed. fold intent. fold tasks.
  rewrite Hscore, Hdag. fold allocation.
  subst execution. destruct (DAGScheduler.execute dag allocation (Env.pool env)) as [st ex].
  cbn [snd] in *. fold evaluation.
  unfold ResultAggregator.aggregate. cbn [fst].
  subst learned. destruct (LearningSystem.update _ _ _ _ _ _ _ _ _) as [m q]. done.
Qed.

(* The statement of the theorem that follows, under the name that later proofs use. *)
Lemma execute_succeeds env input o :
  ∃ summary pipeline metrics o',
    Orchestrator.execute env input o = (Success summary pipeline metrics, o')
    ∧ is_Some (Pipeline.intent pipeline) ∧ is_Some (Pipeline.decomposition pipeline)
    ∧ is_Some (Pipeline.complexity pipeline) ∧ is_Some (Pipeline.agents pipeline)
    ∧ is_Some (Pipeline.execution pipeline) ∧ is_Some (Pipeline.evaluation pipeline).
Proof.
  destruct (execute_run env input o) as (complexity & dag & _ & _ & H).
  cbv zeta in H. rewrite H. eexists _, _, _, _. split; [done|]. cbn. auto 10.
Qed.

(** Whatever the input and whatever the worker pool does with the jobs,
    [execute] returns the form with [output], a pipeline with its six stages
    filled and the five metrics: the form with [error] is never returned.  *)
Theorem execute_always_succeeds env input o :
  ∃ summary pipeline metrics o',
    Orchestrator.execute env input o = (Success summary pipeline metrics, o')
    ∧ is_Some (Pipeline.intent pipeline) ∧ is_Some (Pipeline.decomposition pipeline)
    ∧ is_Some (Pipeline.complexity pipeline) ∧ is_Some (Pipeline.agents pipeline)
    ∧ is_Some (Pipeline.execution pipeline) ∧ is_Some (Pipeline.evaluation pipeline).
Proof. exact (execute_succeeds env input o). Qed.


(** ** Result evaluator *)

Section EvaluatorFacts.
Local Open Scope Q_scope.

Lemma inject_nat_nonneg (n : nat) : 0 <= inject_Z (Z.of_nat n).
Proof. change 0 with (inject_Z 0). rewrite <- Zle_Qle. lia. Qed.

Lemma ratio_range (a b : nat) :
  (a ≤ b)%nat → (0 < b)%nat →
  0 <= inject_Z (Z.of_nat a) / inject_Z (Z.of_nat b)
  ∧ inject_Z (Z.of_nat a) / inject_Z (Z.of_nat b) <= 1.
Proof.
  intros Hab Hb.
  assert (0 < inject_Z (Z.of_nat b)) as Hb'.
  { change 0 with (inject_Z 0). rewrite <- Zlt_Qlt. lia. }
  assert (inject_Z (Z.of_nat a) <= inject_Z (Z.of_nat b)) as Hab'.
  { rewrite <- Zle_Qle. lia. }
  pose proof (inject_nat_nonneg a).
  split; [apply Qle_shift_div_l; lra|apply Qle_shift_div_r; lra].
Qed.

Lemma round_percent_range (x : Q) :
  0 <= x → x <= 1 →
  0 <= inject_Z (JS.round (x * 100)) / 100 ∧ inject_Z (JS.round (x * 100)) / 100 <= 1.
Proof.
  intros Hlo Hhi.
  assert (0 <= JS.round (x * 100))%Z as H0 by (apply round_nonneg; lra).
  assert (JS.round (x * 100) <= 100)%Z as H1.
  { unfold JS.round.
    assert (x * 100 + (1 # 2) <= 100 + (1 # 2)) as H by lra.
    apply Qfloor_resp_le in H. exact H. }
  rewrite Zle_Qle in H0, H1. change (inject_Z 0) with 0 in H0.
  change (inject_Z 100) with 100 in H1.
  split; [apply Qle_shift_div_l; lra|apply Qle_shift_div_r; lra].
Qed.

Lemma calculateQuality_range successRate avgDuration errorCount :
  0 <= successRate → successRate <= 1 → 0 <= avgDuration →
  0 <= ResultEvaluator.calculateQuality successRate avgDuration errorCount
  ∧ ResultEvaluator.calculateQuality successRate avgDuration errorCount <= 1.
Proof.
  intros Hs0 Hs1 Ha. unfold ResultEvaluator.calculateQuality.
  set (speed := JS.max 0 (1 - avgDuration / 10000)).
  set (err := JS.max 0 (1 - inject_Z (Z.of_nat errorCount) / 5)).
  assert (0 <= speed ∧ speed <= 1) as [Hp0 Hp1].
  { subst speed.
    assert (avgDuration / 10000 == avgDuration * (1 # 10000)) as Hd
      by (unfold Qdiv; reflexivity).
    destruct (JS_max_spec 0 (1 - avgDuration / 10000)) as (H1 & H2 & [H3|H3]);
      rewrite H3 in *; split; lra. }
  assert (0 <= err ∧ err <= 1) as [He0 He1].
  { subst err. pose proof (inject_nat_nonneg errorCount) as Hn.
    assert (inject_Z (Z.of_nat errorCount) / 5
            == inject_Z (Z.of_nat errorCount) * (1 # 5)) as Hd
      by (unfold Qdiv; reflexivity).
    destruct (JS_max_spec 0 (1 - inject_Z (Z.of_nat errorCount) / 5))
      as (H1 & H2 & [H3|H3]); rewrite H3 in *; split; lra. }
  apply round_percent_range; lra.
Qed.
End EvaluatorFacts.

Lemma count_three (results : list TaskResult.t) :
  (ResultEvaluator.count completed results + ResultEvaluator.count failed results
   + ResultEvaluator.count skipped results ≤ List.length results)%nat.
Proof.
  unfold ResultEvaluator.count.
  induction results as [|r results IH]; simpl; [lia|].
  destruct (TaskResult.status r); simpl; lia.
Qed.

Lemma count_settled (results : list TaskResult.t) :
  Forall settled results →
  (ResultEvaluator.count completed results + ResultEvaluator.count failed results
   = List.length results)%nat
  ∧ ResultEvaluator.count skipped results = 0%nat.
Proof.
  unfold ResultEvaluator.count.
  induction 1 as [|r results Hr _ IH]; simpl; [done|].
  destruct Hr as [-> | ->]; simpl; lia.
Qed.

Lemma total_duration_nonneg (results : list TaskResult.t) : ∀ acc,
  (acc ≤ fold_left (fun sum r => (sum + TaskResult.duration r)%nat) results acc)%nat.
Proof.
  induction results as [|r results IH]; intros acc; simpl; [lia|].
  etransitivity; [|apply IH]. lia.
Qed.

(** The evaluation of any list of results: the three counts fit in the
    total, and the success rate and the quality lie between 0 and 1; an
    empty list of results has the success rate 0 and the quality 0.4. *)
Theorem evaluate_ranges executionResult decomposition :
  let e := ResultEvaluator.evaluate executionResult decomposition in
  Evaluation.total e = List.length (ExecutionResult.results executionResult)
  ∧ (Evaluation.completed e + Evaluation.failed e + Evaluation.skipped e
     ≤ Evaluation.total e)%nat
  ∧ (List.length (Evaluation.errors e) ≤ Evaluation.total e)%nat
  ∧ (0 <= Evaluation.successRate e ∧ Evaluation.successRate e <= 1)%Q
  ∧ (0 <= Evaluation.quality e ∧ Evaluation.quality e <= 1)%Q
  ∧ (ExecutionResult.results executionResult = [] →
     (Evaluation.successRate e == 0)%Q ∧ (Evaluation.quality e == 2 # 5)%Q).
Proof.
  intros e. subst e. unfold ResultEvaluator.evaluate.
  set (results := ExecutionResult.results executionResult).
  cbn [Evaluation.total Evaluation.completed Evaluation.failed Evaluation.skipped
       Evaluation.errors Evaluation.successRate Evaluation.quality].
  pose proof (count_three results) as Hcount.
  set (n := List.length results) in *.
  set (rate := if (0 <? n)%nat then _ else 0%Q).
  set (avg := if (0 <? n)%nat
              then (inject_Z (Z.of_nat (fold_left _ results 0%nat)) / _)%Q else 0%Q).
  assert (0 <= rate ∧ rate <= 1)%Q as [Hr0 Hr1].
  { subst rate. destruct (0 <? n)%nat eqn:Hn; [|split; lra].
    apply Nat.ltb_lt in Hn. apply ratio_range; lia. }
  assert (0 <= avg)%Q as Ha.
  { subst avg. destruct (0 <? n)%nat eqn:Hn; [|lra].
    apply Nat.ltb_lt in Hn.
    apply Qle_shift_div_l.
    - change 0%Q with (inject_Z 0). rewrite <- Zlt_Qlt. lia.
    - rewrite Qmult_0_l. apply inject_nat_nonneg. }
  split; [done|]. split; [done|]. split.
  { subst n. clear. induction results as [|r results IH]; simpl; [lia|].
    rewrite length_app.
    destruct (TaskResult.error r) as [e|]; [destruct (JS.truthy e)|]; simpl; lia. }
  split; [by apply round_percent_range|].
  split; [by apply calculateQuality_range|].
  intros Hnil. subst rate avg n. rewrite Hnil. simpl. split; reflexivity.
Qed.


(** ** Learning system *)

Section LearningFacts.
Local Open Scope Q_scope.

Lemma total_le_max (entries : list PerformanceRecord.t) (m : nat) :
  Forall (fun e => (PerformanceRecord.duration e ≤ m)%nat) entries →
  ∀ acc,
    (fold_left (fun sum e => (sum + PerformanceRecord.duration e)%nat) entries acc
     ≤ acc + List.length entries * m)%nat.
Proof.
  induction 1 as [|e entries He _ IH]; intros acc; simpl; [lia|].
  etransitivity; [apply IH|]. lia.
Qed.

(** The rounded mean of a list of durations does not exceed their maximum. *)
Lemma rounded_mean_le_max (entries : list PerformanceRecord.t) (m : nat) :
  entries ≠ [] →
  Forall (fun e => (PerformanceRecord.duration e ≤ m)%nat) entries →
  (JS.round
     (inject_Z (Z.of_nat
                  (fold_left (fun sum e => (sum + PerformanceRecord.duration e)%nat)
                     entries 0%nat))
      / inject_Z (Z.of_nat (List.length entries)))
   <= Z.of_nat m)%Z.
Proof.
  intros Hne Hall. pose proof (total_le_max entries m Hall 0%nat) as Htotal.
  set (total := fold_left _ entries 0%nat) in *.
  assert (0 < List.length entries)%nat as Hlen by (destruct entries; [done|simpl; lia]).
  set (n := List.length entries) in *.
  assert (inject_Z (Z.of_nat total) / inject_Z (Z.of_nat n) <= inject_Z (Z.of_nat m)) as H.
  { apply Qle_shift_div_r.
    - change 0 with (inject_Z 0). rewrite <- Zlt_Qlt. lia.
    - rewrite <- inject_Z_mult, <- Zle_Qle. lia. }
  unfold JS.round.
  assert (inject_Z (Z.of_nat total) / inject_Z (Z.of_nat n) + (1 # 2)
          <= inject_Z (Z.of_nat m) + (1 # 2)) as H' by lra.
  apply Qfloor_resp_le in H'. etransitivity; [exact H'|].
  assert (Qfloor (inject_Z (Z.of_nat m) + (1 # 2)) = Z.of_nat m) as ->; [|lia].
  apply Qfloor_unique; [lra|]. rewrite inject_Z_plus. change (inject_Z 1) with 1. lra.
Qed.
End LearningFacts.

Lemma exists_slower (entries : list PerformanceRecord.t) (d : nat) :
  ¬ Forall (fun e => (PerformanceRecord.duration e ≤ d)%nat) entries →
  ∃ e, e ∈ entries ∧ (d < PerformanceRecord.duration e)%nat.
Proof.
  induction entries as [|e entries IH]; intros Hnot.
  - by destruct Hnot.
  - destruct (decide (PerformanceRecord.duration e ≤ d)%nat) as [Hle|Hgt].
    + destruct IH as (e' & Hin & Hlt).
      * intros Hall. apply Hnot. by constructor.
      * exists e'. split; [by right|done].
    + exists e. split; [by left|lia].
Qed.

(* The statement of the theorem that follows, under the name that later proofs use. *)
Lemma confidence_updates_facts memory allocation execution complexity :
  Forall
    (fun u =>
       ∃ r, r ∈ ExecutionResult.results execution
            ∧ TaskResult.agentId r = Some (ConfidenceUpdate.agentId u)
            ∧ ConfidenceUpdate.agentId u ≠ ""
            ∧ ((TaskResult.status r = failed
                ∧ ConfidenceUpdate.delta u = (- 0.05)%Q)
               ∨ (TaskResult.status r = completed
                  ∧ ConfidenceUpdate.delta u = 0.02%Q
                  ∧ ∃ e, e ∈ MemorySystem.performanceMemory memory
                         ∧ PerformanceRecord.cluster e
                           = LearningSystem.clusterOf allocation (TaskResult.agentId r)
                         ∧ (TaskResult.duration r < PerformanceRecord.duration e)%nat)))
    (LearningSystem.generateConfidenceUpdates memory allocation execution complexity)
  ∧ (List.length
       (LearningSystem.generateConfidenceUpdates memory allocation execution complexity)
     ≤ List.length (ExecutionResult.results execution))%nat.
Proof.
  unfold LearningSystem.generateConfidenceUpdates.
  set (f := fun result : TaskResult.t => _).
  set (Q := fun (r : TaskResult.t) (u : ConfidenceUpdate.t) =>
              TaskResult.agentId r = Some (ConfidenceUpdate.agentId u)
              ∧ ConfidenceUpdate.agentId u ≠ ""
              ∧ ((TaskResult.status r = failed
                  ∧ ConfidenceUpdate.delta u = (- 0.05)%Q)
                 ∨ (TaskResult.status r = completed
                    ∧ ConfidenceUpdate.delta u = 0.02%Q
                    ∧ ∃ e, e ∈ MemorySystem.performanceMemory memory
                           ∧ PerformanceRecord.cluster e
                             = LearningSystem.clusterOf allocation (TaskResult.agentId r)
                           ∧ (TaskResult.duration r < PerformanceRecord.duration e)%nat))).
  assert (Hf : ∀ r, Forall (Q r) (f r) ∧ (List.length (f r) ≤ 1)%nat).
  { intros r. subst f Q. cbv beta.
    destruct (TaskResult.agentId r) as [agentId|] eqn:Hagent; [|split; [done|simpl; lia]].
    destruct (JS.truthy agentId) eqn:Htruthy; cbn [negb]; [|split; [done|simpl; lia]].
    assert (agentId ≠ "") as Hne by (by destruct agentId).
    destruct (TaskResult.status r) eqn:Hstatus; try (split; [done|simpl; lia]).
    - (* completed *)
      set (clusterAvg := match MemorySystem.getClusterPerformance _ memory with
                         | Some cp => _ | None => _ end).
      destruct (Z.of_nat (TaskResult.duration r) <? clusterAvg)%Z eqn:Hlt;
        [|split; [done|simpl; lia]].
      split; [|simpl; lia]. constructor; [|constructor].
      split; [done|]. split; [done|].
      right. split; [done|]. split; [done|].
      apply Z.ltb_lt in Hlt. subst clusterAvg.
      unfold MemorySystem.getClusterPerformance in Hlt.
      set (entries := List.filter _ (MemorySystem.performanceMemory memory)) in *.
      destruct entries as [|e0 entries'] eqn:Hentries; [lia|].
      rewrite <- Hentries in *.
      cbn [ClusterPerformance.avgDuration] in Hlt.
      assert (Z.of_nat (TaskResult.duration r)
              < JS.round
                  (inject_Z
                     (Z.of_nat
                        (fold_left
                           (fun sum e => (sum + PerformanceRecord.duration e)%nat)
                           entries 0%nat))
                   / inject_Z (Z.of_nat (List.length entries))))%Z as Hlt'.
      { destruct (_ =? 0)%Z; [lia|done]. }
      destruct (exists_slower entries (TaskResult.duration r)) as (e & Hin & Hslow).
      { intros Hall.
        pose proof (rounded_mean_le_max entries (TaskResult.duration r)) as Hmax.
        assert (entries ≠ []) as Hne' by (rewrite Hentries; done).
        specialize (Hmax Hne' Hall). lia. }
      exists e. subst entries. apply elem_of_filter_bool in Hin as [Hin Hcl].
      split; [done|]. split; [|done].
      destruct (PerformanceRecord.cluster e) as [x|],
               (LearningSystem.clusterOf allocation (Some agentId)) as [y|];
        simpl in Hcl; try done.
      by apply String.eqb_eq in Hcl as ->.
    - (* failed *)
      split; [|simpl; lia]. constructor; [|done].
      split; [done|]. split; [done|]. left. done. }
  clearbody f.
  induction (ExecutionResult.results execution) as [|r results [IH1 IH2]];
    [split; [constructor|done]|].
  cbn [flat_map]. destruct (Hf r) as [H1 H2]. split.
  - apply Forall_app. split.
    + eapply Forall_impl; [exact H1|]. cbv beta. intros u Hu. exists r.
      split; [by left|exact Hu].
    + eapply Forall_impl; [exact IH1|]. cbv beta.
      intros u (r0 & Hin & Hrest). exists r0. split; [by right|done].
  - rewrite length_app. simpl. lia.
Qed.

(** Every confidence update that [generateConfidenceUpdates] makes is made
    for a result with a non-empty agent identifier and is either a penalty
    of 0.05 for a failed result or a boost of 0.02 for a completed result;
    and a boost is made only when the performance log holds an entry of the
    same cluster with a longer duration. *)
Theorem generateConfidenceUpdates_shape memory allocation execution complexity :
  Forall
    (fun u =>
       ∃ r, r ∈ ExecutionResult.results execution
            ∧ TaskResult.agentId r = Some (ConfidenceUpdate.agentId u)
            ∧ ConfidenceUpdate.agentId u ≠ ""
            ∧ ((TaskResult.status r = failed
                ∧ ConfidenceUpdate.delta u = (- 0.05)%Q)
               ∨ (TaskResult.status r = completed
                  ∧ ConfidenceUpdate.delta u = 0.02%Q
                  ∧ ∃ e, e ∈ MemorySystem.performanceMemory memory
                         ∧ PerformanceRecord.cluster e
                           = LearningSystem.clusterOf allocation (TaskResult.agentId r)
                         ∧ (TaskResult.duration r < PerformanceRecord.duration e)%nat)))
    (LearningSystem.generateConfidenceUpdates memory allocation execution complexity)
  ∧ (List.length
       (LearningSystem.generateConfidenceUpdates memory allocation execution complexity)
     ≤ List.length (ExecutionResult.results execution))%nat.
Proof. exact (confidence_updates_facts memory allocation execution complexity). Qed.

(* The statement of the theorem that follows, under the name that later proofs use. *)
Lemma registry_untouched env input o :
  Orchestrator.registry (Orchestrator.execute env input o).2 = Orchestrator.registry o
  ∧ ∃ updates,
      Orchestrator.updateQueue (Orchestrator.execute env input o).2
      = Orchestrator.updateQueue o ++ updates
      ∧ Forall (fun u => ConfidenceUpdate.delta u = 0.02%Q
                         ∨ ConfidenceUpdate.delta u = (- 0.05)%Q) updates.
Proof.
  destruct (execute_run env input o) as (complexity & dag & _ & _ & H).
  cbv zeta in H. rewrite H. cbn [snd Orchestrator.registry Orchestrator.updateQueue].
  split; [done|]. unfold LearningSystem.update.
  set (memory1 := LearningSystem.analyzePatterns _ _ _ _ _).
  set (updates := LearningSystem.generateConfidenceUpdates memory1 _ _ _).
  exists updates. split.
  - by destruct (JS.lt _ _).
  - subst updates.
    match goal with
    | |- Forall _ (LearningSystem.generateConfidenceUpdates ?m ?a ?e ?c) =>
        destruct (confidence_updates_facts m a e c) as [Hshape _]
    end.
    eapply Forall_impl; [exact Hshape|]. cbv beta.
    intros u (r & _ & _ & _ & [[_ Hd]|[_ [Hd _]]]); [by right|by left].
Qed.

(** A run of [execute] leaves the registry as it is: the confidence
    updates that the run generates are appended to the queue of the learning
    system, and nothing in the run applies them or reports metrics to the
    registry. *)
Theorem execute_leaves_registry env input o :
  Orchestrator.registry (Orchestrator.execute env input o).2 = Orchestrator.registry o
  ∧ ∃ updates,
      Orchestrator.updateQueue (Orchestrator.execute env input o).2
      = Orchestrator.updateQueue o ++ updates
      ∧ Forall (fun u => ConfidenceUpdate.delta u = 0.02%Q
                         ∨ ConfidenceUpdate.delta u = (- 0.05)%Q) updates.
Proof. exact (registry_untouched env input o). Qed.


(** When the identifiers drawn for the tasks are distinct, a run accounts
    for every task of the decomposition: the results list the tasks, each
    once, and the numbers of completed and failed tasks in the metrics add
    up to the number of tasks. *)
Theorem execute_accounts_for_every_task env input o :
  let parsed := Orchestrator.parseInput input in
  let intent := IntentClassifier.classify parsed in
  let tasks := TaskDecomposer.decompose (Env.uuid env) parsed intent in
  NoDup (map Task.id (Decomposition.tasks tasks)) →
  ∃ summary pipeline metrics o' execution,
    Orchestrator.execute env input o = (Success summary pipeline metrics, o')
    ∧ Pipeline.execution pipeline = Some execution
    ∧ map TaskResult.taskId (ExecutionResult.results execution)
      ≡ₚ map Task.id (Decomposition.tasks tasks)
    ∧ ExecutionResult.totalTasks execution = Decomposition.totalTasks tasks
    ∧ (RunMetrics.tasksCompleted metrics + RunMetrics.tasksFailed metrics
       = Decomposition.totalTasks tasks)%nat.
Proof.
  intros parsed intent tasks Hnd.
  destruct (execute_run env input o) as (complexity & dag & _ & Hdag & H).
  fold parsed intent tasks in Hdag, H. cbv zeta in H. rewrite H.
  eexists _, _, _, _, _. split; [done|]. split; [done|].
  destruct (decompose_facts (Env.uuid env) parsed intent) as (_ & Htotal & _ & Hearlier).
  fold tasks in Htotal, Hearlier.
  destruct (buildDAG_inv tasks Hnd Hearlier) as (dag' & completed & Hdag' & Hinv & Hperm).
  rewrite Hdag in Hdag'. injection Hdag' as <-.
  pose proof (frame_keys _ _ (inv_frame _ _ _ _ Hinv)) as Hkeys.
  set (allocation := AgentSpawner.allocate _ _ _ _).
  destruct (follows_waves tasks allocation (Env.pool env))
    as (dag' & Hdag' & Hids & _ & _ & Htot & Hall).
  rewrite Hdag in Hdag'. injection Hdag' as <-.
  set (execution := (DAGScheduler.execute dag allocation (Env.pool env)).2) in *.
  assert (List.length (ExecutionResult.results execution)
          = Decomposition.totalTasks tasks) as Hlen.
  { rewrite Htotal, <- (length_map TaskResult.taskId), Hids, Hperm, Hkeys.
    by rewrite length_map. }
  split; [by rewrite Hids, Hperm, Hkeys|].
  split.
  { rewrite Htot, <- Hlen, <- (length_map TaskResult.taskId), Hids. done. }
  cbn [RunMetrics.tasksCompleted RunMetrics.tasksFailed].
  unfold ResultEvaluator.evaluate.
  cbn [Evaluation.completed Evaluation.failed].
  rewrite <- Hlen. apply count_settled.
  eapply Forall_impl; [exact Hall|]. cbv beta. intros r (_ & _ & Hs). exact Hs.
Qed.

Lemma execute_accounts_for_every_task_witness :
  ∃ summary pipeline metrics o',
    Orchestrator.execute sample_env scenario3 (Orchestrator.new 0)
    = (Success summary pipeline metrics, o')
    ∧ (RunMetrics.tasksCompleted metrics + RunMetrics.tasksFailed metrics = 3)%nat.
Proof.
  assert (NoDup (map Task.id
                   (Decomposition.tasks
                      (TaskDecomposer.decompose (Env.uuid sample_env)
                         (Orchestrator.parseInput scenario3)
                         (IntentClassifier.classify
                            (Orchestrator.parseInput scenario3)))))) as Hnd.
  { apply (bool_decide_unpack _). by vm_compute. }
  destruct (execute_accounts_for_every_task sample_env scenario3 (Orchestrator.new 0) Hnd)
    as (summary & pipeline & metrics & o' & execution & Hrun & _ & _ & _ & Hsum).
  exists summary, pipeline, metrics, o'. split; [exact Hrun|]. exact Hsum.
Defined.


(** ** Agent spawner *)

Lemma dedupe_spec pool : ∀ seen,
  NoDup (map Agent.id (AgentSpawner.dedupe seen pool))
  ∧ ∀ a, a ∈ AgentSpawner.dedupe seen pool → a ∈ pool ∧ Agent.id a ∉ seen.
Proof.
  induction pool as [|a pool IH]; intros seen; simpl.
  - split; [constructor|]. intros a Ha. by apply elem_of_nil in Ha.
  - case_bool_decide as Hseen.
    + destruct (IH seen) as [Hnd Hin]. split; [done|].
      intros b Hb. destruct (Hin b Hb). split; [by right|done].
    + destruct (IH (seen ∪ {[Agent.id a]})) as [Hnd Hin]. split.
      * simpl. constructor; [|done]. intros Hdup.
        apply list_elem_of_fmap in Hdup as (b & Heq & Hb).
        destruct (Hin b Hb) as [_ Hnot]. apply Hnot. rewrite <- Heq.
        apply elem_of_union. right. by apply elem_of_singleton.
      * intros b Hb. apply elem_of_cons in Hb as [->|Hb]; [split; [by left|done]|].
        destruct (Hin b Hb) as [? Hnot]. split; [by right|].
        intros Hs. apply Hnot, elem_of_union. by left.
Qed.

Lemma slice0_prefix {A} (n : Z) (l : list A) : ∃ k, JS.slice0 n l = firstn k l.
Proof. unfold JS.slice0. destruct (n <? 0)%Z; eauto. Qed.

Lemma selectAgents_prefix pool complexity tasks :
  ∃ k, AgentSpawner.selectAgents pool complexity tasks = firstn k pool.
Proof.
  unfold AgentSpawner.selectAgents. destruct (Complexity.level complexity);
    apply slice0_prefix.
Qed.

Lemma slice0_length {A} (n : Z) (l : list A) :
  (0 <= n)%Z → (List.length (JS.slice0 n l) ≤ Z.to_nat n)%nat.
Proof.
  intros Hn. unfold JS.slice0. destruct (n <? 0)%Z eqn:E; [lia|].
  rewrite length_firstn. lia.
Qed.

(** The agents that [allocate] selects for a complexity made by [score]:
    no agent is selected twice; every one is an agent of the registry that
    supports the level of the complexity; and there are at most one of them
    for a simple task, four for a medium one and ten for a complex one. *)
Theorem allocate_selection registry decomposition complexity intent :
  ComplexityScorer.score decomposition = Some complexity →
  let allocation := AgentSpawner.allocate registry decomposition complexity intent in
  NoDup (map Agent.id (Allocation.agents allocation))
  ∧ Forall (fun a => a ∈ OMap.values (AgentRegistry.agents registry)
                     ∧ Complexity.level complexity ∈ Agent.complexitySupported a)
           (Allocation.agents allocation)
  ∧ (List.length (Allocation.agents allocation)
     ≤ match Complexity.level complexity with
       | simple => 1 | medium => 4 | complex => 10
       end)%nat
  ∧ Allocation.strategy allocation
    = match Complexity.level complexity with
      | simple => direct_execution
      | medium => parallel_pool
      | complex => dag_staged_waves
      end.
Proof.
  intros Hscore allocation. subst allocation. unfold AgentSpawner.allocate.
  cbn [Allocation.agents Allocation.strategy].
  set (pool := AgentSpawner.primaryAgents _ _ _ ++ AgentSpawner.secondaryAgents _ _ _).
  destruct (dedupe_spec pool ∅) as [Hnd Hin].
  set (unique := AgentSpawner.dedupe ∅ pool) in *.
  destruct (selectAgents_prefix unique complexity (Decomposition.tasks decomposition))
    as [k Hk].
  split; [|split; [|split]].
  - rewrite Hk. rewrite <- firstn_map.
    eapply sublist_NoDup; [exact Hnd|]. apply sublist_take.
  - rewrite Hk. apply Forall_forall. intros a Ha.
    apply (subseteq_take k unique) in Ha.
    destruct (Hin a Ha) as [Hpool _]. subst pool.
    assert (∀ c, a ∈ AgentRegistry.findAgents
                       (Criteria.mk c None (Some (Complexity.level complexity)))
                       registry →
                 a ∈ OMap.values (AgentRegistry.agents registry)
                 ∧ Complexity.level complexity ∈ Agent.complexitySupported a) as Hfind.
    { intros c Hc.
      destruct (findAgents_facts
                  (Criteria.mk c None (Some (Complexity.level complexity))) registry)
        as [Hiff _].
      apply Hiff in Hc as (Hreg & _ & _ & Hlvl). split; [done|]. by apply Hlvl. }
    apply elem_of_app in Hpool as [Hp|Hs].
    + by eapply Hfind.
    + unfold AgentSpawner.secondaryAgents in Hs.
      apply list_elem_of_In, in_flat_map in Hs as (sec & _ & Hs).
      apply list_elem_of_In in Hs. by eapply Hfind.
  - pose proof (score_facts _ _ Hscore) as [_ Hlevel].
    unfold AgentSpawner.selectAgents.
    destruct (Complexity.level complexity).
    + destruct Hlevel as [_ ->].
      etransitivity; [apply slice0_length; lia|]. lia.
    + destruct Hlevel as (_ & _ & ->).
      etransitivity; [apply slice0_length; lia|]. lia.
    + etransitivity; [apply slice0_length; lia|]. lia.
  - by destruct (Complexity.level complexity).
Qed.

Lemma allocate_selection_witness :
  ∃ complexity,
    ComplexityScorer.score chain2 = Some complexity
    ∧ (List.length
         (Allocation.agents
            (AgentSpawner.allocate (AgentRegistry.new 0) chain2 complexity
               IntentClassifier.general))
       ≤ 1)%nat.
Proof.
  eexists. split; [vm_compute; reflexivity|].
  match goal with
  | |- (List.length (Allocation.agents (AgentSpawner.allocate ?r ?d ?c ?i)) ≤ _)%nat =>
      pose proof (allocate_selection r d c i eq_refl) as (_ & _ & H & _)
  end.
  exact H.
Defined.


(** ** Worker pool *)

Lemma run_stats es : ∀ p states final,
  run es p = Some states → last states = Some final →
  PoolStats.totalExecuted (stats final)
  = (PoolStats.totalExecuted (stats p) + settlements true es)%nat
  ∧ PoolStats.totalFailed (stats final)
    = (PoolStats.totalFailed (stats p) + settlements false es)%nat.
Proof.
  induction es as [|e es IH]; intros p states final Hrun Hlast; simpl in *.
  - injection Hrun as <-. injection Hlast as <-. unfold settlements. simpl. lia.
  - destruct (step e p) as [p'|] eqn:Hstep; [|done].
    destruct (run es p') as [ps|] eqn:Hrun'; [|done]. injection Hrun as <-.
    destruct (run_head _ _ _ Hrun') as [rest ->].
    rewrite last_cons_cons in Hlast.
    destruct (IH p' _ final Hrun' Hlast) as [H1 H2]. rewrite H1, H2.
    unfold settlements. cbn [List.filter].
    destruct e as [job|job|job ok]; simpl in Hstep.
    + destruct (_ <=? _)%nat; injection Hstep as <-; simpl; lia.
    + destruct (woken p) as [|next rest']; [done|].
      destruct (Nat.eqb next job); [|done]. injection Hstep as <-. simpl. lia.
    + destruct (mem job (inFlight p)); [|done]. injection Hstep as <-.
      unfold processQueue. cbn [queue activeWorkers maxWorkers].
      destruct (queue p); [|destruct (_ <? _)%nat]; destruct ok; simpl; lia.
Qed.

(** In every run of a pool with at least one worker that follows the rule
    of the event loop, a call waits for a slot only while every slot is in
    use or promised to a woken call; so when no job is running and no woken
    call is left to resume, no call is waiting.  The statistics count every
    settled job once, by its outcome. *)
Theorem pool_is_work_conserving (maxWorkers : option nat) (es : list Event)
    (states : list WorkerPool.t) :
  maxWorkers ≠ Some 0%nat →
  microtasks_first es (WorkerPool.new maxWorkers) = true →
  run es (WorkerPool.new maxWorkers) = Some states →
  Forall (fun p =>
            queue p ≠ [] →
            (activeWorkers p + List.length (woken p)
             = WorkerPool.maxWorkers (WorkerPool.new maxWorkers))%nat)
         states
  ∧ ∀ final, last states = Some final →
      (inFlight final = [] → woken final = [] → queue final = [])
      ∧ PoolStats.totalExecuted (stats final) = settlements true es
      ∧ PoolStats.totalFailed (stats final) = settlements false es.
Proof.
  intros Hmax Hrule Hrun.
  assert (0 < WorkerPool.maxWorkers (WorkerPool.new maxWorkers))%nat as Hpos.
  { destruct maxWorkers as [[|n]|]; simpl; [done|lia|lia]. }
  assert (pool_inv (WorkerPool.new maxWorkers)) as Hinv by (split; simpl; lia).
  assert (pool_busy (WorkerPool.new maxWorkers)) as Hbusy by (by intros H).
  pose proof (run_busy es _ _ Hrule Hrun Hinv Hbusy Hpos) as Hall.
  pose proof (run_inv es _ _ Hrule Hrun Hinv) as Hinvs.
  assert (Forall (fun p =>
            queue p ≠ [] →
            (activeWorkers p + List.length (woken p)
             = WorkerPool.maxWorkers (WorkerPool.new maxWorkers))%nat) states) as Hbusy'.
  { apply Forall_forall. intros p Hp Hq.
    rewrite Forall_forall in Hall, Hinvs.
    destruct (Hinvs p Hp) as [_ <-]. by apply Hall. }
  split; [exact Hbusy'|].
  intros final Hlast. split.
  - intros Hfl Hw. destruct (queue final) eqn:Hq; [done|]. exfalso.
    apply last_Some in Hlast as [l' ->].
    rewrite Forall_app, Forall_singleton in Hbusy', Hinvs.
    destruct Hbusy' as [_ Hb]. destruct Hinvs as [_ [[Hact _] _]].
    rewrite Hq, Hw, Hact, Hfl in Hb. simpl in Hb.
    assert (0 = WorkerPool.maxWorkers (WorkerPool.new maxWorkers))%nat by (by apply Hb).
    lia.
  - destruct (run_stats es _ _ final Hrun Hlast) as [H1 H2].
    by rewrite H1, H2.
Qed.

Lemma pool_is_work_conserving_witness :
  Forall (fun p =>
            queue p ≠ [] → (activeWorkers p + List.length (woken p) = 2)%nat)
         (default [] (run sample_schedule (WorkerPool.new (Some 2)))).
Proof.
  assert (Some 2%nat ≠ Some 0%nat) as Hmax by discriminate.
  exact (proj1 (pool_is_work_conserving (Some 2) sample_schedule
                  (default [] (run sample_schedule (WorkerPool.new (Some 2))))
                  Hmax eq_refl eq_refl)).
Defined.

Lemma run_zero es : ∀ p states,
  maxWorkers p = 0%nat → activeWorkers p = 0%nat → woken p = [] → inFlight p = [] →
  run es p = Some states →
  Forall (fun e => ∃ job, e = Submit job) es
  ∧ Forall (fun q => inFlight q = [] ∧ woken q = [] ∧ activeWorkers q = 0%nat) states
  ∧ ∀ final, last states = Some final → queue final = queue p ++ submitted es.
Proof.
  induction es as [|e es IH]; intros p states Hmax Hact Hw Hfl Hrun; simpl in *.
  - injection Hrun as <-. split; [constructor|]. split; [by repeat constructor|].
    intros final [= <-]. by rewrite app_nil_r.
  - destruct (step e p) as [p'|] eqn:Hstep; [|done].
    destruct (run es p') as [ps|] eqn:Hrun'; [|done]. injection Hrun as <-.
    destruct e as [job|job|job ok]; simpl in Hstep.
    + destruct (Nat.leb_spec (maxWorkers p) (activeWorkers p)) as [_|Hlt]; [|lia].
      injection Hstep as <-.
      pose proof Hrun' as Hrun2.
      eapply IH in Hrun2 as (H1 & H2 & H3); [|done..]. simpl in *.
      split; [constructor; [by exists job|done]|].
      split; [by constructor|].
      intros final Hlast. destruct (run_head _ _ _ Hrun') as [rest ->].
      rewrite last_cons_cons in Hlast. rewrite (H3 final Hlast).
      unfold submitted. simpl. by rewrite <- app_assoc.
    + by rewrite Hw in Hstep.
    + by rewrite Hfl in Hstep.
Qed.

(** A pool made with [maxWorkers] 0 starts no job: the only step its
    calls can take is the suspension on [waitForSlot], so every job
    submitted stays in the queue and no call ever resumes or settles. *)
Theorem pool_of_zero_workers_starts_nothing (es : list Event)
    (states : list WorkerPool.t) :
  run es (WorkerPool.new (Some 0%nat)) = Some states →
  Forall (fun e => ∃ job, e = Submit job) es
  ∧ Forall (fun p => inFlight p = [] ∧ woken p = [] ∧ activeWorkers p = 0%nat) states
  ∧ ∀ final, last states = Some final → queue final = submitted es.
Proof.
  intros Hrun. by apply (run_zero es (WorkerPool.new (Some 0%nat)) states).
Qed.

Lemma pool_of_zero_workers_starts_nothing_witness :
  Forall (fun p => inFlight p = [] ∧ woken p = [] ∧ activeWorkers p = 0%nat)
         (default [] (run [Submit 1; Submit 2] (WorkerPool.new (Some 0%nat)))).
Proof.
  exact (proj1 (proj2
    (pool_of_zero_workers_starts_nothing [Submit 1; Submit 2]
       (default [] (run [Submit 1; Submit 2] (WorkerPool.new (Some 0%nat))))
       eq_refl))).
Defined.


(** ** Memory system *)

Lemma StronglySorted_weaken {A} (R S : A → A → Prop) (l : list A) :
  (∀ a b, R a b → S a b) → StronglySorted R l → StronglySorted S l.
Proof.
  intros HRS. induction 1 as [|a l Hs IH Ha]; constructor; [done|].
  eapply Forall_impl; [exact Ha|]. intros b. apply HRS.
Qed.

Lemma bump_spec now key ledger :
  match MemorySystem.bump now key ledger with
  | Some ledger' =>
      key ∈ map Pattern.pattern ledger
      ∧ map Pattern.pattern ledger' = map Pattern.pattern ledger
      ∧ ∀ k, applied k ledger'
             = (if String.eqb key k then S (applied k ledger) else applied k ledger)
  | None => key ∉ map Pattern.pattern ledger
  end.
Proof.
  induction ledger as [|p ledger IH]; simpl; [apply not_elem_of_nil|].
  destruct (String.eqb_spec (Pattern.pattern p) key) as [Heq|Hne].
  - split; [rewrite Heq; by left|]. split; [done|].
    intros k. unfold applied. cbn [List.find Pattern.pattern].
    rewrite Heq. destruct (String.eqb key k); done.
  - destruct (MemorySystem.bump now key ledger) as [ledger'|].
    + destruct IH as (Hin & Hkeys & Happ). split; [by right|].
      split; [simpl; by rewrite Hkeys|].
      intros k. unfold applied in *. cbn [List.find].
      destruct (String.eqb_spec (Pattern.pattern p) k) as [Hk|Hk].
      * subst k. destruct (String.eqb_spec key (Pattern.pattern p)); [congruence|done].
      * apply Happ.
    + intros Hin. apply elem_of_cons in Hin as [Hin|Hin]; [congruence|done].
Qed.

Lemma applied_app_new key k ledger p :
  key ∉ map Pattern.pattern ledger → Pattern.pattern p = key →
  applied k (ledger ++ [p])
  = if String.eqb key k then Pattern.appliedCount p else applied k ledger.
Proof.
  intros Hnot Hp. unfold applied. induction ledger as [|q ledger IH]; simpl.
  - rewrite Hp. by destruct (String.eqb key k).
  - destruct (String.eqb_spec (Pattern.pattern q) k) as [Hk|Hk].
    + destruct (String.eqb_spec key k) as [Hkey|?]; [|done].
      exfalso. apply Hnot. simpl. rewrite Hkey, <- Hk. by left.
    + apply IH. intros Hin. apply Hnot. by right.
Qed.

Lemma recordPattern_spec now key optimization quality avgDuration m :
  NoDup (map Pattern.pattern (MemorySystem.skillEvolution m)) →
  let m' := MemorySystem.recordPattern now key optimization quality avgDuration m in
  NoDup (map Pattern.pattern (MemorySystem.skillEvolution m'))
  ∧ (∀ k, applied k (MemorySystem.skillEvolution m')
          = (if String.eqb key k then S (applied k (MemorySystem.skillEvolution m))
             else applied k (MemorySystem.skillEvolution m)))
  ∧ MemorySystem.performanceMemory m' = MemorySystem.performanceMemory m
  ∧ MemorySystem.vectorMemory m' = MemorySystem.vectorMemory m.
Proof.
  intros Hnd m'. subst m'. unfold MemorySystem.recordPattern.
  pose proof (bump_spec now key (MemorySystem.skillEvolution m)) as Hb.
  destruct (MemorySystem.bump now key (MemorySystem.skillEvolution m)) as [ledger'|];
    cbn [MemorySystem.skillEvolution MemorySystem.performanceMemory
         MemorySystem.vectorMemory].
  - destruct Hb as (_ & Hkeys & Happ). rewrite Hkeys. done.
  - split; [|split; [|done]].
    + rewrite map_app. apply NoDup_app. split; [done|]. split.
      * intros k Hk Hk'. simpl in Hk'. apply list_elem_of_singleton in Hk' as ->. done.
      * simpl. apply NoDup_singleton.
    + intros k. rewrite (applied_app_new key) by done. cbn [Pattern.appliedCount].
      destruct (String.eqb_spec key k) as [<-|?]; [|done].
      assert (applied key (MemorySystem.skillEvolution m) = 0%nat) as ->; [|done].
      unfold applied. destruct (List.find _ _) as [p|] eqn:Hfind; [|done].
      apply find_some in Hfind as [Hin Heq]. apply String.eqb_eq in Heq.
      exfalso. apply Hb. rewrite <- Heq. apply list_elem_of_In in Hin.
      by apply (list_elem_of_fmap_2 Pattern.pattern).
Qed.

Lemma recordPatterns_snoc calls c :
  recordPatterns (calls ++ [c])
  = (let '(now, key, optimization, quality, avgDuration) := c in
     MemorySystem.recordPattern now key optimization quality avgDuration
       (recordPatterns calls)).
Proof. unfold recordPatterns. by rewrite fold_left_app. Qed.

(** The pattern ledger after any sequence of [recordPattern] calls on a
    fresh memory holds one entry for each key recorded, whose [appliedCount]
    is the number of calls made with that key; and [getLearnedPatterns]
    returns the entries of the ledger, each once, the most applied first. *)
Theorem pattern_ledger_counts calls :
  let m := recordPatterns calls in
  NoDup (map Pattern.pattern (MemorySystem.skillEvolution m))
  ∧ (∀ key, applied key (MemorySystem.skillEvolution m) = calls_with key calls)
  ∧ (∀ key, key ∈ map Pattern.pattern (MemorySystem.skillEvolution m)
            ↔ (0 < calls_with key calls)%nat)
  ∧ MemorySystem.getLearnedPatterns m ≡ₚ MemorySystem.skillEvolution m
  ∧ StronglySorted (fun p q => (Pattern.appliedCount q ≤ Pattern.appliedCount p)%nat)
                   (MemorySystem.getLearnedPatterns m).
Proof.
  intros m. subst m.
  assert (NoDup (map Pattern.pattern (MemorySystem.skillEvolution (recordPatterns calls)))
          ∧ (∀ key, applied key (MemorySystem.skillEvolution (recordPatterns calls))
                    = calls_with key calls)
          ∧ Forall (fun p => (0 < Pattern.appliedCount p)%nat)
                   (MemorySystem.skillEvolution (recordPatterns calls)))
    as (Hnd & Happ & Hpos).
  { induction calls as [|c calls IH] using rev_ind.
    - split; [constructor|]. split; [done|constructor].
    - destruct IH as (Hnd & Happ & Hpos). rewrite recordPatterns_snoc.
      destruct c as [[[[now key] optimization] quality] avgDuration].
      destruct (recordPattern_spec now key optimization quality avgDuration
                  (recordPatterns calls) Hnd) as (Hnd' & Happ' & _).
      split; [done|]. split.
      + intros k. rewrite Happ', Happ. unfold calls_with.
        rewrite List.filter_app, length_app. cbn [List.filter fst snd].
        destruct (String.eqb key k); simpl; lia.
      + unfold MemorySystem.recordPattern.
        pose proof (bump_spec now key (MemorySystem.skillEvolution (recordPatterns calls)))
          as Hb.
        destruct (MemorySystem.bump now key _) as [ledger'|] eqn:Hbump;
          cbn [MemorySystem.skillEvolution].
        * clear -Hbump Hpos. revert ledger' Hbump.
          induction Hpos as [|p ledger Hp Hpos IH]; intros ledger' Hbump; simpl in Hbump;
            [done|].
          destruct (String.eqb _ key).
          { injection Hbump as <-. constructor; [simpl; lia|done]. }
          destruct (MemorySystem.bump now key ledger) as [l|]; [|done].
          injection Hbump as <-. constructor; [done|]. by apply IH.
        * apply Forall_app. split; [done|]. constructor; [simpl; lia|constructor]. }
  split; [done|]. split; [done|]. split; [|split].
  - intros key. rewrite <- Happ. unfold applied. split.
    + intros Hin. apply list_elem_of_fmap in Hin as (p & -> & Hp).
      destruct (List.find _ _) as [q|] eqn:Hfind.
      * apply find_some in Hfind as [Hq _]. apply list_elem_of_In in Hq.
        rewrite Forall_forall in Hpos. by apply Hpos.
      * exfalso. apply list_elem_of_In in Hp.
        pose proof (find_none _ _ Hfind p Hp) as Hno. simpl in Hno.
        by rewrite String.eqb_refl in Hno.
    + destruct (List.find _ _) as [q|] eqn:Hfind; [|lia]. intros _.
      apply find_some in Hfind as [Hq Heq]. apply String.eqb_eq in Heq as <-.
      apply list_elem_of_In in Hq. by apply (list_elem_of_fmap_2 Pattern.pattern).
  - apply sort_desc_perm.
  - unfold MemorySystem.getLearnedPatterns.
    eapply StronglySorted_weaken; [|apply sort_desc_sorted].
    intros p q H. cbv beta in H. rewrite <- Zle_Qle in H. lia.
Qed.


Lemma filter_sublist {A} (f : A → bool) (l : list A) : List.filter f l `sublist_of` l.
Proof.
  induction l as [|x l IH]; simpl; [constructor|].
  destruct (f x); [by apply sublist_skip|by apply sublist_cons].
Qed.

Lemma total_duration_Z (entries : list PerformanceRecord.t) :
  (0 <= Z.of_nat
          (fold_left (fun sum e => (sum + PerformanceRecord.duration e)%nat) entries 0%nat))%Z.
Proof. lia. Qed.

(** [getAgentPerformance] answers [null] exactly when the performance log
    holds no entry of the agent; otherwise it reports the number of the
    entries of the agent held by the log, a success rate between 0 and 1, an
    average duration that is not negative, and the trend [stable] when there
    are fewer than three entries. *)
Theorem getAgentPerformance_summary agentId m :
  let entries :=
    List.filter
      (fun e => MemorySystem.option_string_eqb (PerformanceRecord.agentId e) (Some agentId))
      (MemorySystem.performanceMemory m) in
  match MemorySystem.getAgentPerformance agentId m with
  | None =>
      Forall (fun e => PerformanceRecord.agentId e ≠ Some agentId)
             (MemorySystem.performanceMemory m)
  | Some p =>
      AgentPerformance.agentId p = agentId
      ∧ AgentPerformance.totalExecutions p = List.length entries
      ∧ (0 < AgentPerformance.totalExecutions p
         ≤ List.length (MemorySystem.performanceMemory m))%nat
      ∧ (0 <= AgentPerformance.successRate p ∧ AgentPerformance.successRate p <= 1)%Q
      ∧ (0 <= AgentPerformance.avgDuration p)%Z
      ∧ ((AgentPerformance.totalExecutions p < 3)%nat →
         AgentPerformance.recentTrend p = stable)
  end.
Proof.
  intros entries. unfold MemorySystem.getAgentPerformance. fold entries.
  destruct entries as [|e0 rest] eqn:Hentries.
  - apply Forall_forall. intros e He Heq.
    assert (e ∈ entries) as Hin.
    { subst entries. apply elem_of_filter_bool. split; [done|].
      rewrite Heq. simpl. apply String.eqb_refl. }
    rewrite Hentries in Hin. by apply elem_of_nil in Hin.
  - rewrite <- Hentries.
    assert (0 < List.length entries)%nat as Hpos by (rewrite Hentries; simpl; lia).
    cbn [AgentPerformance.agentId AgentPerformance.totalExecutions
         AgentPerformance.successRate AgentPerformance.avgDuration
         AgentPerformance.recentTrend].
    split; [done|]. split; [done|]. split; [|split; [|split]].
    + split; [done|]. subst entries. apply List.filter_length_le.
    + destruct (ratio_range
                  (List.length (List.filter PerformanceRecord.success entries))
                  (List.length entries)) as [H0 H1];
        [apply List.filter_length_le|done|].
      by apply round_percent_range.
    + apply round_nonneg. unfold MemorySystem.averageDuration.
      apply Qle_shift_div_l.
      * change 0%Q with (inject_Z 0). rewrite <- Zlt_Qlt. lia.
      * rewrite Qmult_0_l. apply inject_nat_nonneg.
    + intros Hfew. unfold MemorySystem.calculateTrend, JS.slice_last.
      replace (List.length entries - 10)%nat with 0%nat by lia. rewrite drop_0.
      destruct (Nat.ltb_spec (List.length entries) 3) as [?|Hge]; [done|].
      exfalso. clear -Hfew Hge. lia.
Qed.

(** [findSimilarTasks] returns at most five of the solutions stored, in
    the order in which they were stored; and for a description of a single
    word it returns none, whatever is stored. *)
Theorem findSimilarTasks_bounds taskDescription m :
  (List.length (MemorySystem.findSimilarTasks taskDescription m) ≤ 5)%nat
  ∧ MemorySystem.findSimilarTasks taskDescription m
      `sublist_of` MemorySystem.vectorMemory m
  ∧ (List.length (JS.split_ws (JS.toLowerCase taskDescription)) = 1%nat →
     MemorySystem.findSimilarTasks taskDescription m = []).
Proof.
  unfold MemorySystem.findSimilarTasks, JS.slice0.
  change (5 <? 0)%Z with false. change (Z.to_nat 5) with 5%nat. cbv iota.
  split; [rewrite length_firstn; lia|]. split.
  - etransitivity; [apply sublist_take|apply filter_sublist].
  - intros Hone.
    assert (∀ entry : TaskSolution.t,
              (2 <=? List.length
                       (List.filter
                          (fun kw =>
                             JS.mem kw (JS.split_ws
                                          (JS.toLowerCase
                                             (TaskSolution.taskDescription entry))))
                          (JS.split_ws (JS.toLowerCase taskDescription))))%nat = false)
      as Hnone.
    { intros entry. apply Nat.leb_gt.
      eapply Nat.le_lt_trans; [apply List.filter_length_le|]. lia. }
    induction (MemorySystem.vectorMemory m) as [|entry entries IH]; [done|].
    cbn [List.filter]. by rewrite Hnone.
Qed.

(** The session memory: a value set under a key is the value got under
    that key, whatever was there before; the other keys are not touched; and
    after [clearSession] every key is unset. *)
Theorem session_memory_round_trip {V} now key (value : V) (m : SessionMemory.t) :
  SessionMemory.getSession key (SessionMemory.setSession now key value m) = Some value
  ∧ (∀ key', key' ≠ key →
       SessionMemory.getSession key' (SessionMemory.setSession now key value m)
       = SessionMemory.getSession key' m)
  ∧ (∀ key',
       SessionMemory.getSession key'
         (SessionMemory.clearSession (SessionMemory.setSession now key value m))
       = None)
  ∧ OMap.size (SessionMemory.setSession now key value m)
    = (if bool_decide (key ∈ OMap.keys m) then OMap.size m else S (OMap.size m)).
Proof.
  unfold SessionMemory.getSession, SessionMemory.setSession, SessionMemory.clearSession.
  split; [by rewrite omap_get_set_eq|].
  split; [intros key' Hne; by rewrite omap_get_set_ne|].
  split; [done|]. apply omap_size_set.
Qed.


(** ** Command line *)

Lemma rev_string_acc cur : ∀ a,
  JS.rev_string a cur = String.append (JS.rev_string EmptyString cur) a.
Proof.
  induction cur as [|c cur IH]; intros a; simpl; [done|].
  rewrite (IH (String c a)), (IH (String c EmptyString)).
  generalize (JS.rev_string "" cur). intros s.
  induction s as [|d s IHs]; [done|].
  change (String.append (String d s) ?x) with (String d (String.append s x)).
  by rewrite IHs.
Qed.

Lemma split_ws_go_token w : ∀ cur in_sep rest,
  spaceless w = true →
  JS.split_ws_go cur in_sep (String.append w rest)
  = match w with
    | EmptyString => JS.split_ws_go cur in_sep rest
    | _ => JS.split_ws_go (JS.rev_string cur w) false rest
    end.
Proof.
  induction w as [|c w IH]; intros cur in_sep rest Hw; [done|].
  simpl in Hw. apply andb_true_iff in Hw as [Hc Hw]. apply negb_true_iff in Hc.
  change (String.append (String c w) rest) with (String c (String.append w rest)).
  cbn [JS.split_ws_go JS.rev_string]. rewrite Hc, (IH _ false rest Hw).
  by destruct w.
Qed.

Lemma join_cons sep a b l :
  JS.join sep (a :: b :: l) = String.append a (String.append sep (JS.join sep (b :: l))).
Proof. done. Qed.

Lemma split_ws_go_join argv : ∀ a cur in_sep,
  is_token a = true → Forall (fun s => is_token s = true) argv →
  JS.split_ws_go cur in_sep (JS.join " " (a :: argv))
  = String.append (JS.rev_string EmptyString cur) a :: argv.
Proof.
  induction argv as [|b argv IH]; intros a cur in_sep Ha Hall;
    apply andb_true_iff in Ha as [Hne Ha].
  - change (JS.join " " [a]) with a.
    rewrite <- (append_empty a) at 1. rewrite split_ws_go_token by done.
    destruct a as [|c a]; [done|]. cbn [JS.split_ws_go].
    by rewrite rev_string_rev_string, append_empty, rev_string_acc.
  - apply Forall_cons in Hall as [Hb Hall].
    rewrite join_cons. destruct a as [|c a]; [done|].
    rewrite split_ws_go_token by done.
    change (String.append " " ?s) with (String " "%char s). cbn [JS.split_ws_go].
    change (JS.is_space " "%char) with true. cbv iota.
    rewrite rev_string_rev_string, append_empty, rev_string_acc.
    f_equal. rewrite (IH b EmptyString true Hb Hall). done.
Qed.

(** The words of a command line reach the orchestrator as they are: when
    no word is empty or holds white space, the tokens that [parseInput]
    makes of the line joined by [parse] are the words, and [wordCount] is
    their number. *)
Theorem tokens_of_joined_words (argv : list string) :
  argv ≠ [] → Forall (fun s => is_token s = true) argv →
  Parsed.tokens (Orchestrator.parseInput (JS.join " " argv)) = argv
  ∧ Parsed.wordCount (Orchestrator.parseInput (JS.join " " argv)) = List.length argv.
Proof.
  intros Hne Hall. destruct argv as [|a argv]; [done|].
  apply Forall_cons in Hall as [Ha Hall].
  unfold Orchestrator.parseInput. cbn [Parsed.tokens Parsed.wordCount].
  unfold JS.split_ws. rewrite (split_ws_go_join argv a EmptyString false Ha Hall).
  done.
Qed.

Lemma tokens_of_joined_words_witness :
  Parsed.tokens (Orchestrator.parseInput (JS.join " " ["build"; "an"; "API"]))
  = ["build"; "an"; "API"].
Proof.
  assert (["build"; "an"; "API"] ≠ @nil string) as Hne by discriminate.
  assert (Forall (fun s => is_token s = true) ["build"; "an"; "API"]) as Hall
    by (repeat constructor).
  exact (proj1 (tokens_of_joined_words ["build"; "an"; "API"] Hne Hall)).
Defined.

Lemma parse_unknown first rest :
  first ∉ known_words →
  CommandParser.parse (first :: rest)
  = Command.mk "raw" (Some (JS.join " " (first :: rest)))
               (Some (CommandParser.extractFlags (first :: rest))).
Proof.
  intros Hnot. unfold CommandParser.parse, known_words in *.
  repeat (apply not_elem_of_cons in Hnot as [?%String.eqb_neq Hnot]).
  unfold CommandParser.commands. cbn [OMap.get].
  repeat match goal with H : (_ =? _) = false |- _ => rewrite H; clear H end.
  done.
Qed.

(** The dispatch of [run]: the help is shown for the first words [--help]
    and [-h] and for no other command line; a task is always run on a text;
    and every first word that [parse] does not know, an option such as
    [--version] included, makes the whole line the text of a task. *)
Theorem run_dispatch (argv : list string) :
  (CLI.run argv = CLI.ShowHelp
   ↔ ∃ rest, argv = "--help" :: rest ∨ argv = "-h" :: rest)
  ∧ (∀ input, CLI.run argv = CLI.ExecuteTask input → ∃ text, input = Some text)
  ∧ (CLI.run argv = CLI.StartInteractive
     ↔ argv = [] ∨ ∃ rest, argv = "--interactive" :: rest ∨ argv = "-i" :: rest)
  ∧ (∀ first rest, argv = first :: rest → first ∉ known_words →
       CLI.run argv = CLI.ExecuteTask (Some (JS.join " " argv))).
Proof.
  destruct argv as [|first rest].
  { split; [split; [done|by intros (? & [?|?])]|]. split; [done|].
    split; [split; [by left|done]|done]. }
  destruct (decide (first ∈ known_words)) as [Hknown|Hunknown].
  - unfold known_words in Hknown.
    repeat (apply elem_of_cons in Hknown as [->|Hknown]);
      [..|by apply elem_of_nil in Hknown]; cbn.
    all: split; [split; [try done; intros _; eauto|
                         try done; try (intros (? & [[=]|[=]]))]|].
    all: split; [intros input; try done; intros [= <-]; eauto|].
    all: split; [split; [try done; intros _; right; eauto|
                         try done; try (intros [[=]|(? & [[=]|[=]])])]|].
    all: intros f r [= <- <-] Hn; exfalso; apply Hn; unfold known_words;
      repeat (first [apply list_elem_of_here|apply list_elem_of_further]).
  - unfold CLI.run. rewrite (parse_unknown _ _ Hunknown). cbn.
    assert (first ≠ "--help" ∧ first ≠ "-h" ∧ first ≠ "--interactive" ∧ first ≠ "-i")
      as (H1 & H2 & H3 & H4).
    { unfold known_words in Hunknown. repeat split; intros ->; apply Hunknown;
        repeat (first [apply list_elem_of_here|apply list_elem_of_further]). }
    split; [split; [done|intros (? & [[= ? _]|[= ? _]]); done]|].
    split; [intros input [= <-]; eauto|].
    split; [split; [done|intros [[=]|(? & [[= ? _]|[= ? _]])]; done]|].
    by intros f r [= <- <-] _.
Qed.

Lemma run_dispatch_witness :
  CLI.run ["--version"] = CLI.ExecuteTask (Some "--version").
Proof.
  assert ("--version" ∉ known_words) as Hnot.
  { apply (bool_decide_unpack _). by vm_compute. }
  exact (proj2 (proj2 (proj2 (run_dispatch ["--version"]))) "--version" [] eq_refl Hnot).
Defined.


(** ** Session context *)

Section SessionFacts.
Context {Result : Type} (error : Result → option string).

Lemma session_call_inv (s : @SessionContext.t Result) (c : SessionCall Result) :
  Forall ended (SessionContext.taskHistory s) →
  Forall ended (SessionContext.taskHistory (session_call error s c))
  ∧ (List.length (SessionContext.taskHistory (session_call error s c))
     + (if SessionContext.currentTask (session_call error s c) then 1 else 0)
     ≤ List.length (SessionContext.taskHistory s)
       + (if SessionContext.currentTask s then 1 else 0)
       + match c with StartTask _ _ _ => 1 | _ => 0 end)%nat.
Proof.
  intros Hall. destruct c as [uuid now input|now result]; simpl.
  - split; [done|]. destruct (SessionContext.currentTask s); lia.
  - unfold SessionContext.endTask.
    destruct (SessionContext.currentTask s) as [task|] eqn:Hcur; simpl.
    + split.
      * apply Forall_app. split; [done|]. constructor; [|constructor].
        split; [destruct (error result) as [e|]; [destruct (JS.truthy e)|]; simpl; auto|].
        simpl. eexists. split; [done|]. split; [done|]. by eexists.
      * rewrite length_app. simpl. lia.
    + split; [done|]. rewrite Hcur. lia.
Qed.

(** After any sequence of [startTask] and [endTask] calls on a new
    session, every task of the history is an ended one, [completed] or
    [failed], so that the two counts of [getStatus] add up to [totalTasks];
    and the history holds at most one task for each [startTask]: a task
    started while another one is under way replaces it, and an [endTask]
    without a task under way files nothing. *)
Theorem session_history_accounts uuid now0 now
    (calls : list (SessionCall Result)) :
  let s := fold_left (session_call error) calls (SessionContext.new uuid now0) in
  let status := SessionContext.getStatus now s in
  (SessionContext.tasksCompleted status + SessionContext.tasksFailed status
   = SessionContext.totalTasks status)%nat
  ∧ (SessionContext.totalTasks status
     + (if SessionContext.currentTask s then 1 else 0) ≤ starts calls)%nat
  ∧ Forall ended (SessionContext.taskHistory s).
Proof.
  intros s status.
  assert (Forall ended (SessionContext.taskHistory s)
          ∧ (List.length (SessionContext.taskHistory s)
             + (if SessionContext.currentTask s then 1 else 0) ≤ starts calls)%nat)
    as [Hall Hlen].
  { subst s. induction calls as [|c calls IH] using rev_ind.
    - simpl. split; [constructor|]. unfold starts. simpl. lia.
    - rewrite fold_left_app. cbn [fold_left]. destruct IH as [Hall Hlen].
      destruct (session_call_inv _ c Hall) as [Hall' Hlen']. split; [done|].
      unfold starts in *. rewrite List.filter_app, length_app. cbn [List.filter].
      destruct c; simpl in *; lia. }
  split; [|split; [exact Hlen|exact Hall]].
  subst status. unfold SessionContext.getStatus.
  cbn [SessionContext.tasksCompleted SessionContext.tasksFailed SessionContext.totalTasks].
  clear Hlen. induction Hall as [|e l He _ IH]; simpl; [done|].
  destruct He as [[-> | ->] _]; simpl; lia.
Qed.
End SessionFacts.

(** ** Tasks run from the command line *)

Lemma executeTask_files tick input cli :
  SessionContext.currentTask (CLI.session (CLI.executeTask tick input cli)) = None
  ∧ (∃ entry,
       SessionContext.taskHistory (CLI.session (CLI.executeTask tick input cli))
       = SessionContext.taskHistory (CLI.session cli) ++ [entry]
       ∧ SessionContext.status entry = completed
       ∧ SessionContext.input entry = input
       ∧ SessionContext.id entry = Tick.taskId tick)
  ∧ Orchestrator.registry (CLI.orchestrator (CLI.executeTask tick input cli))
    = Orchestrator.registry (CLI.orchestrator cli).
Proof.
  unfold CLI.executeTask.
  destruct (execute_succeeds (Tick.env tick) input (CLI.orchestrator cli))
    as (summary & pipeline & metrics & o' & Hrun & _).
  pose proof (registry_untouched (Tick.env tick) input (CLI.orchestrator cli))
    as [Hreg _].
  rewrite Hrun in *. cbn [snd] in Hreg.
  cbn [CLI.session CLI.orchestrator SessionContext.startTask fst
       SessionContext.endTask SessionContext.currentTask SessionContext.taskHistory
       Outcome_error].
  split; [done|]. split; [|done]. eexists. split; [done|]. done.
Qed.

(** Whatever the tasks run from the command line are, and whatever the
    worker pool does with their jobs, the session files every one of them as
    [completed]: the orchestrator returns no error, so the count of failed
    tasks of the session status stays 0, also when every job of a task has
    failed; and the registry of the orchestrator stays the one it was made
    with. *)
Theorem cli_files_every_task_as_completed sessionId now0 now
    (runs : list (Tick.t * string)) :
  let cli := executeTasks runs (CLI.new sessionId now0) in
  let status := SessionContext.getStatus now (CLI.session cli) in
  SessionContext.tasksFailed status = 0%nat
  ∧ SessionContext.tasksCompleted status = List.length runs
  ∧ SessionContext.totalTasks status = List.length runs
  ∧ SessionContext.currentTask (CLI.session cli) = None
  ∧ map SessionContext.input (SessionContext.taskHistory (CLI.session cli))
    = map snd runs
  ∧ Orchestrator.registry (CLI.orchestrator cli) = AgentRegistry.new now0.
Proof.
  intros cli status.
  assert (Forall (fun e => SessionContext.status e = completed)
                 (SessionContext.taskHistory (CLI.session cli))
          ∧ map SessionContext.input (SessionContext.taskHistory (CLI.session cli))
            = map snd runs
          ∧ SessionContext.currentTask (CLI.session cli) = None
          ∧ Orchestrator.registry (CLI.orchestrator cli) = AgentRegistry.new now0)
    as (Hall & Hinputs & Hcur & Hreg).
  { subst cli. unfold executeTasks.
    induction runs as [|[tick input] runs IH] using rev_ind.
    - simpl. split; [constructor|done].
    - rewrite fold_left_app. cbn [fold_left fst snd].
      destruct IH as (Hall & Hinputs & Hcur & Hreg).
      destruct (executeTask_files tick input
                  (fold_left (fun cli run => CLI.executeTask run.1 run.2 cli) runs
                     (CLI.new sessionId now0)))
        as (Hcur' & (entry & Hhist & Hst & Hin & _) & Hreg').
      rewrite Hhist. split; [|split; [|split]].
      + apply Forall_app. split; [done|]. by constructor.
      + rewrite !map_app, Hinputs. simpl. by rewrite Hin.
      + done.
      + by rewrite Hreg'. }
  assert (List.length (SessionContext.taskHistory (CLI.session cli)) = List.length runs)
    as Hlen.
  { by rewrite <- (length_map SessionContext.input), Hinputs, length_map. }
  subst status. unfold SessionContext.getStatus.
  cbn [SessionContext.tasksCompleted SessionContext.tasksFailed SessionContext.totalTasks].
  rewrite <- Hlen.
  split; [|split; [|done]].
  - clear -Hall. induction Hall as [|e l He _ IH]; simpl; [done|]. by rewrite He.
  - clear -Hall. induction Hall as [|e l He _ IH]; simpl; [done|]. rewrite He. simpl.
    by rewrite IH.
Qed.

Lemma handed_over_weaken line lines actions :
  Forall (handed_over lines) actions → Forall (handed_over (line :: lines)) actions.
Proof.
  intros H. eapply Forall_impl; [exact H|]. intros [| | | |input]; try done.
  intros (? & ? & l & Hl & ?). split; [done|]. split; [done|].
  exists l. split; [by right|done].
Qed.

Lemma goodbye_last (a : CLI.LineAction) actions :
  a ≠ CLI.Goodbye →
  (∀ i, actions !! i = Some CLI.Goodbye → S i = List.length actions) →
  ∀ i, (a :: actions) !! i = Some CLI.Goodbye → S i = List.length (a :: actions).
Proof.
  intros Ha H [|i]; simpl; [intros [= Heq]; by destruct Ha|]. intros Hi. by rewrite (H i Hi).
Qed.

Lemma startInteractiveMode_spec (lines : list (string * Tick.t)) : ∀ cli0,
  let run := CLI.startInteractiveMode lines cli0 in
  Forall (handed_over (map fst lines)) run.1
  ∧ (List.length run.1 ≤ List.length lines)%nat
  ∧ (∀ i, run.1 !! i = Some CLI.Goodbye → S i = List.length run.1)
  ∧ ∃ entries,
      SessionContext.taskHistory (CLI.session run.2)
      = SessionContext.taskHistory (CLI.session cli0) ++ entries
      ∧ map SessionContext.input entries = executed run.1
      ∧ Forall (fun e => SessionContext.status e = completed) entries.
Proof.
  induction lines as [|[line tick] lines IH]; intros cli0.
  { simpl. split; [constructor|]. split; [done|]. split; [done|].
    exists []. by rewrite app_nil_r. }
  cbn [CLI.startInteractiveMode map fst].
  assert (Hskip : ∀ a : CLI.LineAction,
            a ≠ CLI.Goodbye → handed_over (line :: map fst lines) a → executed [a] = [] →
            let run := CLI.startInteractiveMode lines cli0 in
            Forall (handed_over (line :: map fst lines)) (a :: run.1)
            ∧ (List.length (a :: run.1) ≤ List.length ((line, tick) :: lines))%nat
            ∧ (∀ i, (a :: run.1) !! i = Some CLI.Goodbye → S i = List.length (a :: run.1))
            ∧ ∃ entries,
                SessionContext.taskHistory (CLI.session run.2)
                = SessionContext.taskHistory (CLI.session cli0) ++ entries
                ∧ map SessionContext.input entries = executed (a :: run.1)
                ∧ Forall (fun e => SessionContext.status e = completed) entries).
  { intros a Ha Hh Hex run. destruct (IH cli0) as (H1 & H2 & H3 & entries & H4 & H5 & H6).
    fold run in H1, H2, H3, H4, H5.
    split; [constructor; [done|by apply handed_over_weaken]|].
    split; [simpl; lia|]. split; [by apply goodbye_last|].
    exists entries. split; [done|]. split; [|done].
    rewrite H5. unfold executed in *. cbn [flat_map].
    destruct a; try done. }
  unfold CLI.onLine.
  destruct (String.eqb_spec (JS.trim line) "exit") as [He|He];
    [|destruct (String.eqb_spec (JS.trim line) "quit") as [Hq|Hq];
      [|destruct (String.eqb_spec (JS.trim line) ".q") as [Hd|Hd]]];
    cbn [orb].
  1-3: (cbn [fst snd]; split; [by repeat constructor|]; split; [simpl; lia|];
        split; [by intros [|[|i]] [=]|];
        exists []; by rewrite app_nil_r).
  destruct (String.eqb_spec (JS.trim line) "status") as [Hs|Hs].
  { specialize (Hskip CLI.LineStatus). cbv zeta in Hskip.
    destruct (CLI.startInteractiveMode lines cli0) as [actions cli]. by apply Hskip. }
  destruct (String.eqb_spec (JS.trim line) "clear") as [Hc|Hc].
  { specialize (Hskip CLI.LineClear). cbv zeta in Hskip.
    destruct (CLI.startInteractiveMode lines cli0) as [actions cli]. by apply Hskip. }
  destruct (Nat.eqb_spec (String.length (JS.trim line)) 0) as [Hz|Hz].
  { specialize (Hskip CLI.Again). cbv zeta in Hskip.
    destruct (CLI.startInteractiveMode lines cli0) as [actions cli]. by apply Hskip. }
  clear Hskip.
  destruct (IH (CLI.executeTask tick (JS.trim line) cli0))
    as (H1 & H2 & H3 & entries & H4 & H5 & H6).
  destruct (CLI.startInteractiveMode lines _) as [actions cli]. cbn [fst snd] in *.
  destruct (executeTask_files tick (JS.trim line) cli0)
    as (_ & (entry & Hhist & Hst & Hin & _) & _).
  split.
  { constructor; [|by apply handed_over_weaken]. split.
    - intros Hempty. apply Hz. by rewrite Hempty.
    - split.
      + intros Hin'. repeat (apply elem_of_cons in Hin' as [?|Hin']); try done.
        by apply elem_of_nil in Hin'.
      + exists line. split; [by left|done]. }
  split; [simpl; lia|].
  split; [by apply goodbye_last|].
  exists (entry :: entries). rewrite H4, Hhist, <- app_assoc.
  split; [done|]. split; [|by constructor].
  unfold executed in *. cbn [flat_map map app]. by rewrite Hin, H5.
Qed.

(** The interactive mode hands to the orchestrator only lines that are
    not blank, trimmed, and that are none of the words of the prompt
    ([exit], [quit], [.q], [status], [clear]); nothing is read after the
    line that ends the session; and the session files one completed task for
    each line handed over, in the order of the lines. *)
Theorem interactive_mode_tasks (lines : list (string * Tick.t)) sessionId now0 :
  let run := CLI.startInteractiveMode lines (CLI.new sessionId now0) in
  Forall (handed_over (map fst lines)) run.1
  ∧ (List.length run.1 ≤ List.length lines)%nat
  ∧ (∀ i, run.1 !! i = Some CLI.Goodbye → S i = List.length run.1)
  ∧ map SessionContext.input (SessionContext.taskHistory (CLI.session run.2))
    = executed run.1
  ∧ Forall (fun e => SessionContext.status e = completed)
           (SessionContext.taskHistory (CLI.session run.2)).
Proof.
  intros run.
  destruct (startInteractiveMode_spec lines (CLI.new sessionId now0))
    as (H1 & H2 & H3 & entries & H4 & H5 & H6).
  fold run in H1, H2, H3, H4, H5.
  split; [done|]. split; [done|]. split; [done|].
  rewrite H4. simpl. split; done.
Qed.


(** ** Permission handler *)

Lemma only_always_get h key d :
  only_always h → OMap.get key (PermissionHandler.decisions h) = Some d → d = always.
Proof.
  intros Hall Hget. apply omap_get_Some_elem in Hget.
  unfold only_always in Hall. rewrite Forall_forall in Hall. exact (Hall _ Hget).
Qed.

Lemma only_always_set h key :
  only_always h →
  Forall (fun kv => kv.2 = always) (OMap.set key always (PermissionHandler.decisions h)).
Proof.
  unfold only_always. generalize (PermissionHandler.decisions h). intros m Hall.
  induction Hall as [|[k d] m Hd Hall IH]; simpl; [by repeat constructor|].
  destruct (String.eqb key k); constructor; done.
Qed.

Lemma promptUser_spec answer action details h :
  let choice := JS.toLowerCase (JS.trim answer) in
  let result := PermissionHandler.promptUser answer action details h in
  (result.1 = true ↔ choice ∈ yes_answers)
  ∧ PermissionHandler.auditLog result.2 = PermissionHandler.auditLog h
  ∧ (choice ∈ ["a"; "always"] →
     PermissionHandler.decisions result.2
     = OMap.set (PermissionHandler.cacheKey action details) always
                (PermissionHandler.decisions h))
  ∧ ((choice ∉ ["a"; "always"]) → result.2 = h).
Proof.
  intros choice result. subst result. unfold PermissionHandler.promptUser. fold choice.
  unfold yes_answers.
  destruct (String.eqb_spec choice "a") as [Ha|Ha];
    [|destruct (String.eqb_spec choice "always") as [Hal|Hal]]; cbn [orb fst snd].
  - rewrite Ha. split; [split; [intros _; by left|done]|]. split; [done|].
    split; [done|]. intros Hn. exfalso. apply Hn. by left.
  - rewrite Hal. split; [split; [intros _; right; by left|done]|]. split; [done|].
    split; [done|]. intros Hn. exfalso. apply Hn. right. by left.
  - assert (choice ∉ ["a"; "always"]) as Hnot.
    { intros Hin. repeat (apply elem_of_cons in Hin as [?|Hin]); try done.
      by apply elem_of_nil in Hin. }
    destruct (String.eqb_spec choice "y") as [Hy|Hy];
      [|destruct (String.eqb_spec choice "yes") as [Hyes|Hyes];
        [|destruct (String.eqb_spec choice "") as [He|He]]]; cbn [orb fst snd].
    + split; [split; [intros _; rewrite Hy|done]|].
      { do 2 right. by left. }
      split; [done|]. split; [intros Hin; by destruct Hnot|done].
    + split; [split; [intros _; rewrite Hyes|done]|].
      { do 3 right. by left. }
      split; [done|]. split; [intros Hin; by destruct Hnot|done].
    + split; [split; [intros _; rewrite He|done]|].
      { do 4 right. by left. }
      split; [done|]. split; [intros Hin; by destruct Hnot|done].
    + split; [split; [done|]|].
      { intros Hin. repeat (apply elem_of_cons in Hin as [?|Hin]); try done.
        by apply elem_of_nil in Hin. }
      split; [done|]. split; [done|done].
Qed.

Lemma requestPermission_inv now answer action details h :
  only_always h →
  only_always (PermissionHandler.requestPermission now answer action details h).2
  ∧ ∀ key,
      OMap.get key (PermissionHandler.decisions h) = Some always →
      OMap.get key
        (PermissionHandler.decisions
           (PermissionHandler.requestPermission now answer action details h).2)
      = Some always.
Proof.
  intros Hall. unfold PermissionHandler.requestPermission.
  destruct (OMap.get (PermissionHandler.cacheKey action details)
              (PermissionHandler.decisions h)) as [d|] eqn:Hget.
  { rewrite (only_always_get _ _ _ Hall Hget). done. }
  destruct (PermissionHandler.requiresPermission action); cbn [negb]; [|done].
  pose proof (promptUser_spec answer action details h) as (_ & _ & Hset & Hsame).
  cbv zeta in Hset, Hsame.
  destruct (PermissionHandler.promptUser answer action details h) as [ok h1].
  cbn [fst snd PermissionHandler.decisions] in *.
  destruct (decide (JS.toLowerCase (JS.trim answer) ∈ ["a"; "always"])) as [Hin|Hnot].
  - unfold only_always. cbn [PermissionHandler.decisions]. rewrite (Hset Hin).
    split; [by apply only_always_set|].
    intros key Hkey.
    destruct (String.eqb_spec key (PermissionHandler.cacheKey action details)) as [->|Hne].
    + apply omap_get_set_eq.
    + by rewrite omap_get_set_ne.
  - rewrite (Hsame Hnot). done.
Qed.

Lemma requestAll_inv requests : ∀ h,
  only_always h →
  only_always (requestAll requests h)
  ∧ ∀ key,
      OMap.get key (PermissionHandler.decisions h) = Some always →
      OMap.get key (PermissionHandler.decisions (requestAll requests h)) = Some always.
Proof.
  unfold requestAll.
  induction requests as [|[[[now answer] action] details] requests IH]; intros h Hall;
    cbn [fold_left]; [done|].
  destruct (requestPermission_inv now answer action details h Hall) as [Hall' Hkeep].
  destruct (IH _ Hall') as [Hall'' Hkeep']. split; [done|].
  intros key Hkey. by apply Hkeep', Hkeep.
Qed.

(** The reply to a request made after any sequence of requests: the user
    is asked exactly when the action is a side effect and no decision is
    stored for the action and its target; when asked, the request is granted
    exactly for the answers [a], [always], [y], [yes] and the empty answer,
    in any case of the letters and with white space around, and one entry is
    added to the audit log; when not asked, the request is granted and
    nothing is logged; and a refusal is never stored. *)
Theorem requestPermission_reply requests now answer action details :
  let h := requestAll requests PermissionHandler.new in
  let reply := (PermissionHandler.requestPermission now answer action details h).1 in
  let h' := (PermissionHandler.requestPermission now answer action details h).2 in
  (Reply.asked reply = true
   ↔ PermissionHandler.requiresPermission action = true
     ∧ (PermissionHandler.cacheKey action details
        ∉ OMap.keys (PermissionHandler.decisions h)))
  ∧ (Reply.asked reply = true →
     (Reply.granted reply = true
      ↔ JS.toLowerCase (JS.trim answer) ∈ yes_answers)
     ∧ PermissionHandler.getAuditLog h'
       = PermissionHandler.getAuditLog h
         ++ [AuditEntry.mk action details
               (if Reply.granted reply then approved else denied) now])
  ∧ (Reply.asked reply = false → Reply.granted reply = true ∧ h' = h)
  ∧ (Reply.granted reply = false →
     PermissionHandler.decisions h' = PermissionHandler.decisions h)
  ∧ Forall (fun kv => kv.2 = always) (PermissionHandler.decisions h').
Proof.
  intros h reply h'.
  assert (only_always h) as Hall.
  { apply (requestAll_inv requests PermissionHandler.new). constructor. }
  assert (only_always h') as Hall' by (by apply requestPermission_inv).
  subst reply h'. unfold PermissionHandler.requestPermission in *.
  unfold PermissionHandler.getAuditLog.
  destruct (OMap.get (PermissionHandler.cacheKey action details)
              (PermissionHandler.decisions h)) as [d|] eqn:Hget.
  { rewrite (only_always_get _ _ _ Hall Hget) in *. cbn.
    split; [split; [done|]|].
    { intros [_ Hnot]. exfalso. apply Hnot. by eapply omap_get_Some_keys. }
    split; [done|]. split; [done|]. split; [done|]. exact Hall. }
  assert (PermissionHandler.cacheKey action details
          ∉ OMap.keys (PermissionHandler.decisions h)) as Hfresh.
  { intros Hin. apply omap_keys_get in Hin as [d Hd]. congruence. }
  destruct (PermissionHandler.requiresPermission action); cbn [negb] in *.
  2: { cbn. split; [split; [done|by intros [? _]]|]. done. }
  pose proof (promptUser_spec answer action details h) as (Hyes & Hlog & Hset & Hsame).
  cbv zeta in Hyes, Hlog, Hset, Hsame.
  destruct (PermissionHandler.promptUser answer action details h) as [ok h1].
  cbn [fst snd PermissionHandler.decisions PermissionHandler.auditLog
       Reply.asked Reply.granted] in *.
  split; [done|]. split; [|split; [done|split; [|exact Hall']]].
  - intros _. split; [done|]. by rewrite Hlog.
  - intros ->.
    assert (JS.toLowerCase (JS.trim answer) ∉ ["a"; "always"]) as Hnot.
    { intros Hin. assert (false = true); [|done]. apply Hyes. unfold yes_answers.
      apply elem_of_cons in Hin as [->|Hin]; [by left|].
      apply elem_of_cons in Hin as [->|Hin]; [right; by left|].
      by apply elem_of_nil in Hin. }
    by rewrite (Hsame Hnot).
Qed.

(** Once a request for an action and a target has been answered [a] or
    [always], every later request for that action and that target is granted
    without asking and without an entry in the audit log, whatever requests
    come in between and whatever the later answer would be. *)
Theorem always_is_remembered requests1 requests2 now answer action details
    now' answer' details' :
  JS.toLowerCase (JS.trim answer) ∈ ["a"; "always"] →
  ActionDetails.target details' = ActionDetails.target details →
  let h :=
    requestAll (requests1 ++ (now, answer, action, details) :: requests2)
      PermissionHandler.new in
  PermissionHandler.requestPermission now' answer' action details' h
  = (Reply.mk true false, h).
Proof.
  intros Hanswer Htarget h. subst h. unfold requestAll at 1 2.
  rewrite fold_left_app. cbn [fold_left].
  change (fold_left _ requests1 PermissionHandler.new)
    with (requestAll requests1 PermissionHandler.new).
  set (h0 := requestAll requests1 PermissionHandler.new).
  assert (only_always h0) as Hall0.
  { apply (requestAll_inv requests1 PermissionHandler.new). constructor. }
  set (h1 := (PermissionHandler.requestPermission now answer action details h0).2).
  assert (only_always h1) as Hall1 by (by apply requestPermission_inv).
  change (fold_left _ requests2 h1) with (requestAll requests2 h1).
  destruct (requestAll_inv requests2 h1 Hall1) as [Hall2 Hkeep].
  set (h2 := requestAll requests2 h1) in *.
  assert (PermissionHandler.cacheKey action details'
          = PermissionHandler.cacheKey action details) as Hkey.
  { unfold PermissionHandler.cacheKey. by rewrite Htarget. }
  unfold PermissionHandler.requestPermission at 1. rewrite Hkey.
  destruct (PermissionHandler.requiresPermission action) eqn:Hreq.
  - assert (OMap.get (PermissionHandler.cacheKey action details)
              (PermissionHandler.decisions h1) = Some always) as Hstored.
    { subst h1. unfold PermissionHandler.requestPermission.
      destruct (OMap.get (PermissionHandler.cacheKey action details)
                  (PermissionHandler.decisions h0)) as [d|] eqn:Hget.
      { pose proof (only_always_get h0 _ d Hall0 Hget) as ->.
        cbn [snd]. exact Hget. }
      rewrite Hreq. cbn [negb].
      pose proof (promptUser_spec answer action details h0) as (_ & _ & Hset & _).
      cbv zeta in Hset.
      destruct (PermissionHandler.promptUser answer action details h0) as [ok h'].
      cbn [fst snd PermissionHandler.decisions] in *.
      rewrite (Hset Hanswer). apply omap_get_set_eq. }
    by rewrite (Hkeep _ Hstored).
  - destruct (OMap.get (PermissionHandler.cacheKey action details)
                (PermissionHandler.decisions h2)) as [d|] eqn:Hget; [|done].
    by rewrite (only_always_get _ _ _ Hall2 Hget).
Qed.

Lemma always_is_remembered_witness :
  PermissionHandler.requestPermission 9 "n" "file:write"
    (ActionDetails.mk (Some "a.txt") None)
    (requestAll
       [(1, " Always ", "file:write", ActionDetails.mk (Some "a.txt") None);
        (2, "n", "file:delete", ActionDetails.mk (Some "a.txt") None)]
       PermissionHandler.new)
  = (Reply.mk true false,
     requestAll
       [(1, " Always ", "file:write", ActionDetails.mk (Some "a.txt") None);
        (2, "n", "file:delete", ActionDetails.mk (Some "a.txt") None)]
       PermissionHandler.new).
Proof.
  assert (JS.toLowerCase (JS.trim " Always ") ∈ ["a"; "always"]) as Hanswer.
  { apply (bool_decide_unpack _). by vm_compute. }
  exact (always_is_remembered [] [(2, "n", "file:delete",
                                   ActionDetails.mk (Some "a.txt") None)]
           1 " Always " "file:write" (ActionDetails.mk (Some "a.txt") None)
           9 "n" (ActionDetails.mk (Some "a.txt") None) Hanswer eq_refl).
Defined.


(** ** The simulated worker *)

Lemma runWorker_output random job :
  ∃ rest, WorkerResult.output (WorkerPool.runWorker random job) = String "[" rest.
Proof. unfold WorkerPool.runWorker. cbn. eauto. Qed.

Lemma result_of_simulated assignments random elapsed i task :
  let job := job_of assignments task in
  let r := result_of assignments (simulated_pool random elapsed) i task in
  TaskResult.taskId r = Task.id task
  ∧ TaskResult.description r = Task.description task
  ∧ TaskResult.status r = completed
  ∧ TaskResult.error r = None
  ∧ TaskResult.output r
    = Some (WorkerResult.output (WorkerPool.runWorker (random job) job))
  ∧ TaskResult.duration r = elapsed job.
Proof.
  unfold result_of, simulated_pool.
  cbn [TaskResult.taskId TaskResult.description TaskResult.status TaskResult.error
       TaskResult.output TaskResult.duration].
  do 4 (split; [done|]). split; [|done].
  destruct (runWorker_output (random (job_of assignments task)) (job_of assignments task))
    as [rest ->]. done.
Qed.

Lemma elem_of_results_by_wave {B} (view : omap Task.t) (g : nat → Task.t → B)
    (waves : list (list string)) (x : B) :
  x ∈ concat (imap (fun i wave => map (g i) (tasks_of view wave)) waves) →
  ∃ i task, x = g i task.
Proof.
  intros Hin. apply elem_of_concat_lookup in Hin as (i & rs & Hi & Hin).
  rewrite list_lookup_imap in Hi.
  destruct (waves !! i) as [wave|]; [|done]. injection Hi as <-.
  apply list_elem_of_fmap in Hin as (task & -> & _). eauto.
Qed.

(** With the simulated worker, which resolves every job, a run has no
    failed task: every result is [completed], has no error and carries, for
    a task of its identifier and description and the job made of that task
    and of the agents assigned to it, the text that [runWorker] produces
    for the job, which begins with the bracketed agent, and the time
    measured around the job; the metrics count no failure, and every
    confidence update that the run queues is a boost.  The processing time
    that [runWorker] reports lies between 50 and 250 milliseconds. *)
Theorem simulation_never_fails uuid random elapsed now duration input o :
  let env := Env.mk uuid (simulated_pool random elapsed) now duration in
  (∃ summary pipeline metrics o' allocation execution,
     Orchestrator.execute env input o = (Success summary pipeline metrics, o')
     ∧ Pipeline.agents pipeline = Some allocation
     ∧ Pipeline.execution pipeline = Some execution
     ∧ Forall (fun r => TaskResult.status r = completed
                        ∧ TaskResult.error r = None
                        ∧ (∃ task,
                             let job := job_of (Allocation.assignments allocation) task in
                             TaskResult.taskId r = Task.id task
                             ∧ TaskResult.description r = Task.description task
                             ∧ TaskResult.output r
                               = Some (WorkerResult.output
                                         (WorkerPool.runWorker (random job) job))
                             ∧ TaskResult.duration r = elapsed job)
                        ∧ ∃ rest, TaskResult.output r = Some (String "[" rest))
              (ExecutionResult.results execution)
     ∧ RunMetrics.tasksFailed metrics = 0%nat
     ∧ RunMetrics.tasksCompleted metrics
       = List.length (ExecutionResult.results execution)
     ∧ ∃ updates,
         Orchestrator.updateQueue o' = Orchestrator.updateQueue o ++ updates
         ∧ Forall (fun u => ConfidenceUpdate.delta u = 0.02%Q) updates)
  ∧ ∀ r job, (0 <= r)%Q → (r < 1)%Q →
      (50 <= WorkerMetadata.processingTime
               (WorkerResult.metadata (WorkerPool.runWorker r job)) <= 250)%Z.
Proof.
  intros env. split.
  - destruct (execute_run env input o) as (complexity & dag & _ & _ & H).
    subst env. cbn [Env.pool Env.uuid Env.now Env.elapsed] in H.
    cbv zeta in H. rewrite H. clear H.
    set (intent := IntentClassifier.classify _).
    set (tasks := TaskDecomposer.decompose _ _ _).
    set (allocation := AgentSpawner.allocate _ _ _ _).
    set (execution := (DAGScheduler.execute dag allocation _).2).
    eexists _, _, _, _, allocation, execution.
    split; [done|]. split; [done|]. split; [done|].
    assert (Forall (fun r => TaskResult.status r = completed
                        ∧ TaskResult.error r = None
                        ∧ (∃ task,
                             let job := job_of (Allocation.assignments allocation) task in
                             TaskResult.taskId r = Task.id task
                             ∧ TaskResult.description r = Task.description task
                             ∧ TaskResult.output r
                               = Some (WorkerResult.output
                                         (WorkerPool.runWorker (random job) job))
                             ∧ TaskResult.duration r = elapsed job)
                        ∧ ∃ rest, TaskResult.output r = Some (String "[" rest))
                   (ExecutionResult.results execution)) as Hall.
    { subst execution.
      destruct (results_by_wave dag allocation
                  (simulated_pool random elapsed)) as (Hr & _).
      cbv zeta in Hr. rewrite Hr. apply Forall_forall. intros r Hin.
      apply elem_of_results_by_wave in Hin as (i & task & ->).
      destruct (result_of_simulated (Allocation.assignments allocation)
                  random elapsed i task) as (Hid & Hdesc & Hs & He & Ho & Hd).
      cbv zeta in *.
      split; [done|]. split; [done|]. split.
      - by exists task.
      - rewrite Ho.
        destruct (runWorker_output (random (job_of (Allocation.assignments allocation) task))
                    (job_of (Allocation.assignments allocation) task)) as [rest ->].
        by exists rest. }
    split; [exact Hall|].
    cbn [RunMetrics.tasksFailed RunMetrics.tasksCompleted].
    unfold ResultEvaluator.evaluate. cbn [Evaluation.failed Evaluation.completed].
    split; [|split].
    + unfold ResultEvaluator.count. clear -Hall.
      induction Hall as [|r l (Hs & _) _ IH]; simpl; [done|]. by rewrite Hs.
    + unfold ResultEvaluator.count. clear -Hall.
      induction Hall as [|r l (Hs & _) _ IH]; simpl; [done|]. rewrite Hs. simpl.
      by rewrite IH.
    + cbn [Orchestrator.updateQueue]. unfold LearningSystem.update.
      set (memory1 := LearningSystem.analyzePatterns _ _ _ _ _).
      set (updates := LearningSystem.generateConfidenceUpdates memory1 _ _ _).
      exists updates. split; [by destruct (JS.lt _ _)|].
      subst updates.
      match goal with
      | |- Forall _ (LearningSystem.generateConfidenceUpdates ?m ?a ?e ?c) =>
          destruct (confidence_updates_facts m a e c) as [Hshape _]
      end.
      eapply Forall_impl; [exact Hshape|]. cbv beta.
      intros u (r & Hin & _ & _ & [[Hf _]|[_ [Hd _]]]); [|done].
      rewrite Forall_forall in Hall. destruct (Hall r Hin) as [Hs _]. congruence.
  - intros r job Hr0 Hr1. unfold WorkerPool.runWorker.
    cbn [WorkerResult.metadata WorkerMetadata.processingTime].
    split.
    + assert (50 + (1 # 2) <= 50 + r * 200 + (1 # 2))%Q as H by nra.
      apply Qfloor_resp_le in H. exact H.
    + assert (50 + r * 200 + (1 # 2) <= 250 + (1 # 2))%Q as H by nra.
      apply Qfloor_resp_le in H. exact H.
Qed.
